(** * Amazon Personalize immersion day (Retail): orchestration notebooks

    A shallow embedding of the code cells of
    [notebooks/Retail/01_Data_Layer.ipynb] and
    [notebooks/Retail/02_Training_Layer.ipynb].

    The notebooks are flat scripts: every cell reads and writes the kernel's
    global variables, prints to the cell output, reads the wall clock, sleeps
    and calls boto3 clients.  A cell is embedded as a computation in a state
    and exception monad over

    - the external world (clock and remote services), kept abstract behind
      the interface [Env];
    - the kernel namespace, a finite map from variable names to Python
      values;
    - a chronological trace of the observable events of the run (client
      calls with their results, printed lines, sleeps, list removals).

    [while] loops take a fuel argument; running out of fuel is a result of
    its own, distinct from returning and from raising. *)

From stdpp Require Import base option list gmap strings.
From Stdlib Require Import Ascii ZArith Lia.

Local Open Scope string_scope.
Local Open Scope Z_scope.

(** ** Python values *)

(** The values that flow through the notebooks are JSON-like: boto3
    responses, keyword arguments and ARN strings.  A [dict] is kept as the
    list of its items. *)
#[warnings="-register-all"]
Inductive value : Type :=
| VNone
| VBool (b : bool)
| VInt (z : Z)
| VStr (s : string)
| VList (l : list value)
| VDict (d : list (string * value)).

(** The exceptions the cells can meet.  [ClientError cls message] is a
    modelled botocore exception, identified by its class name, such as
    [ResourceAlreadyExistsException]; [message] is what [str] gives for it. *)
Inductive exn : Type :=
| KeyError (k : string)
| TypeError
| AttributeError
| IndexError
| ValueError
| NameError (name : string)
| OSError
| ClientError (cls : string) (message : string).

Definition int_of_bool (b : bool) : Z := if b then 1 else 0.

(** Python's [==] on these values.  [bool] is a subtype of [int]; lists
    compare element by element; dicts compare as mappings. *)
Fixpoint py_eq (a b : value) {struct a} : bool :=
  match a, b with
  | VNone, VNone => true
  | VBool x, VBool y => Bool.eqb x y
  | VBool x, VInt y => Z.eqb (int_of_bool x) y
  | VInt x, VBool y => Z.eqb x (int_of_bool y)
  | VInt x, VInt y => Z.eqb x y
  | VStr x, VStr y => String.eqb x y
  | VList l1, VList l2 =>
      (fix go (l1 l2 : list value) : bool :=
         match l1, l2 with
         | [], [] => true
         | x :: xs, y :: ys => py_eq x y && go xs ys
         | _, _ => false
         end) l1 l2
  | VDict d1, VDict d2 =>
      Nat.eqb (length d1) (length d2) &&
      (fix sub (d : list (string * value)) : bool :=
         match d with
         | [] => true
         | (k, x) :: rest =>
             existsb (fun kv => String.eqb k (fst kv) && py_eq x (snd kv)) d2
             && sub rest
         end) d1
  | _, _ => false
  end.

(** Truth value of an object, as tested by [if]. *)
Definition truthy (v : value) : bool :=
  match v with
  | VNone => false
  | VBool b => b
  | VInt z => negb (Z.eqb z 0)
  | VStr s => negb (String.eqb s "")
  | VList l => negb (Nat.eqb (length l) 0)
  | VDict d => negb (Nat.eqb (length d) 0)
  end.

Fixpoint assoc (k : string) (d : list (string * value)) : option value :=
  match d with
  | [] => None
  | (k', v) :: rest => if String.eqb k k' then Some v else assoc k rest
  end.

(** [v[k]] with a string key. *)
Definition getitem (v : value) (k : string) : value + exn :=
  match v with
  | VDict d => match assoc k d with
               | Some x => inl x
               | None => inr (KeyError k)
               end
  | _ => inr TypeError
  end.

(** [v.get(k)]. *)
Definition dict_get (v : value) (k : string) : value + exn :=
  match v with
  | VDict d => match assoc k d with
               | Some x => inl x
               | None => inl VNone
               end
  | _ => inr AttributeError
  end.

(** [s + v] for a string literal [s]. *)
Definition str_add (s : string) (v : value) : value + exn :=
  match v with
  | VStr t => inl (VStr (s ++ t))
  | _ => inr TypeError
  end.

(** [list.remove(x)]: drops the first item equal to [x], [ValueError] when
    there is none. *)
Fixpoint list_remove (x : value) (l : list value) : option (list value) :=
  match l with
  | [] => None
  | y :: rest =>
      if py_eq y x then Some rest
      else match list_remove x rest with
           | Some rest' => Some (y :: rest')
           | None => None
           end
  end.

(** ** The external world *)

Record Call : Type := mkCall {
  client : string;
  op : string;
  kwargs : list (string * value)
}.

(** What the notebooks use from outside: the clock, [time.sleep], the boto3
    clients, and the library renderers [json.dumps] and [str].  The world
    [W] is whatever state the clock and the remote services have. *)
Record Env (W : Type) : Type := mkEnv {
  clock : W → Z;
  sleep_for : Z → W → W;
  client_call : Call → W → (value + exn) * W;
  read_json : string → W → (value + exn) * W;
  json_dumps : option Z → value → string;
  py_repr : value → string
}.
Arguments clock {W}. Arguments sleep_for {W}. Arguments client_call {W}.
Arguments read_json {W}. Arguments json_dumps {W}. Arguments py_repr {W}.

(** ** Runs *)

Inductive event : Type :=
| ECall (c : Call) (r : value + exn)
| EPrint (line : string)
| ESleep (secs : Z)
| ERemove (x : value).

Record State (W : Type) : Type := mkState {
  world : W;
  globals : gmap string value;
  trace : list event
}.
Arguments mkState {W}. Arguments world {W}. Arguments globals {W}.
Arguments trace {W}.

Inductive result (A : Type) : Type :=
| Ok (a : A)
| Raise (e : exn)
| OutOfFuel.
Arguments Ok {A}. Arguments Raise {A}. Arguments OutOfFuel {A}.

Definition M (W A : Type) : Type := State W → result A * State W.

Definition ret {W A} (a : A) : M W A := fun s => (Ok a, s).

Definition bind {W A B} (m : M W A) (f : A → M W B) : M W B :=
  fun s => match m s with
           | (Ok a, s') => f a s'
           | (Raise e, s') => (Raise e, s')
           | (OutOfFuel, s') => (OutOfFuel, s')
           end.

Definition raise {W A} (e : exn) : M W A := fun s => (Raise e, s).

Definition out_of_fuel {W A} : M W A := fun s => (OutOfFuel, s).

(** [try: m except <class matched by handles> as e: h e] *)
Definition try_except {W A} (m : M W A) (handles : exn → bool)
                      (h : exn → M W A) : M W A :=
  fun s => match m s with
           | (Raise e, s') => if handles e then h e s' else (Raise e, s')
           | r => r
           end.

Declare Scope py_scope.
Delimit Scope py_scope with py.
Notation "'let*' x ':=' m 'in' k" := (bind m (fun x => k))
  (at level 10, x name, m at level 100, k at level 200) : py_scope.
Notation "m ;;; k" := (bind m (fun _ => k))
  (at level 100, right associativity) : py_scope.
Local Open Scope py_scope.

Definition lift {W A} (r : A + exn) : M W A :=
  match r with
  | inl a => ret a
  | inr e => raise e
  end.

Definition emit {W} (e : event) : M W unit :=
  fun s => (Ok tt, mkState (world s) (globals s) (trace s ++ [e])).

Section Primitives.
Context {W : Type} (env : Env W).

Definition py_str (v : value) : string :=
  match v with
  | VStr s => s
  | _ => py_repr env v
  end.

(** [print(line)] *)
Definition print (line : string) : M W unit := emit (EPrint line).

(** [time.time()] *)
Definition time_time : M W Z := fun s => (Ok (clock env (world s)), s).

(** [time.sleep(secs)] *)
Definition time_sleep (secs : Z) : M W unit :=
  fun s => (Ok tt, mkState (sleep_for env secs (world s)) (globals s)
                           (trace s ++ [ESleep secs])).

(** A boto3 client method called with keyword arguments. *)
Definition call (cl o : string) (kw : list (string * value)) : M W value :=
  fun s =>
    let c := mkCall cl o kw in
    let '(r, w') := client_call env c (world s) in
    let s' := mkState w' (globals s) (trace s ++ [ECall c r]) in
    match r with
    | inl v => (Ok v, s')
    | inr e => (Raise e, s')
    end.

(** [json.load(open(path))] *)
Definition load_json (path : string) : M W value :=
  fun s =>
    let '(r, w') := read_json env path (world s) in
    lift r (mkState w' (globals s) (trace s)).

(** Reading and assigning a variable of the kernel namespace. *)
Definition get_global (x : string) : M W value :=
  fun s => match globals s !! x with
           | Some v => (Ok v, s)
           | None => (Raise (NameError x), s)
           end.

Definition set_global (x : string) (v : value) : M W unit :=
  fun s => (Ok tt, mkState (world s) (<[x := v]> (globals s)) (trace s)).

(** [l.remove(x)] on a list held in a local. *)
Definition remove (x : value) (l : list value) : M W (list value) :=
  match list_remove x l with
  | Some l' => emit (ERemove x) ;;; ret l'
  | None => raise ValueError
  end.
End Primitives.

(** ** Waiting for asynchronous resources *)

(** The three multi-resource waits (import jobs, [01_Data_Layer] lines
    943-967; solution versions, [02_Training_Layer] lines 371-395; campaigns,
    lines 665-689) are the same loop up to the describe operation, the key of
    the resource record in its response and the wording of the messages. *)
Record poll_kind : Type := mkKind {
  describe_op : string;
  arn_param : string;
  record_key : string;
  noun : string;
  progress_msg : string;
  done_msg : string
}.

Definition import_jobs : poll_kind :=
  mkKind "describe_dataset_import_job" "datasetImportJobArn" "datasetImportJob"
         "Import job"
         "At least one dataset import job still in progress"
         "All import jobs have ended".

Definition solution_versions : poll_kind :=
  mkKind "describe_solution_version" "solutionVersionArn" "solutionVersion"
         "Solution version"
         "At least one solution version is still in progress"
         "All solution versions have completed".

Definition campaigns : poll_kind :=
  mkKind "describe_campaign" "campaignArn" "campaign"
         "Campaign"
         "At least one campaign is still in progress"
         "All campaigns have completed".

Definition max_wait : Z := 3 * 60 * 60.

Section Polling.
Context {W : Type} (env : Env W).

Definition describe (k : poll_kind) (arn : value) : M W value :=
  call env "personalize" (describe_op k) [(arn_param k, arn)].

(** The body of the [for] loop: one describe call, the classification of
    its status, and the removal of a terminal identifier from the list
    that is being iterated. *)
Definition poll_body (k : poll_kind) (arn : value) (arns : list value)
  : M W (list value) :=
  let* response := describe k arn in
  let* record := lift (getitem response (record_key k)) in
  let* status := lift (getitem record "status") in
  if py_eq status (VStr "ACTIVE") then
    print (noun k ++ " " ++ py_str env arn ++ " successfully completed") ;;;
    remove arn arns
  else if py_eq status (VStr "CREATE FAILED") then
    print (noun k ++ " " ++ py_str env arn ++ " failed") ;;;
    (let* reason := lift (dict_get response "failureReason") in
     if truthy reason then
       let* reason' := lift (getitem response "failureReason") in
       let* line := lift (str_add "   Reason: " reason') in
       print (py_str env line)
     else ret tt) ;;;
    remove arn arns
  else ret arns.

(** [for arn in reversed(arns): ...].  [reversed] of a list is an iterator
    over the list object itself, not a copy: it keeps an index, starting at
    [len(arns) - 1], and each step yields [arns[index]] of the list as it
    is then, and stops as soon as the index is out of range.  [n] is the
    index plus one. *)
Fixpoint for_reversed (k : poll_kind) (n : nat) (arns : list value)
  : M W (list value) :=
  match n with
  | O => ret arns
  | S index =>
      match arns !! index with
      | Some arn =>
          let* arns' := poll_body k arn arns in
          for_reversed k index arns'
      | None => ret arns
      end
  end.

(** [while time.time() < max_time: ...] *)
Fixpoint poll_while (k : poll_kind) (fuel : nat) (max_time : Z)
                    (arns : list value) : M W (list value) :=
  match fuel with
  | O => out_of_fuel
  | S fuel' =>
      let* now := time_time env in
      if now <? max_time then
        let* arns' := for_reversed k (length arns) arns in
        if (0 <? length arns')%nat then
          print (progress_msg k) ;;;
          time_sleep env 60 ;;;
          poll_while k fuel' max_time arns'
        else
          print (done_msg k) ;;;
          ret arns'
      else ret arns
  end.

(** The loop with its preamble; the result is the list as the loop leaves
    it. *)
Definition poll_many (k : poll_kind) (fuel : nat) (arns : list value)
  : M W (list value) :=
  let* now := time_time env in
  let max_time := now + max_wait in
  poll_while k fuel max_time arns.
End Polling.


(** The two single-resource waits (dataset group, [01_Data_Layer] lines
    549-561, three hours; filter, [02_Training_Layer] lines 734-746, one
    hour) are again one loop. *)
Record wait_kind : Type := mkWait {
  w_op : string;
  w_param : string;
  w_var : string;
  w_key : string;
  w_label : string;
  w_budget : Z
}.

Definition dataset_group_wait : wait_kind :=
  mkWait "describe_dataset_group" "datasetGroupArn" "dataset_group_arn"
         "datasetGroup" "DatasetGroup" (3 * 60 * 60).

Definition filter_wait : wait_kind :=
  mkWait "describe_filter" "filterArn" "filter_arn" "filter" "Filter"
         (60 * 60).

Section Waiting.
Context {W : Type} (env : Env W).

Fixpoint wait_while (k : wait_kind) (fuel : nat) (max_time : Z)
  : M W unit :=
  match fuel with
  | O => out_of_fuel
  | S fuel' =>
      let* now := time_time env in
      if now <? max_time then
        let* arn := get_global (w_var k) in
        let* response := call env "personalize" (w_op k) [(w_param k, arn)] in
        let* record := lift (getitem response (w_key k)) in
        let* status := lift (getitem record "status") in
        set_global "status" status ;;;
        print (w_label k ++ ": " ++ py_str env status) ;;;
        if py_eq status (VStr "ACTIVE") || py_eq status (VStr "CREATE FAILED")
        then ret tt
        else time_sleep env 15 ;;; wait_while k fuel' max_time
      else ret tt
  end.

Definition wait_one (k : wait_kind) (fuel : nat) : M W unit :=
  set_global "status" VNone ;;;
  let* now := time_time env in
  wait_while k fuel (now + w_budget k).
End Waiting.

(** ** More of Python *)

(** [a + b] *)
Definition py_add (a b : value) : value + exn :=
  match a, b with
  | VStr x, VStr y => inl (VStr (x ++ y))
  | VInt x, VInt y => inl (VInt (x + y))
  | VInt x, VBool y => inl (VInt (x + int_of_bool y))
  | VBool x, VInt y => inl (VInt (int_of_bool x + y))
  | VBool x, VBool y => inl (VInt (int_of_bool x + int_of_bool y))
  | VList x, VList y => inl (VList (x ++ y))
  | _, _ => inr TypeError
  end.

(** [s.split(sep)] for a one-character separator. *)
Fixpoint split_on (sep : Ascii.ascii) (s : string) : list string :=
  match s with
  | EmptyString => [""]
  | String c rest =>
      if Ascii.eqb c sep then "" :: split_on sep rest
      else match split_on sep rest with
           | part :: parts => String c part :: parts
           | [] => [String c ""]
           end
  end.

(** [v.split(':')[i]] *)
Definition split_colon_index (v : value) (i : nat) : value + exn :=
  match v with
  | VStr s => match split_on ":"%char s !! i with
              | Some part => inl (VStr part)
              | None => inr IndexError
              end
  | _ => inr AttributeError
  end.

Fixpoint chars (s : string) : list value :=
  match s with
  | EmptyString => []
  | String c rest => VStr (String c "") :: chars rest
  end.

(** The items a [for] loop draws from [v]. *)
Definition iter_items (v : value) : list value + exn :=
  match v with
  | VList l => inl l
  | VDict d => inl (map (fun kv => VStr (fst kv)) d)
  | VStr s => inl (chars s)
  | _ => inr TypeError
  end.

(** The one-character string that holds a double quote. *)
Definition quote : string := String (Ascii.ascii_of_nat 34) "".

(** [except <client>.exceptions.<cls>] *)
Definition is_client_error (cls : string) (e : exn) : bool :=
  match e with
  | ClientError c _ => String.eqb c cls
  | _ => false
  end.

(** [str(e)] for a caught client error. *)
Definition exn_str (e : exn) : string :=
  match e with
  | ClientError _ message => message
  | _ => ""
  end.

(** ** The item-name helper of the data exploration cells *)

(** A row of [item_metadata_df], whose columns are fixed when the frame is
    loaded ([01_Data_Layer] line 248). *)
Record item_row : Type := mkItem {
  id : value;
  name : value;
  category : value;
  style : value;
  featured : value
}.

(** [01_Data_Layer] lines 257-259.  The frame is the notebook's global
    [item_metadata_df]; the boolean mask keeps the rows whose [id] equals
    [item_id], [.values[0]] indexes the names of those rows. *)
Definition get_item_name_from_id (item_metadata_df : list item_row)
                                 (item_id : value) : value + exn :=
  match name <$> filter (fun row => py_eq (id row) item_id = true)
                        item_metadata_df with
  | item_name :: _ => inl item_name
  | [] => inr IndexError
  end.

(** [test.apply(lambda row: get_item_name_from_id(row['ITEM_ID']), axis=1)]
    ([01_Data_Layer] lines 277-280), on the [ITEM_ID] column of
    [products_df]: the first lookup that raises ends the cell. *)
Fixpoint item_names (item_metadata_df : list item_row) (item_ids : list value)
  : list value + exn :=
  match item_ids with
  | [] => inl []
  | item_id :: rest =>
      match get_item_name_from_id item_metadata_df item_id with
      | inl n => match item_names item_metadata_df rest with
                 | inl ns => inl (n :: ns)
                 | inr e => inr e
                 end
      | inr e => inr e
      end
  end.

(** ** The cells of [01_Data_Layer.ipynb] *)

Definition field (n t : string) (more : list (string * value)) : value :=
  VDict ([("name", VStr n); ("type", VStr t)] ++ more).

Definition avro_record (n : string) (fields : list value) : value :=
  VDict [("type", VStr "record"); ("name", VStr n);
         ("namespace", VStr "com.amazonaws.personalize.schema");
         ("fields", VList fields); ("version", VStr "1.0")].

Definition interactions_schema : value :=
  avro_record "Interactions"
    [field "ITEM_ID" "string" []; field "USER_ID" "string" [];
     field "EVENT_TYPE" "string" []; field "TIMESTAMP" "long" [];
     field "DISCOUNT" "string" [("categorical", VBool true)]].

Definition items_schema : value :=
  avro_record "Items"
    [field "ITEM_ID" "string" [];
     field "CATEGORY" "string" [("categorical", VBool true)];
     field "STYLE" "string" [("categorical", VBool true)];
     field "DESCRIPTION" "string" [("textual", VBool true)]].

Definition users_schema : value :=
  avro_record "Users"
    [field "USER_ID" "string" []; field "AGE" "int" [];
     field "GENDER" "string" [("categorical", VBool true)]].

Definition s3_access_policy (bucket_name : string) : value :=
  VDict [("Version", VStr "2012-10-17");
         ("Id", VStr "PersonalizeS3BucketAccessPolicy");
         ("Statement", VList [VDict
            [("Sid", VStr "PersonalizeS3BucketAccessPolicy");
             ("Effect", VStr "Allow");
             ("Principal", VDict [("Service", VStr "personalize.amazonaws.com")]);
             ("Action", VList [VStr "s3:GetObject"; VStr "s3:ListBucket"]);
             ("Resource", VList [VStr ("arn:aws:s3:::" ++ bucket_name);
                                 VStr ("arn:aws:s3:::" ++ bucket_name ++ "/*")])]])].

Definition assume_role_policy_document : value :=
  VDict [("Version", VStr "2012-10-17");
         ("Statement", VList [VDict
            [("Effect", VStr "Allow");
             ("Principal", VDict [("Service", VStr "personalize.amazonaws.com")]);
             ("Action", VStr "sts:AssumeRole")]])].

Section DataLayer.
Context {W : Type} (env : Env W).

(** The file names set by the first code cell (lines 112-117). *)
Definition setup_cell : M W unit :=
  set_global "raw_items_filename"
    (VStr "../../automation/ml_ops/domain/Retail/data/Items/items.csv") ;;;
  set_global "raw_users_filename"
    (VStr "../../automation/ml_ops/domain/Retail/data/Users/users.csv") ;;;
  set_global "raw_interactions_filename"
    (VStr "../../automation/ml_ops/domain/Retail/data/Interactions/interactions.csv") ;;;
  set_global "items_filename" (VStr "items.csv") ;;;
  set_global "users_filename" (VStr "users.csv") ;;;
  set_global "interactions_filename" (VStr "interactions.csv").

(** [for schema_response in schemas: if schema_response['name'] == wanted:
    ...]: every match assigns the variable, there is no [break]. *)
Fixpoint lookup_schema (wanted var : string) (schemas : list value)
  : M W unit :=
  match schemas with
  | [] => ret tt
  | schema_response :: rest =>
      let* n := lift (getitem schema_response "name") in
      (if py_eq n (VStr wanted) then
         let* arn := lift (getitem schema_response "schemaArn") in
         set_global var arn ;;;
         print ("Using existing schema: " ++ py_str env arn)
       else ret tt) ;;;
      lookup_schema wanted var rest
  end.

(** The rest of the [try] block of a schema cell, once [create_schema] has
    returned.  The cells differ in whether the response is printed before or
    after the assignment. *)
Definition schema_bind (var : string) (print_first : bool)
                       (create_schema_response : value) : M W unit :=
  set_global "create_schema_response" create_schema_response ;;;
  if print_first then
    print (json_dumps env (Some 2) create_schema_response) ;;;
    let* arn := lift (getitem create_schema_response "schemaArn") in
    set_global var arn
  else
    let* arn := lift (getitem create_schema_response "schemaArn") in
    set_global var arn ;;;
    print (json_dumps env (Some 2) create_schema_response).

(** The [except] block of a schema cell. *)
Definition schema_recover (wanted var : string) : M W unit :=
  print "You aready created this schema, seemingly" ;;;
  let* response :=
    call env "personalize" "list_schemas" [("maxResults", VInt 100)] in
  let* schemas := lift (getitem response "schemas") in
  set_global "schemas" schemas ;;;
  let* items := lift (iter_items schemas) in
  lookup_schema wanted var items.

(** A schema cell: [created] is the name passed to [create_schema],
    [wanted] the name the recovery path looks for, [var] the variable that
    receives the ARN. *)
Definition schema_cell (created wanted var : string) (schema : value)
                       (print_first : bool) : M W unit :=
  try_except
    (let* create_schema_response :=
       call env "personalize" "create_schema"
            [("name", VStr created);
             ("schema", VStr (json_dumps env None schema))] in
     schema_bind var print_first create_schema_response)
    (is_client_error "ResourceAlreadyExistsException")
    (fun _ => schema_recover wanted var).

(** Lines 321-364. *)
Definition interactions_schema_cell : M W unit :=
  schema_cell "personalize-immersion-day-retail-schema-interactions"
              "personalize-immersion-day-retail-schema-interactions"
              "interactions_schema_arn" interactions_schema true.

(** Lines 384-425. *)
Definition items_schema_cell : M W unit :=
  schema_cell "personalize-immersion-day-retail-schema-items"
              "personalize-immersion-day-retail-schema-items"
              "items_schema_arn" items_schema false.

(** Lines 446-481. *)
Definition users_schema_cell : M W unit :=
  schema_cell "rpersonalize-immersion-day-retail-schema-users"
              "personalize-immersion-day-retail-schema-users"
              "users_schema_arn" users_schema true.

(** A creation call without a handler: the response is kept in
    [response_var], the identifier under [key] in [var]. *)
Definition create_resource (o : string) (kw : list (string * value))
                           (response_var key var : string) : M W value :=
  let* response := call env "personalize" o kw in
  set_global response_var response ;;;
  let* arn := lift (getitem response key) in
  set_global var arn ;;;
  ret response.

(** Lines 520-526. *)
Definition create_dataset_group_cell : M W unit :=
  let* response :=
    create_resource "create_dataset_group"
      [("name", VStr "personalize-immersion-day-retail")]
      "create_dataset_group_response" "datasetGroupArn" "dataset_group_arn" in
  print (json_dumps env (Some 2) response) ;;;
  let* dataset_group_arn := get_global "dataset_group_arn" in
  print ("DatasetGroupArn = " ++ py_str env dataset_group_arn).

(** Lines 549-561. *)
Definition wait_dataset_group_cell (fuel : nat) : M W unit :=
  wait_one env dataset_group_wait fuel.

(** Lines 579-588, 604-613 and 629-638. *)
Definition create_dataset_cell (type dataset_name schema_var var : string)
  : M W unit :=
  set_global "dataset_type" (VStr type) ;;;
  let* dataset_type := get_global "dataset_type" in
  let* dataset_group_arn := get_global "dataset_group_arn" in
  let* schema_arn := get_global schema_var in
  let* response :=
    create_resource "create_dataset"
      [("name", VStr dataset_name); ("datasetType", dataset_type);
       ("datasetGroupArn", dataset_group_arn); ("schemaArn", schema_arn)]
      "create_dataset_response" "datasetArn" var in
  print (json_dumps env (Some 2) response).

Definition create_interactions_dataset_cell : M W unit :=
  create_dataset_cell "INTERACTIONS"
    "personalize-immersion-day-dataset-interactions"
    "interactions_schema_arn" "interactions_dataset_arn".

Definition create_items_dataset_cell : M W unit :=
  create_dataset_cell "ITEMS" "personalize-immersion-day-dataset-items"
    "items_schema_arn" "items_dataset_arn".

Definition create_users_dataset_cell : M W unit :=
  create_dataset_cell "USERS" "personalize-immersion-day-dataset-users"
    "users_schema_arn" "users_dataset_arn".

(** Lines 672-676. *)
Definition region_cell : M W unit :=
  let* data := load_json env "/opt/ml/metadata/resource-metadata.json" in
  set_global "data" data ;;;
  let* resource_arn := lift (getitem data "ResourceArn") in
  set_global "resource_arn" resource_arn ;;;
  let* region := lift (split_colon_index resource_arn 3) in
  set_global "region" region ;;;
  print (py_str env region).

(** Lines 692-702. *)
Definition bucket_cell : M W unit :=
  let* identity := call env "sts" "get_caller_identity" [] in
  let* account_id := lift (dict_get identity "Account") in
  set_global "account_id" account_id ;;;
  let* region := get_global "region" in
  let* b1 := lift (py_add account_id (VStr "-")) in
  let* b2 := lift (py_add b1 region) in
  let* b3 := lift (py_add b2 (VStr "-")) in
  let* bucket_name := lift (py_add b3 (VStr "personalize-immersionday-retail")) in
  set_global "bucket_name" bucket_name ;;;
  print (py_str env bucket_name) ;;;
  if py_eq region (VStr "us-east-1") then
    call env "s3" "create_bucket" [("Bucket", bucket_name)] ;;; ret tt
  else
    call env "s3" "create_bucket"
         [("Bucket", bucket_name);
          ("CreateBucketConfiguration",
           VDict [("LocationConstraint", region)])] ;;;
    ret tt.

Definition upload (key_var file_var : string) : M W unit :=
  let* bucket_name := get_global "bucket_name" in
  let* key := get_global key_var in
  let* file := get_global file_var in
  call env "s3" "upload_file"
       [("Bucket", bucket_name); ("Key", key); ("Filename", file)] ;;;
  ret tt.

(** Lines 720-722. *)
Definition upload_cell : M W unit :=
  upload "users_filename" "raw_users_filename" ;;;
  upload "items_filename" "raw_items_filename" ;;;
  upload "interactions_filename" "raw_interactions_filename".

(** Lines 746-770. *)
Definition bucket_policy_cell : M W unit :=
  let* bucket_name := get_global "bucket_name" in
  let policy := s3_access_policy (py_str env bucket_name) in
  set_global "policy" policy ;;;
  call env "s3" "put_bucket_policy"
       [("Bucket", bucket_name);
        ("Policy", VStr (json_dumps env None policy))] ;;;
  ret tt.

(** The [except] block of the role cell. *)
Definition role_recover (role_name : value) (e : exn) : M W unit :=
  print ("Warning: role already exists: " ++ exn_str e) ;;;
  let* create_role_response :=
    call env "iam" "get_role" [("RoleName", role_name)] in
  set_global "create_role_response" create_role_response.

(** What follows the [try] statement in the role cell. *)
Definition role_attach (role_name : value) : M W unit :=
  let* create_role_response := get_global "create_role_response" in
  let* role := lift (getitem create_role_response "Role") in
  let* role_arn := lift (getitem role "Arn") in
  set_global "role_arn" role_arn ;;;
  print ("IAM Role: " ++ py_str env role_arn) ;;;
  let* attach_response :=
    call env "iam" "attach_role_policy"
         [("RoleName", role_name);
          ("PolicyArn", VStr "arn:aws:iam::aws:policy/AmazonS3ReadOnlyAccess")] in
  set_global "attach_response" attach_response ;;;
  let* create_role_response := get_global "create_role_response" in
  let* role := lift (getitem create_role_response "Role") in
  let* role_arn := lift (getitem role "Arn") in
  set_global "role_arn" role_arn ;;;
  time_sleep env 30 ;;;
  print "Done.".

(** The [try] statement of the role cell. *)
Definition role_create (role_name : value) : M W unit :=
  try_except
    (let* create_role_response :=
       call env "iam" "create_role"
            [("RoleName", role_name);
             ("AssumeRolePolicyDocument",
              VStr (json_dumps env None assume_role_policy_document))] in
     set_global "create_role_response" create_role_response)
    (is_client_error "EntityAlreadyExistsException")
    (role_recover role_name).

(** Lines 786-827. *)
Definition iam_role_cell : M W unit :=
  let* account_id := get_global "account_id" in
  let* role_name := lift (py_add account_id (VStr "-PersonalizeS3")) in
  set_global "role_name" role_name ;;;
  set_global "assume_role_policy_document" assume_role_policy_document ;;;
  role_create role_name ;;;
  role_attach role_name.

(** Lines 852-862, 878-888 and 904-914. *)
Definition create_import_job_cell (job_name dataset_var file_var
                                   response_var var : string) : M W unit :=
  let* dataset_arn := get_global dataset_var in
  let* bucket_name := get_global "bucket_name" in
  let* file := get_global file_var in
  let* role_arn := get_global "role_arn" in
  let* response :=
    create_resource "create_dataset_import_job"
      [("jobName", VStr job_name); ("datasetArn", dataset_arn);
       ("dataSource",
        VDict [("dataLocation",
                VStr ("s3://" ++ py_str env bucket_name ++ "/"
                      ++ py_str env file))]);
       ("roleArn", role_arn)]
      response_var "datasetImportJobArn" var in
  print (json_dumps env (Some 2) response).

Definition create_interactions_import_job_cell : M W unit :=
  create_import_job_cell "immersion-day-retail-dataset-interactions-import"
    "interactions_dataset_arn" "interactions_filename"
    "interactions_create_dataset_import_job_response"
    "interactions_dataset_import_job_arn".

Definition create_items_import_job_cell : M W unit :=
  create_import_job_cell "immersion-day-retail-dataset-items-import"
    "items_dataset_arn" "items_filename"
    "items_create_dataset_import_job_response"
    "items_dataset_import_job_arn".

Definition create_users_import_job_cell : M W unit :=
  create_import_job_cell "immersion-day-retail-dataset-users-import"
    "users_dataset_arn" "users_filename"
    "users_create_dataset_import_job_response"
    "users_dataset_import_job_arn".

(** A multi-resource wait as a cell: the list is built from three
    variables, and the variable that names the list holds what the loop
    leaves of it. *)
Definition poll_cell (k : poll_kind) (list_var v1 v2 v3 : string)
                     (fuel : nat) : M W unit :=
  let* a1 := get_global v1 in
  let* a2 := get_global v2 in
  let* a3 := get_global v3 in
  let* left := poll_many env k fuel [a1; a2; a3] in
  set_global list_var (VList left).

(** Lines 943-967. *)
Definition wait_import_jobs_cell (fuel : nat) : M W unit :=
  poll_cell import_jobs "import_job_arns"
    "items_dataset_import_job_arn" "users_dataset_import_job_arn"
    "interactions_dataset_import_job_arn" fuel.

(** The code cells of the notebook from the schemas on, in order.  The
    cells before them only load and chart local files. *)
Definition data_layer (fuel : nat) : M W unit :=
  setup_cell ;;;
  interactions_schema_cell ;;;
  items_schema_cell ;;;
  users_schema_cell ;;;
  create_dataset_group_cell ;;;
  wait_dataset_group_cell fuel ;;;
  create_interactions_dataset_cell ;;;
  create_items_dataset_cell ;;;
  create_users_dataset_cell ;;;
  region_cell ;;;
  bucket_cell ;;;
  upload_cell ;;;
  bucket_policy_cell ;;;
  iam_role_cell ;;;
  create_interactions_import_job_cell ;;;
  create_items_import_job_cell ;;;
  create_users_import_job_cell ;;;
  wait_import_jobs_cell fuel.
End DataLayer.

(** ** The cells of [02_Training_Layer.ipynb] *)

Section TrainingLayer.
Context {W : Type} (env : Env W).

(** Lines 112-113, 140, 160 and 180. *)
Definition recipes_cell : M W unit :=
  let* list_recipes_response := call env "personalize" "list_recipes" [] in
  set_global "list_recipes_response" list_recipes_response ;;;
  set_global "related_recipe_arn"
    (VStr "arn:aws:personalize:::recipe/aws-sims") ;;;
  set_global "recommend_recipe_arn"
    (VStr "arn:aws:personalize:::recipe/aws-user-personalization") ;;;
  set_global "ranking_recipe_arn"
    (VStr "arn:aws:personalize:::recipe/aws-personalized-ranking").

(** Lines 219-226, 271-278 and 314-321. *)
Definition create_solution_cell (solution_name recipe_var var : string)
  : M W unit :=
  let* dataset_group_arn := get_global "dataset_group_arn" in
  let* recipe_arn := get_global recipe_var in
  let* response :=
    create_resource env "create_solution"
      [("name", VStr solution_name);
       ("datasetGroupArn", dataset_group_arn); ("recipeArn", recipe_arn)]
      "create_solution_response" "solutionArn" var in
  print (json_dumps env (Some 2) response).

(** Lines 242-247, 287-292 and 337-342. *)
Definition create_solution_version_cell (solution_var var : string)
  : M W unit :=
  let* solution_arn := get_global solution_var in
  let* response :=
    create_resource env "create_solution_version"
      [("solutionArn", solution_arn)]
      "create_solution_version_response" "solutionVersionArn" var in
  print (json_dumps env (Some 2) response).

(** Lines 371-395. *)
Definition wait_solution_versions_cell (fuel : nat) : M W unit :=
  poll_cell env solution_versions "soln_ver_arns"
    "related_solution_version_arn" "recommend_solution_version_arn"
    "ranking_solution_version_arn" fuel.

(** Lines 498-502, 518-522 and 538-542. *)
Definition metrics_cell (version_var : string) : M W unit :=
  let* version_arn := get_global version_var in
  let* get_solution_metrics_response :=
    call env "personalize" "get_solution_metrics"
         [("solutionVersionArn", version_arn)] in
  set_global "get_solution_metrics_response" get_solution_metrics_response ;;;
  print (json_dumps env (Some 2) get_solution_metrics_response).

(** Lines 590-597, 613-620 and 636-643. *)
Definition create_campaign_cell (campaign_name version_var var : string)
  : M W unit :=
  let* version_arn := get_global version_var in
  let* response :=
    create_resource env "create_campaign"
      [("name", VStr campaign_name); ("solutionVersionArn", version_arn);
       ("minProvisionedTPS", VInt 1)]
      "create_campaign_response" "campaignArn" var in
  print (json_dumps env (Some 2) response).

(** Lines 665-689. *)
Definition wait_campaigns_cell (fuel : nat) : M W unit :=
  poll_cell env campaigns "campaign_arns"
    "related_campaign_arn" "recommend_campaign_arn" "ranking_campaign_arn"
    fuel.

(** Lines 709-716. *)
Definition create_filter_cell : M W unit :=
  let* dataset_group_arn := get_global "dataset_group_arn" in
  let* _ :=
    create_resource env "create_filter"
      [("name", VStr "immersion-day-filter-purchased-products");
       ("datasetGroupArn", dataset_group_arn);
       ("filterExpression",
        VStr ("EXCLUDE itemId WHERE INTERACTIONS.event_type in ("
              ++ quote ++ "OrderCompleted" ++ quote ++ ")"))]
      "response" "filterArn" "filter_arn" in
  let* filter_arn := get_global "filter_arn" in
  print ("Filter ARN: " ++ py_str env filter_arn).

(** Lines 734-746. *)
Definition wait_filter_cell (fuel : nat) : M W unit :=
  wait_one env filter_wait fuel.

Definition create_related_solution_cell : M W unit :=
  create_solution_cell "amazon-personalize-immersionday-related-products"
    "related_recipe_arn" "related_solution_arn".

Definition create_related_solution_version_cell : M W unit :=
  create_solution_version_cell "related_solution_arn"
    "related_solution_version_arn".

Definition create_recommend_solution_cell : M W unit :=
  create_solution_cell
    "amazon-personalize-immersionday-product-personalization"
    "recommend_recipe_arn" "recommend_solution_arn".

Definition create_recommend_solution_version_cell : M W unit :=
  create_solution_version_cell "recommend_solution_arn"
    "recommend_solution_version_arn".

Definition create_ranking_solution_cell : M W unit :=
  create_solution_cell "amazon-personalize-immersionday-personalized-ranking"
    "ranking_recipe_arn" "ranking_solution_arn".

Definition create_ranking_solution_version_cell : M W unit :=
  create_solution_version_cell "ranking_solution_arn"
    "ranking_solution_version_arn".

Definition create_related_campaign_cell : M W unit :=
  create_campaign_cell "amazon-personalize-immersionday-related-products"
    "related_solution_version_arn" "related_campaign_arn".

Definition create_recommend_campaign_cell : M W unit :=
  create_campaign_cell
    "amazon-personalize-immersionday-product-personalization"
    "recommend_solution_version_arn" "recommend_campaign_arn".

Definition create_ranking_campaign_cell : M W unit :=
  create_campaign_cell "amazon-personalize-immersionday-personalized-ranking"
    "ranking_solution_version_arn" "ranking_campaign_arn".

(** The code cells of the notebook, in order, after [%store -r] has
    restored the variables of the data layer. *)
Definition training_layer (fuel : nat) : M W unit :=
  recipes_cell ;;;
  create_related_solution_cell ;;;
  create_related_solution_version_cell ;;;
  create_recommend_solution_cell ;;;
  create_recommend_solution_version_cell ;;;
  create_ranking_solution_cell ;;;
  create_ranking_solution_version_cell ;;;
  wait_solution_versions_cell fuel ;;;
  metrics_cell "related_solution_version_arn" ;;;
  metrics_cell "recommend_solution_version_arn" ;;;
  metrics_cell "ranking_solution_version_arn" ;;;
  create_related_campaign_cell ;;;
  create_recommend_campaign_cell ;;;
  create_ranking_campaign_cell ;;;
  wait_campaigns_cell fuel ;;;
  create_filter_cell ;;;
  wait_filter_cell fuel.
End TrainingLayer.

(** ** A scripted world

    A deterministic stand-in for the clock and the remote services, used to
    run the cells on concrete inputs: a client call is answered by a handler
    that sees the calls made so far, and takes [latency] seconds; sleeping
    takes exactly the time asked for. *)
Module Scripted.
Record world : Type := mkWorld { now : Z; history : list Call }.

Definition env (handler : list Call → Call → value + exn) (latency : Z)
  : Env world :=
  {| clock w := now w;
     sleep_for secs w := mkWorld (now w + secs) (history w);
     client_call c w :=
       (handler (history w) c, mkWorld (now w + latency) (history w ++ [c]));
     read_json path w :=
       (handler (history w) (mkCall "file" "json.load" [("path", VStr path)]),
        w);
     json_dumps _ _ := "<json>";
     py_repr _ := "<object>" |}.

Definition same_call (c c' : Call) : bool :=
  String.eqb (client c) (client c') && String.eqb (op c) (op c')
  && py_eq (VDict (kwargs c)) (VDict (kwargs c')).

(** How often [c] was made before. *)
Definition polls (h : list Call) (c : Call) : nat :=
  length (filter (fun c' => same_call c c' = true) h).

(** A status reader per identifier: the response of the [n]-th describe
    call on it, counting from 0. *)
Definition reader : Type := value → nat → value + exn.

Definition describe_handler (r : reader) (h : list Call) (c : Call)
  : value + exn :=
  match kwargs c with
  | [(_, arn)] => r arn (polls h c)
  | _ => inr (ClientError "ParamValidationError" "Parameter validation failed")
  end.

Definition start (t : Z) : State world := mkState (mkWorld t []) ∅ [].
End Scripted.

(** The lines printed in a run, oldest first. *)
Definition stdout (t : list event) : list string :=
  omap (fun e => match e with EPrint l => Some l | _ => None end) t.

(** The identifiers described in a run, oldest first. *)
Definition described (k : poll_kind) (t : list event) : list value :=
  omap (fun e => match e with
                 | ECall (mkCall _ o [(_, arn)]) _ =>
                     if String.eqb o (describe_op k) then Some arn else None
                 | _ => None
                 end) t.


(** ** A sample service

    A handler for the scripted world that answers the way the services are
    documented to: a creation call returns an ARN made from the resource's
    name, a second creation under a name already taken raises the client's
    already-exists error, listings and lookups return what was created, and
    describe calls are answered by a status reader. *)
Module Aws.
Definition str_of (v : option value) : string :=
  match v with
  | Some (VStr s) => s
  | _ => ""
  end.

Definition made_before (h : list Call) (o n_key n : string) : bool :=
  existsb (fun c => String.eqb (op c) o
                    && String.eqb (str_of (assoc n_key (kwargs c))) n) h.

Definition create (h : list Call) (c : Call) (n_key arn_key kind : string)
  : value + exn :=
  let n := str_of (assoc n_key (kwargs c)) in
  if made_before h (op c) n_key n
  then inr (ClientError "ResourceAlreadyExistsException"
                        ("Another resource with name " ++ n ++ " already exists"))
  else inl (VDict [(arn_key, VStr ("arn:aws:personalize:::" ++ kind ++ "/" ++ n))]).

(** The schemas created so far, in order of creation. *)
Fixpoint schemas (h : list Call) (seen : list string) : list value :=
  match h with
  | [] => []
  | c :: rest =>
      let n := str_of (assoc "name" (kwargs c)) in
      if String.eqb (op c) "create_schema"
         && negb (existsb (String.eqb n) seen)
      then VDict [("name", VStr n);
                  ("schemaArn", VStr ("arn:aws:personalize:::schema/" ++ n))]
           :: schemas rest (n :: seen)
      else schemas rest seen
  end.

Definition role (c : Call) : value :=
  VDict [("Role", VDict
    [("RoleName", VStr (str_of (assoc "RoleName" (kwargs c))));
     ("Arn", VStr ("arn:aws:iam::123456789012:role/"
                   ++ str_of (assoc "RoleName" (kwargs c))))])].

Definition handler (r : Scripted.reader) (h : list Call) (c : Call)
  : value + exn :=
  let o := op c in
  if String.eqb o "create_schema" then create h c "name" "schemaArn" "schema"
  else if String.eqb o "list_schemas" then
    inl (VDict [("schemas", VList (take 100 (schemas h [])))])
  else if String.eqb o "create_dataset_group" then
    create h c "name" "datasetGroupArn" "dataset-group"
  else if String.eqb o "create_dataset" then
    create h c "name" "datasetArn" "dataset"
  else if String.eqb o "create_dataset_import_job" then
    create h c "jobName" "datasetImportJobArn" "dataset-import-job"
  else if String.eqb o "create_solution" then
    create h c "name" "solutionArn" "solution"
  else if String.eqb o "create_solution_version" then
    inl (VDict [("solutionVersionArn",
                 VStr (str_of (assoc "solutionArn" (kwargs c)) ++ "/v1"))])
  else if String.eqb o "create_campaign" then
    create h c "name" "campaignArn" "campaign"
  else if String.eqb o "create_filter" then
    create h c "name" "filterArn" "filter"
  else if String.eqb o "create_role" then
    if made_before h "create_role" "RoleName"
                   (str_of (assoc "RoleName" (kwargs c)))
    then inr (ClientError "EntityAlreadyExistsException"
                          "Role with this name already exists")
    else inl (role c)
  else if String.eqb o "get_role" then inl (role c)
  else if String.eqb o "get_caller_identity" then
    inl (VDict [("Account", VStr "123456789012")])
  else if String.eqb o "json.load" then
    inl (VDict [("ResourceArn",
                 VStr "arn:aws:sagemaker:us-west-2:123456789012:notebook-instance/retail")])
  else if String.prefix "describe_" o then Scripted.describe_handler r h c
  else inl (VDict []).

Definition env (r : Scripted.reader) (latency : Z) : Env Scripted.world :=
  Scripted.env (handler r) latency.
End Aws.

Module Scenario.
Definition A := VStr "arn:A".
Definition B := VStr "arn:B".
Definition C := VStr "arn:C".

(** Describe responses, with the resource record under [key]. *)
Definition with_status (key status : string) : value :=
  VDict [(key, VDict [("status", VStr status)])].

(** A failed resource as the service reports it: the reason is a field of
    the resource record. *)
Definition failed (key reason : string) : value :=
  VDict [(key, VDict [("status", VStr "CREATE FAILED");
                      ("failureReason", VStr reason)])].

Definition three_jobs : Scripted.reader := fun arn _ =>
  if py_eq arn C then inl (failed "datasetImportJob" "schema mismatch")
  else inl (with_status "datasetImportJob" "ACTIVE").

(** Every resource of every kind is active at its first poll. *)
Definition all_active : Scripted.reader := fun _ _ =>
  inl (VDict [("datasetGroup", VDict [("status", VStr "ACTIVE")]);
              ("datasetImportJob", VDict [("status", VStr "ACTIVE")]);
              ("solutionVersion", VDict [("status", VStr "ACTIVE")]);
              ("campaign", VDict [("status", VStr "ACTIVE")]);
              ("filter", VDict [("status", VStr "ACTIVE")])]).

(** No resource of any kind ever leaves CREATE IN_PROGRESS. *)
Definition all_pending : Scripted.reader := fun _ _ =>
  inl (VDict [("datasetGroup", VDict [("status", VStr "CREATE IN_PROGRESS")]);
              ("datasetImportJob", VDict [("status", VStr "CREATE IN_PROGRESS")]);
              ("solutionVersion", VDict [("status", VStr "CREATE IN_PROGRESS")]);
              ("campaign", VDict [("status", VStr "CREATE IN_PROGRESS")]);
              ("filter", VDict [("status", VStr "CREATE IN_PROGRESS")])]).

(** A job that becomes active only at its 181st poll. *)
Definition late : Scripted.reader := fun _ n =>
  if (n <? 180)%nat then inl (with_status "datasetImportJob" "CREATE IN_PROGRESS")
  else inl (with_status "datasetImportJob" "ACTIVE").
End Scenario.

Definition calls (t : list event) : list Call :=
  omap (fun e => match e with ECall c _ => Some c | _ => None end) t.


(** ** Immutable iteration, for comparison

    What a round of a multi-resource wait would be if it went over a fixed
    list: [classify] is the body of the loop without the removal, [sweep]
    visits a list of identifiers in order and returns those that stay
    pending, in the order visited. *)
Section Sweep.
Context {W : Type} (env : Env W).

Definition classify (k : poll_kind) (arn : value) : M W bool :=
  let* response := describe env k arn in
  let* record := lift (getitem response (record_key k)) in
  let* status := lift (getitem record "status") in
  if py_eq status (VStr "ACTIVE") then
    print (noun k ++ " " ++ py_str env arn ++ " successfully completed") ;;;
    ret true
  else if py_eq status (VStr "CREATE FAILED") then
    print (noun k ++ " " ++ py_str env arn ++ " failed") ;;;
    (let* reason := lift (dict_get response "failureReason") in
     if truthy reason then
       let* reason' := lift (getitem response "failureReason") in
       let* line := lift (str_add "   Reason: " reason') in
       print (py_str env line)
     else ret tt) ;;;
    ret true
  else ret false.

Fixpoint sweep (k : poll_kind) (todo : list string) : M W (list string) :=
  match todo with
  | [] => ret []
  | x :: rest =>
      let* terminal := classify k (VStr x) in
      (if terminal then emit (ERemove (VStr x)) else ret tt) ;;;
      let* kept := sweep k rest in
      ret (if terminal then kept else x :: kept)
  end.
End Sweep.

(** ** Basic facts *)

Local Open Scope list_scope.

Lemma py_eq_str (a b : string) : py_eq (VStr a) (VStr b) = String.eqb a b.
Proof. reflexivity. Qed.

Lemma py_eq_str_true (a b : string) : py_eq (VStr a) (VStr b) = true ↔ a = b.
Proof. rewrite py_eq_str. apply String.eqb_eq. Qed.

Lemma py_eq_is_str (v : value) (s : string) :
  py_eq v (VStr s) = true ↔ v = VStr s.
Proof.
  destruct v; simpl; try (split; [discriminate | congruence]).
  rewrite String.eqb_eq. split; congruence.
Qed.

Lemma list_remove_at (pre suf : list string) (x : string) :
  x ∉ pre →
  list_remove (VStr x) (VStr <$> (pre ++ x :: suf)) = Some (VStr <$> (pre ++ suf)).
Proof.
  induction pre as [|y pre IH]; intros Hx; csimpl.
  - by rewrite String.eqb_refl.
  - apply not_elem_of_cons in Hx as [Hxy Hpre].
    destruct (String.eqb y x) eqn:E.
    + apply String.eqb_eq in E. congruence.
    + by rewrite IH.
Qed.

Lemma lookup_at (pre suf : list string) (x : string) :
  (VStr <$> (pre ++ x :: suf)) !! length pre = Some (VStr x).
Proof.
  rewrite list_lookup_fmap, lookup_app_r by lia.
  by rewrite Nat.sub_diag.
Qed.

Section RoundFacts.
Context {W : Type} (env : Env W).

(** The body of the loop is the classification followed by the removal. *)
Lemma poll_body_classify k arn arns s :
  poll_body env k arn arns s =
  (let* terminal := classify env k arn in
   if terminal then remove arn arns else ret arns) s.
Proof.
  unfold poll_body, classify, bind.
  destruct (describe env k arn s) as [[response| |] s1]; try done.
  destruct (lift (getitem response (record_key k)) s1) as [[record| |] s2];
    try done.
  destruct (lift (getitem record "status") s2) as [[status| |] s3]; try done.
  destruct (py_eq status (VStr "ACTIVE")); [done|].
  destruct (py_eq status (VStr "CREATE FAILED")); [|done].
  cbn [print emit].
  destruct (lift (dict_get response "failureReason") _)
    as [[reason| |] s5]; try done.
  destruct (truthy reason); [|done].
  destruct (lift (getitem response "failureReason") s5)
    as [[reason'| |] s6]; try done.
  destruct (lift (str_add "   Reason: " reason') s6) as [[line| |] s7];
    done.
Qed.

(** Mutating the list under a reverse iterator agrees with immutable
    iteration as long as the part still to be visited has no duplicate:
    the first occurrence of the current identifier is then the current
    position, and removing it leaves the lower positions alone. *)
Lemma for_reversed_sweep k (pre suf : list string) s :
  NoDup pre →
  for_reversed env k (length pre) (VStr <$> (pre ++ suf)) s =
  (let* kept := sweep env k (reverse pre) in
   ret (VStr <$> (reverse kept ++ suf))) s.
Proof.
  revert suf s. induction pre as [|x pre IH] using rev_ind; intros suf s Hnd.
  { reflexivity. }
  apply NoDup_app in Hnd as (Hpre & Hx & _).
  rewrite length_app, Nat.add_comm. simpl.
  rewrite <- (assoc_L (++)). simpl.
  rewrite lookup_at, reverse_snoc. simpl.
  unfold bind at 1. rewrite poll_body_classify.
  unfold bind. destruct (classify env k (VStr x) s) as [[[|]| |] s1];
    try done.
  - unfold remove. rewrite list_remove_at by set_solver.
    unfold bind, emit, ret. rewrite IH by done. unfold bind.
    destruct (sweep env k (reverse pre) _) as [[kept| |] s2]; done.
  - unfold ret at 1 2. rewrite (IH (x :: suf)) by done. unfold bind.
    destruct (sweep env k (reverse pre) s1) as [[kept| |] s2]; try done.
    unfold ret. by rewrite reverse_cons, <- (assoc_L (++)).
Qed.

Lemma for_reversed_whole k (L : list string) s :
  NoDup L →
  for_reversed env k (length L) (VStr <$> L) s =
  (let* kept := sweep env k (reverse L) in ret (VStr <$> reverse kept)) s.
Proof.
  intros Hnd. pose proof (for_reversed_sweep k L [] s Hnd) as H.
  rewrite app_nil_r in H. rewrite H. unfold bind.
  destruct (sweep env k (reverse L) s) as [[kept| |] s1]; try done.
  by rewrite app_nil_r.
Qed.
End RoundFacts.

(** ** What a run of a wait looks like *)

Definition describe_call (k : poll_kind) (arn : value) : Call :=
  mkCall "personalize" (describe_op k) [(arn_param k, arn)].

(** [response[record_key]['status']] *)
Definition status_of (k : poll_kind) (response : value) : value + exn :=
  match getitem response (record_key k) with
  | inl record => getitem record "status"
  | inr e => inr e
  end.

Definition success_line (k : poll_kind) (x : string) : string :=
  (noun k ++ " " ++ x ++ " successfully completed")%string.

Definition failed_line (k : poll_kind) (x : string) : string :=
  (noun k ++ " " ++ x ++ " failed")%string.

Definition reason_line (r : string) : string := ("   Reason: " ++ r)%string.

(** The classification of a describe response, as a function of the
    response alone: whether the identifier is terminal (or the exception
    raised on the way), and the lines printed. *)
Definition outcome (k : poll_kind) (x : string) (response : value)
  : (bool + exn) * list event :=
  match status_of k response with
  | inr e => (inr e, [])
  | inl status =>
      if py_eq status (VStr "ACTIVE") then
        (inl true, [EPrint (success_line k x)])
      else if py_eq status (VStr "CREATE FAILED") then
        match dict_get response "failureReason" with
        | inr e => (inr e, [EPrint (failed_line k x)])
        | inl reason =>
            if truthy reason then
              match reason with
              | VStr r => (inl true, [EPrint (failed_line k x);
                                      EPrint (reason_line r)])
              | _ => (inr TypeError, [EPrint (failed_line k x)])
              end
            else (inl true, [EPrint (failed_line k x)])
        end
      else (inl false, [])
  end.

Definition is_remove (x : string) (e : event) : bool :=
  match e with
  | ERemove (VStr y) => String.eqb x y
  | _ => false
  end.

(** How often [x] is removed from the list in a run. *)
Fixpoint removals (x : string) (t : list event) : nat :=
  match t with
  | [] => 0
  | e :: rest => ((if is_remove x e then 1 else 0) + removals x rest)%nat
  end.

Definition failed_response (k : poll_kind) (response : value) : Prop :=
  status_of k response = inl (VStr "CREATE FAILED").

Definition terminal_status (status : value) : bool :=
  py_eq status (VStr "ACTIVE") || py_eq status (VStr "CREATE FAILED").

(** [x] is neither described nor removed in [t]. *)
Definition quiet (k : poll_kind) (x : string) (t : list event) : Prop :=
  (VStr x ∉ described k t) ∧ removals x t = 0%nat.

(** Every describe call in [t] that was answered CREATE FAILED is followed
    at once by the failure line of its identifier, the identifier is not
    described after it, and it is removed once in [t]. *)
Definition settled (k : poll_kind) (t : list event) : Prop :=
  ∀ t1 x response t2,
    t = t1 ++ ECall (describe_call k (VStr x)) (inl response) :: t2 →
    failed_response k response →
    (∃ t2', t2 = EPrint (failed_line k x) :: t2')
    ∧ (VStr x ∉ described k t2)
    ∧ removals x t = 1%nat.

(** Every line printed in [t] is one of the two messages of the loop or an
    outcome line of an identifier that is removed in [t]. *)
Definition lines_about_removed (k : poll_kind) (t : list event) : Prop :=
  ∀ line, EPrint line ∈ t →
    line = progress_msg k ∨ line = done_msg k
    ∨ ∃ y, (1 ≤ removals y t)%nat
           ∧ (line = success_line k y ∨ line = failed_line k y
              ∨ ∃ r, line = reason_line r).

(** A stretch [t] of a run that starts with the pending identifiers [L] and
    ends with [L']. *)
Record phase (k : poll_kind) (L : list string) (t : list event)
             (L' : list string) : Prop := mkPhase {
  phase_quiet : ∀ x, x ∉ L → quiet k x t;
  phase_sub : L' ⊆ L;
  phase_kept : ∀ x, x ∈ L' → removals x t = 0%nat;
  phase_gone : ∀ x, x ∈ L → x ∉ L' → removals x t = 1%nat;
  phase_settled : settled k t;
  phase_failed : ∀ t1 x response t2,
    t = t1 ++ ECall (describe_call k (VStr x)) (inl response) :: t2 →
    failed_response k response → x ∉ L';
  phase_lines : lines_about_removed k t;
  phase_reported : ∀ x, (1 ≤ removals x t)%nat →
    EPrint (success_line k x) ∈ t ∨ EPrint (failed_line k x) ∈ t
}.

(** ** Facts about traces *)

Lemma described_app k t1 t2 :
  described k (t1 ++ t2) = described k t1 ++ described k t2.
Proof. apply omap_app. Qed.

Lemma stdout_app t1 t2 : stdout (t1 ++ t2) = stdout t1 ++ stdout t2.
Proof. apply omap_app. Qed.

Lemma removals_app x t1 t2 :
  removals x (t1 ++ t2) = (removals x t1 + removals x t2)%nat.
Proof. induction t1 as [|e t1 IH]; simpl; [done | rewrite IH; lia]. Qed.

Lemma described_call k (x : string) r :
  described k [ECall (describe_call k (VStr x)) r] = [VStr x].
Proof.
  unfold described, describe_call. simpl. by rewrite String.eqb_refl.
Qed.

(** Events that are neither calls nor removals. *)
Definition silent (e : event) : Prop :=
  match e with
  | ECall _ _ | ERemove _ => False
  | _ => True
  end.

Lemma described_silent k t : Forall silent t → described k t = [].
Proof.
  induction 1 as [|e t He _ IH]; [done|].
  destruct e; try done; simpl in *; by rewrite ?IH.
Qed.

Lemma removals_silent x t : Forall silent t → removals x t = 0%nat.
Proof.
  induction 1 as [|e t He _ IH]; [done|].
  destruct e; try done; simpl in *; by rewrite ?IH.
Qed.

Lemma call_not_silent t t1 c r t2 :
  Forall silent t → t ≠ t1 ++ ECall c r :: t2.
Proof.
  intros Hs ->. apply Forall_app in Hs as [_ Hs].
  by apply Forall_cons in Hs as [? _].
Qed.

(** Where an event of a concatenation lies. *)
Lemma app_split {A} (t1 t2 ta tb : list A) (e : A) :
  t1 ++ e :: t2 = ta ++ tb →
  (∃ t2a, ta = t1 ++ e :: t2a ∧ t2 = t2a ++ tb)
  ∨ (∃ t1b, tb = t1b ++ e :: t2 ∧ t1 = ta ++ t1b).
Proof.
  revert ta. induction t1 as [|a t1 IH]; intros [|b ta] H; simpl in *.
  - right. by exists [].
  - simplify_eq. left. by exists ta.
  - right. exists (a :: t1). by rewrite <- H.
  - simplify_eq. destruct (IH ta) as [(t2a & -> & ->)|(t1b & -> & ->)]; [done| |].
    + left. by exists t2a.
    + right. by exists t1b.
Qed.

Lemma outcome_silent k x response b evs :
  outcome k x response = (b, evs) → Forall silent evs.
Proof.
  unfold outcome. intros H.
  repeat case_match; simplify_eq; repeat constructor.
Qed.

Section ClassifyFacts.
Context {W : Type} (env : Env W).

(** The classification runs the describe call and prints what [outcome]
    says. *)
Lemma classify_outcome k (x : string) s :
  classify env k (VStr x) s =
  let c := describe_call k (VStr x) in
  let '(r, w') := client_call env c (world s) in
  match r with
  | inr e => (Raise e, mkState w' (globals s) (trace s ++ [ECall c r]))
  | inl response =>
      let '(b, evs) := outcome k x response in
      (match b with inl b => Ok b | inr e => Raise e end,
       mkState w' (globals s) (trace s ++ ECall c r :: evs))
  end.
Proof.
  unfold classify, describe, call, bind, describe_call, outcome, status_of.
  cbn zeta.
  destruct (client_call env _ (world s)) as [[response|e] w']; [|done].
  destruct (getitem response (record_key k)) as [record|e]; [|done].
  cbn [lift ret raise].
  destruct (getitem record "status") as [status|e]; [|done].
  cbn [lift ret raise].
  destruct (py_eq status (VStr "ACTIVE")).
  { cbn. by rewrite <- (assoc_L (++)). }
  destruct (py_eq status (VStr "CREATE FAILED")); [|done].
  cbn [print emit world globals trace].
  destruct (dict_get response "failureReason") as [reason|e] eqn:Hget;
    cbn [lift ret raise]; [|by rewrite <- (assoc_L (++))].
  destruct (truthy reason) eqn:Ht; [|by rewrite <- (assoc_L (++))].
  assert (getitem response "failureReason" = inl reason) as ->.
  { unfold dict_get, getitem in *. destruct response; try done.
    destruct (assoc _ _); by simplify_eq. }
  cbn [lift ret raise].
  destruct reason; cbn; rewrite <- ?(assoc_L (++)); done.
Qed.
End ClassifyFacts.

(** ** Composing phases *)

Lemma removals_le_app_l x ta tb : (removals x ta ≤ removals x (ta ++ tb))%nat.
Proof. rewrite removals_app. lia. Qed.

Lemma removals_le_app_r x ta tb : (removals x tb ≤ removals x (ta ++ tb))%nat.
Proof. rewrite removals_app. lia. Qed.

Lemma lines_app k ta tb :
  lines_about_removed k ta → lines_about_removed k tb →
  lines_about_removed k (ta ++ tb).
Proof.
  intros Ha Hb line [Hin|Hin]%elem_of_app.
  - destruct (Ha _ Hin) as [?|[?|(y & Hy & Hl)]]; [by left | by right; left |].
    right; right. exists y. split; [|done].
    pose proof (removals_le_app_l y ta tb). lia.
  - destruct (Hb _ Hin) as [?|[?|(y & Hy & Hl)]]; [by left | by right; left |].
    right; right. exists y. split; [|done].
    pose proof (removals_le_app_r y ta tb). lia.
Qed.

Lemma phase_described k L t L' x :
  phase k L t L' → VStr x ∈ described k t → x ∈ L.
Proof.
  intros H Hin. destruct (decide (x ∈ L)) as [|Hn]; [done|].
  by destruct (phase_quiet _ _ _ _ H x Hn).
Qed.

Lemma described_split k t1 (x : string) r t2 :
  VStr x ∈ described k (t1 ++ ECall (describe_call k (VStr x)) r :: t2).
Proof.
  rewrite described_app.
  change (?e :: t2) with ([e] ++ t2).
  rewrite described_app, described_call. set_solver.
Qed.

Lemma phase_compose k L ta L1 tb L2 :
  phase k L ta L1 → phase k L1 tb L2 → phase k L (ta ++ tb) L2.
Proof.
  intros Ha Hb. split.
  - intros x Hx.
    destruct (phase_quiet _ _ _ _ Ha x Hx) as [Hd Hr].
    assert (x ∉ L1) as Hx1 by (intros ?; by apply Hx, (phase_sub _ _ _ _ Ha)).
    destruct (phase_quiet _ _ _ _ Hb x Hx1) as [Hd' Hr'].
    split; [rewrite described_app; set_solver | rewrite removals_app; lia].
  - etrans; [apply (phase_sub _ _ _ _ Hb) | apply (phase_sub _ _ _ _ Ha)].
  - intros x Hx. rewrite removals_app.
    rewrite (phase_kept _ _ _ _ Hb x Hx).
    by rewrite (phase_kept _ _ _ _ Ha x (phase_sub _ _ _ _ Hb x Hx)).
  - intros x Hx Hx2. rewrite removals_app.
    destruct (decide (x ∈ L1)) as [Hx1|Hx1].
    + rewrite (phase_kept _ _ _ _ Ha x Hx1).
      by rewrite (phase_gone _ _ _ _ Hb x Hx1 Hx2).
    + rewrite (phase_gone _ _ _ _ Ha x Hx Hx1).
      by destruct (phase_quiet _ _ _ _ Hb x Hx1) as [_ ->].
  - intros t1 x response t2 Ht Hf.
    symmetry in Ht.
    apply app_split in Ht as [(t2a & -> & ->)|(t1b & -> & ->)].
    + destruct (phase_settled _ _ _ _ Ha _ _ _ _ eq_refl Hf)
        as ((t2' & ->) & Hd & Hr).
      pose proof (phase_failed _ _ _ _ Ha _ _ _ _ eq_refl Hf) as Hx1.
      destruct (phase_quiet _ _ _ _ Hb x Hx1) as [Hd' Hr'].
      split; [by eexists|]. split.
      * rewrite described_app. set_solver.
      * rewrite removals_app, Hr, Hr'. done.
    + destruct (phase_settled _ _ _ _ Hb _ _ _ _ eq_refl Hf)
        as (Hp & Hd & Hr).
      split; [done|]. split; [done|].
      rewrite removals_app, Hr.
      assert (x ∈ L1) as Hx1.
      { eapply phase_described; [exact Hb | apply described_split]. }
      by rewrite (phase_kept _ _ _ _ Ha x Hx1).
  - intros t1 x response t2 Ht Hf.
    symmetry in Ht.
    apply app_split in Ht as [(t2a & -> & ->)|(t1b & -> & ->)].
    + intros Hx2. apply (phase_sub _ _ _ _ Hb) in Hx2.
      by eapply (phase_failed _ _ _ _ Ha).
    + by eapply (phase_failed _ _ _ _ Hb).
  - apply lines_app; [apply (phase_lines _ _ _ _ Ha) | apply (phase_lines _ _ _ _ Hb)].
  - intros x. rewrite removals_app. intros Hx.
    destruct (decide (1 ≤ removals x ta)%nat) as [Hxa|Hxa].
    + destruct (phase_reported _ _ _ _ Ha x Hxa); set_solver.
    + destruct (phase_reported _ _ _ _ Hb x); [lia| |]; set_solver.
Qed.

(** An identifier that a phase does not touch can be added on both sides. *)
Lemma phase_frame k L t L' z :
  z ∉ L → phase k L t L' → phase k (z :: L) t (z :: L').
Proof.
  intros Hz H.
  destruct (phase_quiet _ _ _ _ H z Hz) as [Hzd Hzr].
  split.
  - intros x Hx. apply (phase_quiet _ _ _ _ H). set_solver.
  - pose proof (phase_sub _ _ _ _ H). set_solver.
  - intros x [->|Hx]%elem_of_cons; [done | by apply (phase_kept _ _ _ _ H)].
  - intros x Hx Hx'. apply not_elem_of_cons in Hx' as [Hne Hx'].
    apply elem_of_cons in Hx as [->|Hx]; [done|].
    by apply (phase_gone _ _ _ _ H).
  - apply (phase_settled _ _ _ _ H).
  - intros t1 x response t2 -> Hf [->|Hx]%elem_of_cons.
    + apply Hzd, described_split.
    + by eapply (phase_failed _ _ _ _ H).
  - apply (phase_lines _ _ _ _ H).
  - apply (phase_reported _ _ _ _ H).
Qed.

Lemma phase_proper k L1 L2 t L1' L2' :
  (∀ x, x ∈ L1 ↔ x ∈ L2) → (∀ x, x ∈ L1' ↔ x ∈ L2') →
  phase k L1 t L1' → phase k L2 t L2'.
Proof.
  intros HL HL' H. split.
  - intros x Hx. apply (phase_quiet _ _ _ _ H). by rewrite HL.
  - intros x Hx. apply HL, (phase_sub _ _ _ _ H), HL', Hx.
  - intros x Hx. apply (phase_kept _ _ _ _ H). by apply HL'.
  - intros x Hx Hx'.
    apply (phase_gone _ _ _ _ H); [by apply HL | by rewrite HL'].
  - apply (phase_settled _ _ _ _ H).
  - intros t1 x response t2 Ht Hf. rewrite <- HL'.
    by eapply (phase_failed _ _ _ _ H).
  - apply (phase_lines _ _ _ _ H).
  - apply (phase_reported _ _ _ _ H).
Qed.

(** The messages of the loop and its sleeps change nothing. *)
Definition message (k : poll_kind) (e : event) : Prop :=
  match e with
  | EPrint line => line = progress_msg k ∨ line = done_msg k
  | ESleep _ => True
  | _ => False
  end.

Lemma phase_messages k L t : Forall (message k) t → phase k L t L.
Proof.
  intros Ht.
  assert (Forall silent t) as Hs.
  { eapply Forall_impl; [exact Ht|]. by intros []. }
  split.
  - intros x _. split; [rewrite described_silent by done; set_solver|].
    by apply removals_silent.
  - done.
  - intros x _. by apply removals_silent.
  - done.
  - intros t1 x response t2 Heq. by destruct (call_not_silent _ _ _ _ _ Hs Heq).
  - intros t1 x response t2 Heq. by destruct (call_not_silent _ _ _ _ _ Hs Heq).
  - intros line Hin. rewrite Forall_forall in Ht. apply Ht in Hin.
    destruct Hin; [by left | by right; left].
  - intros x. rewrite removals_silent by done. lia.
Qed.

Lemma phase_nil k L : phase k L [] L.
Proof. by apply phase_messages. Qed.

(** ** One identifier, one round, the whole loop *)

Definition removal (b : bool) (x : string) : list event :=
  if b then [ERemove (VStr x)] else [].

(** What the visit of one identifier adds to the trace. *)
Definition visit (k : poll_kind) (x : string) (response : value)
                 (b : bool) (evs : list event) : list event :=
  (ECall (describe_call k (VStr x)) (inl response) :: evs) ++ removal b x.

Lemma removals_removal x y b :
  removals y (removal b x) = if b && String.eqb y x then 1%nat else 0%nat.
Proof. destruct b; simpl; [by destruct (String.eqb y x) | done]. Qed.

Lemma described_removal k x b : described k (removal b x) = [].
Proof. by destruct b. Qed.

Lemma describe_call_inj k (x y : string) :
  describe_call k (VStr x) = describe_call k (VStr y) → x = y.
Proof. unfold describe_call. congruence. Qed.

Lemma visit_split k x response b evs t1 y response' t2 :
  Forall silent evs →
  visit k x response b evs
  = t1 ++ ECall (describe_call k (VStr y)) (inl response') :: t2 →
  t1 = [] ∧ y = x ∧ response' = response ∧ t2 = evs ++ removal b x.
Proof.
  intros Hs. unfold visit. destruct t1 as [|e t1]; simpl.
  - intros H. injection H as Hc Hr Ht. by subst.
  - intros H. injection H as _ H.
    assert (ECall (describe_call k (VStr y)) (inl response')
            ∈ evs ++ removal b x) as Hin by (rewrite H; set_solver).
    apply elem_of_app in Hin as [Hin|Hin].
    + rewrite Forall_forall in Hs. by apply Hs in Hin.
    + destruct b; simpl in Hin; set_solver.
Qed.

Lemma outcome_failed k x response b evs :
  outcome k x response = (inl b, evs) → failed_response k response →
  b = true ∧ ∃ evs', evs = EPrint (failed_line k x) :: evs'.
Proof.
  unfold outcome, failed_response. intros H Hf. rewrite Hf in H. simpl in H.
  repeat case_match; simplify_eq; eauto.
Qed.

Lemma outcome_lines k x response b evs line :
  outcome k x response = (inl b, evs) → EPrint line ∈ evs →
  b = true ∧ (line = success_line k x ∨ line = failed_line k x
              ∨ ∃ r, line = reason_line r).
Proof.
  unfold outcome. intros H Hin.
  repeat case_match; simplify_eq; set_solver.
Qed.

Lemma outcome_terminal_line k x response evs :
  outcome k x response = (inl true, evs) →
  EPrint (success_line k x) ∈ evs ∨ EPrint (failed_line k x) ∈ evs.
Proof.
  unfold outcome. intros H.
  repeat case_match; simplify_eq; set_solver.
Qed.

Lemma phase_visit k x rest response b evs :
  outcome k x response = (inl b, evs) → x ∉ rest →
  phase k (x :: rest) (visit k x response b evs)
        (if b then rest else x :: rest).
Proof.
  intros Ho Hx. pose proof (outcome_silent _ _ _ _ _ Ho) as Hs.
  assert (∀ y, removals y (visit k x response b evs)
               = if b && String.eqb y x then 1%nat else 0%nat) as Hrem.
  { intros y. unfold visit. rewrite removals_app, removals_removal. simpl.
    by rewrite removals_silent. }
  assert (described k (visit k x response b evs) = [VStr x]) as Hdesc.
  { unfold visit. rewrite described_app, described_removal.
    change (?e :: evs) with ([e] ++ evs).
    by rewrite described_app, described_call, described_silent. }
  split.
  - intros y Hy. apply not_elem_of_cons in Hy as [Hne _]. split.
    + rewrite Hdesc. set_solver.
    + rewrite Hrem. apply String.eqb_neq in Hne. rewrite Hne.
      by rewrite andb_false_r.
  - destruct b; set_solver.
  - intros y Hy. rewrite Hrem. destruct b; [|done].
    assert (y ≠ x) as Hne%String.eqb_neq by set_solver. by rewrite Hne.
  - intros y Hy Hy'. rewrite Hrem. destruct b; [|done].
    assert (y = x) as -> by set_solver. by rewrite String.eqb_refl.
  - intros t1 y response' t2 Heq Hf.
    apply visit_split in Heq as (-> & -> & -> & ->); [|done].
    destruct (outcome_failed _ _ _ _ _ Ho Hf) as (-> & evs' & ->).
    split; [by eexists|]. split.
    + rewrite described_app, described_removal, described_silent by done.
      set_solver.
    + by rewrite Hrem, String.eqb_refl.
  - intros t1 y response' t2 Heq Hf.
    apply visit_split in Heq as (-> & -> & -> & ->); [|done].
    by destruct (outcome_failed _ _ _ _ _ Ho Hf) as (-> & _).
  - intros line Hin. right; right. exists x.
    unfold visit in Hin. rewrite elem_of_app, elem_of_cons in Hin.
    destruct Hin as [[?|Hin]|Hin]; [done| |destruct b; set_solver].
    destruct (outcome_lines _ _ _ _ _ _ Ho Hin) as [-> Hl].
    split; [|done]. by rewrite Hrem, String.eqb_refl.
  - intros y. rewrite Hrem. destruct b; [|simpl; lia].
    destruct (String.eqb y x) eqn:E; [|simpl; lia].
    apply String.eqb_eq in E as ->. intros _.
    destruct (outcome_terminal_line _ _ _ _ Ho); unfold visit; set_solver.
Qed.

Lemma described_visit k x response b evs :
  Forall silent evs → described k (visit k x response b evs) = [VStr x].
Proof.
  intros Hs. unfold visit. rewrite described_app, described_removal.
  change (?e :: evs) with ([e] ++ evs).
  by rewrite described_app, described_call, described_silent.
Qed.

Section LoopFacts.
Context {W : Type} (env : Env W).

(** One step of [sweep], read off the describe response. *)
Lemma sweep_cons k x rest s :
  sweep env k (x :: rest) s =
  let c := describe_call k (VStr x) in
  let '(r, w') := client_call env c (world s) in
  match r with
  | inr e => (Raise e, mkState w' (globals s) (trace s ++ [ECall c r]))
  | inl response =>
      match outcome k x response with
      | (inr e, evs) =>
          (Raise e, mkState w' (globals s) (trace s ++ ECall c r :: evs))
      | (inl b, evs) =>
          (let* kept := sweep env k rest in
           ret (if b then kept else x :: kept))
            (mkState w' (globals s) (trace s ++ visit k x response b evs))
      end
  end.
Proof.
  cbn [sweep]. unfold bind at 1. rewrite classify_outcome. cbn zeta.
  destruct (client_call env _ (world s)) as [[response|e] w']; [|done].
  destruct (outcome k x response) as [[b|e] evs]; [|done].
  unfold visit, removal, bind, emit, ret.
  destruct b; cbn [world globals trace].
  - by rewrite <- !(assoc_L (++)).
  - by rewrite app_nil_r.
Qed.

Lemma sweep_ok k todo s kept s' :
  NoDup todo → sweep env k todo s = (Ok kept, s') →
  ∃ t, trace s' = trace s ++ t ∧ globals s' = globals s
       ∧ phase k todo t kept ∧ described k t = VStr <$> todo
       ∧ sublist kept todo.
Proof.
  revert s kept s'. induction todo as [|x rest IH]; intros s kept s' Hnd.
  { intros [= <- <-]. exists []. rewrite app_nil_r.
    split_and!; try done. apply phase_nil. }
  apply NoDup_cons in Hnd as [Hx Hnd].
  rewrite sweep_cons. cbn zeta.
  destruct (client_call env _ (world s)) as [[response|e] w']; [|done].
  destruct (outcome k x response) as [[b|e] evs] eqn:Ho; [|done].
  unfold bind.
  destruct (sweep env k rest _) as [[kept'| |] s1] eqn:Hs; try done.
  intros [= <- <-].
  destruct (IH _ _ _ Hnd Hs) as (t & Ht & Hg & Hp & Hd & Hsub).
  cbn [trace globals] in Ht, Hg.
  exists (visit k x response b evs ++ t).
  split; [by rewrite Ht, (assoc_L (++))|]. split; [done|].
  pose proof (outcome_silent _ _ _ _ _ Ho) as Hsil.
  split_and!.
  - eapply phase_compose; [by apply phase_visit|].
    destruct b; [done | by apply phase_frame].
  - by rewrite described_app, described_visit, Hd.
  - destruct b; [by apply sublist_cons | by apply sublist_skip].
Qed.

(** A round over a list of distinct identifiers. *)
Lemma for_reversed_ok k (L : list string) s arns' s' :
  NoDup L →
  for_reversed env k (length L) (VStr <$> L) s = (Ok arns', s') →
  ∃ t L', arns' = VStr <$> L' ∧ trace s' = trace s ++ t
          ∧ globals s' = globals s ∧ phase k L t L'
          ∧ described k t = VStr <$> reverse L ∧ NoDup L'.
Proof.
  intros Hnd. rewrite for_reversed_whole by done. unfold bind.
  destruct (sweep env k (reverse L) s) as [[kept| |] s1] eqn:Hs; try done.
  intros [= <- <-].
  apply sweep_ok in Hs as (t & Ht & Hg & Hp & Hd & Hsub);
    [|by rewrite reverse_Permutation].
  exists t, (reverse kept). split_and!; try done.
  - eapply phase_proper; [| |exact Hp]; intros x; by rewrite elem_of_reverse.
  - rewrite reverse_Permutation. eapply sublist_NoDup; [|exact Hsub].
    by rewrite reverse_Permutation.
Qed.
End LoopFacts.

(** ** Assumptions on the world *)

(** The clock never goes back, and sleeping takes at least the time asked
    for. *)
Record ticking {W : Type} (env : Env W) : Prop := mkTicking {
  sleep_advances : ∀ n w, clock env w + n ≤ clock env (sleep_for env n w);
  call_advances : ∀ c w, clock env w ≤ clock env (client_call env c w).2
}.

(** The service answers every describe call of kind [k] with a response
    that the loop can classify. *)
Definition answers {W : Type} (env : Env W) (k : poll_kind) : Prop :=
  ∀ (x : string) w, ∃ response w' b evs,
    client_call env (describe_call k (VStr x)) w = (inl response, w')
    ∧ outcome k x response = (inl b, evs).

(** The status reader of [x] never reports a terminal status. *)
Definition never_terminal {W : Type} (env : Env W) (k : poll_kind)
                          (x : string) : Prop :=
  ∀ w response w',
    client_call env (describe_call k (VStr x)) w = (inl response, w') →
    outcome k x response = (inl false, []).

Section LoopRuns.
Context {W : Type} (env : Env W).

Lemma poll_while_ok k fuel max (L : list string) s arns' s' :
  NoDup L →
  poll_while env k fuel max (VStr <$> L) s = (Ok arns', s') →
  ∃ t L', arns' = VStr <$> L' ∧ trace s' = trace s ++ t
          ∧ globals s' = globals s ∧ phase k L t L' ∧ NoDup L'
          ∧ (L' = [] ∨ max ≤ clock env (world s')).
Proof.
  revert L s arns' s'.
  induction fuel as [|fuel IH]; intros L s arns' s' Hnd; [done|].
  cbn [poll_while]. unfold bind at 1, time_time at 1.
  destruct (clock env (world s) <? max) eqn:Hnow.
  2:{ intros [= <- <-]. exists [], L. rewrite app_nil_r.
      split_and!; try done; [apply phase_nil | right; lia]. }
  unfold bind at 1. rewrite length_fmap.
  destruct (for_reversed env k (length L) (VStr <$> L) s)
    as [[arns1| |] s1] eqn:Hround; try done.
  apply for_reversed_ok in Hround as (t1 & L1 & -> & Ht1 & Hg1 & Hp1 & _ & Hnd1);
    [|done].
  rewrite length_fmap.
  destruct (0 <? length L1)%nat eqn:Hlen.
  - unfold bind at 1, print at 1, emit at 1.
    unfold bind at 1, time_sleep at 1. cbn [world globals trace].
    intros Hrest. apply IH in Hrest as (t2 & L' & -> & Ht2 & Hg2 & Hp2 & Hnd' & Hend);
      [|done].
    cbn [world globals trace] in Ht2, Hg2.
    exists (t1 ++ [EPrint (progress_msg k); ESleep 60] ++ t2), L'.
    split_and!; try done.
    + rewrite Ht2, Ht1. by rewrite <- !(assoc_L (++)).
    + congruence.
    + eapply phase_compose; [exact Hp1|].
      eapply phase_compose; [|exact Hp2].
      apply phase_messages. repeat apply Forall_cons_2; simpl; auto.
  - unfold bind, print, emit, ret. cbn [world globals trace].
    intros [= <- <-]. apply Nat.ltb_ge in Hlen.
    assert (L1 = []) as -> by (destruct L1; [done | simpl in Hlen; lia]).
    exists (t1 ++ [EPrint (done_msg k)]), [].
    split_and!; try done.
    + cbn [trace]. by rewrite Ht1, <- (assoc_L (++)).
    + eapply phase_compose; [exact Hp1|].
      apply phase_messages. repeat apply Forall_cons_2; simpl; auto.
    + by left.
Qed.

Lemma poll_many_ok k fuel (L : list string) s arns' s' :
  NoDup L →
  poll_many env k fuel (VStr <$> L) s = (Ok arns', s') →
  ∃ t L', arns' = VStr <$> L' ∧ trace s' = trace s ++ t
          ∧ globals s' = globals s ∧ phase k L t L' ∧ NoDup L'
          ∧ (L' = [] ∨ clock env (world s) + max_wait ≤ clock env (world s')).
Proof.
  intros Hnd. unfold poll_many, bind, time_time. by apply poll_while_ok.
Qed.
End LoopRuns.

Section Totality.
Context {W : Type} (env : Env W).

Lemma sweep_total k todo s :
  answers env k → ∃ kept s', sweep env k todo s = (Ok kept, s').
Proof.
  intros Hans. revert s. induction todo as [|x rest IH]; intros s.
  { by eexists _, _. }
  rewrite sweep_cons. cbn zeta.
  destruct (Hans x (world s)) as (response & w' & b & evs & -> & ->).
  unfold bind.
  edestruct IH as (kept & s' & ->). by eexists _, _.
Qed.

Lemma sweep_clock k todo s kept s' :
  ticking env → sweep env k todo s = (Ok kept, s') →
  clock env (world s) ≤ clock env (world s').
Proof.
  intros Htick. revert s kept s'.
  induction todo as [|x rest IH]; intros s kept s'.
  { by intros [= <- <-]. }
  rewrite sweep_cons. cbn zeta.
  pose proof (call_advances env Htick (describe_call k (VStr x)) (world s)) as Hc.
  destruct (client_call env _ (world s)) as [[response|e] w']; [|done].
  destruct (outcome k x response) as [[b|e] evs]; [|done].
  unfold bind.
  destruct (sweep env k rest _) as [[kept'| |] s1] eqn:Hs; try done.
  intros [= <- <-]. apply IH in Hs. simpl in *. lia.
Qed.

Lemma for_reversed_total k (L : list string) s :
  answers env k → NoDup L →
  ∃ arns' s', for_reversed env k (length L) (VStr <$> L) s = (Ok arns', s').
Proof.
  intros Hans Hnd. rewrite for_reversed_whole by done. unfold bind.
  destruct (sweep_total k (reverse L) s Hans) as (kept & s' & ->).
  by eexists _, _.
Qed.

Lemma for_reversed_clock k (L : list string) s arns' s' :
  ticking env → NoDup L →
  for_reversed env k (length L) (VStr <$> L) s = (Ok arns', s') →
  clock env (world s) ≤ clock env (world s').
Proof.
  intros Htick Hnd. rewrite for_reversed_whole by done. unfold bind.
  destruct (sweep env k (reverse L) s) as [[kept| |] s1] eqn:Hs; try done.
  intros [= <- <-]. by eapply sweep_clock.
Qed.
End Totality.

(** ** The claims about the multi-resource waits *)

(** C4.  In a round of a multi-resource wait over distinct identifiers, for
    every pattern of statuses the service answers with, the round completes
    and the identifiers described during it are exactly the identifiers that
    were pending when it began, each once, last to first: removing from the
    list under [reversed] skips none and repeats none. *)
Theorem round_describes_each_once {W : Type} (env : Env W) (k : poll_kind)
    (L : list string) (s : State W) :
  answers env k → NoDup L →
  ∃ arns' s' t,
    for_reversed env k (length L) (VStr <$> L) s = (Ok arns', s')
    ∧ trace s' = trace s ++ t
    ∧ described k t = VStr <$> reverse L.
Proof.
  intros Hans Hnd.
  destruct (for_reversed_total env k L s Hans Hnd) as (arns' & s' & Hrun).
  destruct (for_reversed_ok env k L s arns' s' Hnd Hrun)
    as (t & L' & _ & Ht & _ & _ & Hd & _).
  by exists arns', s', t.
Qed.


Definition three_jobs_env : Env Scripted.world :=
  Scripted.env (Scripted.describe_handler Scenario.three_jobs) 1.

Definition ABC : list string := ["arn:A"; "arn:B"; "arn:C"].

Lemma three_jobs_answers : answers three_jobs_env import_jobs.
Proof.
  intros x w. unfold three_jobs_env, Scripted.env, describe_call. cbn.
  unfold Scenario.three_jobs, Scenario.C. rewrite py_eq_str.
  destruct (String.eqb x "arn:C"); by eexists _, _, _, _.
Qed.

Lemma ABC_distinct : NoDup ABC.
Proof. compute_done. Qed.

Lemma round_describes_each_once_witness :
  ∃ arns' s' t,
    for_reversed three_jobs_env import_jobs (length ABC) (VStr <$> ABC)
                 (Scripted.start 0) = (Ok arns', s')
    ∧ trace s' = trace (Scripted.start 0) ++ t
    ∧ described import_jobs t = VStr <$> reverse ABC.
Proof.
  exact (round_describes_each_once three_jobs_env import_jobs ABC
           (Scripted.start 0) three_jobs_answers ABC_distinct).
Defined.

Definition three_jobs_end : State Scripted.world :=
  Eval vm_compute in
    (poll_many three_jobs_env import_jobs 1 (VStr <$> ABC) (Scripted.start 0)).2.

Lemma three_jobs_run :
  poll_many three_jobs_env import_jobs 1 (VStr <$> ABC) (Scripted.start 0)
  = (Ok [], three_jobs_end).
Proof. vm_compute. reflexivity. Qed.


(** C1.  Three import jobs, A and B active and C failed with the reason
    "schema mismatch" in its resource record, at the first poll of each: the
    loop describes each job once, leaves an empty list and ends in its first
    iteration; it prints the success of A and B and the failure of C, but
    not the reason. *)
Theorem three_jobs_reason_lost :
  let run := poll_many three_jobs_env import_jobs 1 (VStr <$> ABC)
                       (Scripted.start 0) in
  run.1 = Ok []
  ∧ described import_jobs (trace run.2) = VStr <$> ["arn:C"; "arn:B"; "arn:A"]
  ∧ stdout (trace run.2) =
      ["Import job arn:C failed";
       "Import job arn:B successfully completed";
       "Import job arn:A successfully completed";
       "All import jobs have ended"]%string.
Proof. by vm_compute. Qed.

(** C5.  When a describe response has status CREATE FAILED and carries the
    failure reason in its resource record, and has no [failureReason] key of
    its own, the loop prints the failure line and removes the identifier
    without printing the reason: the reason is looked up in the response,
    not in the record where the status was read. *)
Theorem nested_reason_not_logged {W : Type} (env : Env W) (k : poll_kind)
    (x reason : string) (arns arns' : list value) (s : State W)
    (response record : value) (w' : W) :
  client_call env (describe_call k (VStr x)) (world s) = (inl response, w') →
  getitem response (record_key k) = inl record →
  getitem record "status" = inl (VStr "CREATE FAILED") →
  getitem record "failureReason" = inl (VStr reason) →
  dict_get response "failureReason" = inl VNone →
  list_remove (VStr x) arns = Some arns' →
  poll_body env k (VStr x) arns s =
  (Ok arns',
   mkState w' (globals s)
     (trace s ++ [ECall (describe_call k (VStr x)) (inl response);
                  EPrint (failed_line k x);
                  ERemove (VStr x)])).
Proof.
  intros Hcall Hrec Hst _ Htop Hrem.
  rewrite poll_body_classify. unfold bind. rewrite classify_outcome. cbn zeta.
  rewrite Hcall. unfold outcome, status_of. rewrite Hrec, Hst. cbn.
  rewrite Htop. cbn. unfold remove. rewrite Hrem.
  unfold bind, emit, ret. cbn. by rewrite <- (assoc_L (++)).
Qed.

Lemma nested_reason_not_logged_witness :
  let response := Scenario.failed "datasetImportJob" "schema mismatch" in
  poll_body three_jobs_env import_jobs (VStr "arn:C") (VStr <$> ABC)
            (Scripted.start 0) =
  (Ok (VStr <$> ["arn:A"; "arn:B"]),
   mkState (Scripted.mkWorld 1 [describe_call import_jobs (VStr "arn:C")]) ∅
     [ECall (describe_call import_jobs (VStr "arn:C")) (inl response);
      EPrint (failed_line import_jobs "arn:C");
      ERemove (VStr "arn:C")]).
Proof.
  exact (nested_reason_not_logged three_jobs_env import_jobs "arn:C"
           "schema mismatch" (VStr <$> ABC) (VStr <$> ["arn:A"; "arn:B"])
           (Scripted.start 0)
           (Scenario.failed "datasetImportJob" "schema mismatch")
           (VDict [("status", VStr "CREATE FAILED");
                   ("failureReason", VStr "schema mismatch")])
           _ eq_refl eq_refl eq_refl eq_refl eq_refl eq_refl).
Defined.

(** ** Running out of time *)

Section Timeout.
Context {W : Type} (env : Env W).

Lemma sweep_keeps k x todo s kept s' :
  never_terminal env k x → x ∈ todo →
  sweep env k todo s = (Ok kept, s') → x ∈ kept.
Proof.
  intros Hnever. revert s kept s'.
  induction todo as [|y rest IH]; intros s kept s' Hin; [set_solver|].
  rewrite sweep_cons. cbn zeta.
  destruct (client_call env _ (world s)) as [[response|e] w'] eqn:Hcall;
    [|done].
  destruct (outcome k y response) as [[b|e] evs] eqn:Ho; [|done].
  unfold bind.
  destruct (sweep env k rest _) as [[kept'| |] s1] eqn:Hs; try done.
  intros [= <- <-].
  apply elem_of_cons in Hin as [->|Hin].
  - rewrite (Hnever _ _ _ Hcall) in Ho. simplify_eq. set_solver.
  - apply (IH _ _ _ Hin) in Hs. destruct b; set_solver.
Qed.

Lemma for_reversed_keeps k x (L : list string) s arns' s' :
  never_terminal env k x → NoDup L → x ∈ L →
  for_reversed env k (length L) (VStr <$> L) s = (Ok arns', s') →
  VStr x ∈ arns'.
Proof.
  intros Hnever Hnd Hin. rewrite for_reversed_whole by done. unfold bind.
  destruct (sweep env k (reverse L) s) as [[kept| |] s1] eqn:Hs; try done.
  intros [= <- <-]. apply list_elem_of_fmap_2, elem_of_reverse.
  eapply sweep_keeps; [done| |done]. by apply elem_of_reverse.
Qed.

Lemma poll_while_keeps k x fuel max (L : list string) s arns' s' :
  never_terminal env k x → NoDup L → x ∈ L →
  poll_while env k fuel max (VStr <$> L) s = (Ok arns', s') →
  VStr x ∈ arns'.
Proof.
  intros Hnever. revert L s arns' s'.
  induction fuel as [|fuel IH]; intros L s arns' s' Hnd Hin; [done|].
  cbn [poll_while]. unfold bind at 1, time_time at 1.
  destruct (clock env (world s) <? max).
  2:{ intros [= <- <-]. by apply list_elem_of_fmap_2. }
  unfold bind at 1. rewrite length_fmap.
  destruct (for_reversed env k (length L) (VStr <$> L) s)
    as [[arns1| |] s1] eqn:Hround; try done.
  pose proof (for_reversed_keeps _ _ _ _ _ _ Hnever Hnd Hin Hround) as Hin1.
  apply for_reversed_ok in Hround as (t1 & L1 & -> & _ & _ & _ & _ & Hnd1);
    [|done].
  apply list_elem_of_fmap in Hin1 as (y & [= <-] & Hin1).
  rewrite length_fmap.
  destruct (0 <? length L1)%nat.
  - unfold bind at 1, print at 1, emit at 1.
    unfold bind at 1, time_sleep at 1. by apply IH.
  - unfold bind, print, emit, ret. intros [= <- <-].
    by apply list_elem_of_fmap_2.
Qed.

(** With a ticking clock and a service that answers, the loop returns once
    there is fuel for every minute up to [max]. *)
Lemma poll_while_total k max n :
  ticking env → answers env k →
  ∀ fuel (L : list string) s,
    NoDup L → max - clock env (world s) ≤ 60 * Z.of_nat n → (n < fuel)%nat →
    ∃ arns' s', poll_while env k fuel max (VStr <$> L) s = (Ok arns', s').
Proof.
  intros Htick Hans. induction n as [|n IH]; intros fuel L s Hnd Hleft Hfuel;
    (destruct fuel as [|fuel]; [lia|]);
    cbn [poll_while]; unfold bind at 1, time_time at 1;
    destruct (clock env (world s) <? max) eqn:Hnow;
    try (by eexists _, _); apply Z.ltb_lt in Hnow; [lia|].
  unfold bind at 1. rewrite length_fmap.
  destruct (for_reversed_total env k L s Hans Hnd) as (arns1 & s1 & Hround).
  rewrite Hround.
  pose proof (for_reversed_clock env k L s _ _ Htick Hnd Hround) as Hclock.
  apply for_reversed_ok in Hround as (t1 & L1 & -> & _ & _ & _ & _ & Hnd1);
    [|done].
  rewrite length_fmap.
  destruct (0 <? length L1)%nat; [|by eexists _, _].
  unfold bind at 1, print at 1, emit at 1.
  unfold bind at 1, time_sleep at 1.
  apply IH; [done | | lia]. cbn [world].
  pose proof (sleep_advances env Htick 60 (world s1)). lia.
Qed.
End Timeout.

Definition wait_call (k : wait_kind) (arn : value) : Call :=
  mkCall "personalize" (w_op k) [(w_param k, arn)].

(** The status reader of the resource [arn] never reports a terminal
    status. *)
Definition stuck {W : Type} (env : Env W) (k : wait_kind) (arn : value)
  : Prop :=
  ∀ w, ∃ response w' record status,
    client_call env (wait_call k arn) w = (inl response, w')
    ∧ getitem response (w_key k) = inl record
    ∧ getitem record "status" = inl status
    ∧ terminal_status status = false.

(** The events of a single-resource wait on a resource that stays pending:
    describe calls that are answered, status lines of non-terminal statuses,
    and sleeps of fifteen seconds. *)
Definition pending_report {W : Type} (env : Env W) (k : wait_kind)
                          (arn : value) (e : event) : Prop :=
  match e with
  | ECall c (inl _) => c = wait_call k arn
  | EPrint line =>
      ∃ status, terminal_status status = false
                ∧ line = (w_label k ++ ": " ++ py_str env status)%string
  | ESleep secs => secs = 15
  | _ => False
  end.

Section WaitTimeout.
Context {W : Type} (env : Env W).

Lemma wait_while_stuck k arn max n :
  ticking env → stuck env k arn → w_var k ≠ "status"%string →
  ∀ fuel s,
    globals s !! w_var k = Some arn →
    max - clock env (world s) ≤ 15 * Z.of_nat n → (n < fuel)%nat →
    ∃ s' t, wait_while env k fuel max s = (Ok tt, s')
      ∧ max ≤ clock env (world s')
      ∧ trace s' = trace s ++ t
      ∧ Forall (pending_report env k arn) t
      ∧ (globals s' !! "status"%string = globals s !! "status"%string
         ∨ ∃ status, terminal_status status = false
                     ∧ globals s' !! "status"%string = Some status).
Proof.
  intros Htick Hstuck Hvar.
  induction n as [|n IH]; intros fuel s Harn Hleft Hfuel;
    (destruct fuel as [|fuel]; [lia|]);
    cbn [wait_while]; unfold bind at 1, time_time at 1;
    (destruct (clock env (world s) <? max) eqn:Hnow;
     [apply Z.ltb_lt in Hnow
     |apply Z.ltb_ge in Hnow; exists s, []; rewrite app_nil_r;
      split_and!; try done; by left]).
  { lia. }
  unfold bind at 1, get_global at 1. rewrite Harn.
  destruct (Hstuck (world s)) as (response & w' & record & status
                                  & Hcall & Hrec & Hst & Hterm).
  pose proof (call_advances env Htick (wait_call k arn) (world s)) as Hc.
  unfold wait_call in Hcall, Hc.
  unfold bind at 1, call at 1. rewrite Hcall in *. cbn [snd] in Hc.
  unfold bind at 1. rewrite Hrec. cbn [lift ret].
  unfold bind at 1. rewrite Hst. cbn [lift ret].
  unfold bind at 1, set_global at 1. cbn [world globals trace].
  unfold bind at 1, print at 1, emit at 1. cbn [world globals trace].
  unfold terminal_status in Hterm. rewrite Hterm.
  unfold bind at 1, time_sleep at 1. cbn [world globals trace].
  pose proof (sleep_advances env Htick 15 w') as Hsl.
  edestruct (IH fuel) as (s' & t & Hrun & Hmax & Ht & Hev & Hstatus);
    [| |shelve|]; cycle 2.
  { exists s'. eexists. split; [exact Hrun|]. split; [done|].
    cbn [trace] in Ht. split.
    { rewrite Ht, <- !(assoc_L (++)). reflexivity. }
    split.
    - repeat apply Forall_cons_2; [done| |done|done].
      exists status. by unfold terminal_status.
    - right. destruct Hstatus as [Hsame|Hnew]; [|done].
      exists status. split; [by unfold terminal_status|].
      rewrite Hsame. cbn [globals]. by rewrite lookup_insert_eq. }
  { cbn [globals]. by rewrite lookup_insert_ne. }
  { cbn [world]. lia. }
  Unshelve. lia.
Qed.

Lemma wait_one_stuck k arn s :
  ticking env → stuck env k arn → w_var k ≠ "status"%string →
  globals s !! w_var k = Some arn →
  ∃ fuel s' t, wait_one env k fuel s = (Ok tt, s')
    ∧ clock env (world s) + w_budget k ≤ clock env (world s')
    ∧ trace s' = trace s ++ t
    ∧ Forall (pending_report env k arn) t
    ∧ ∃ status, terminal_status status = false
                ∧ globals s' !! "status"%string = Some status.
Proof.
  intros Htick Hstuck Hvar Harn.
  set (n := Z.to_nat (w_budget k / 15 + 1)).
  exists (S n). unfold wait_one.
  unfold bind at 1, set_global at 1. unfold bind at 1, time_time at 1.
  cbn [world globals trace].
  edestruct (wait_while_stuck k arn (clock env (world s) + w_budget k) n
               Htick Hstuck Hvar (S n))
    as (s' & t & Hrun & Hmax & Ht & Hev & Hstatus); cycle 3.
  { exists s', t. split; [exact Hrun|]. split_and!; try done.
    destruct Hstatus as [Hsame|Hnew]; [|done].
    exists VNone. split; [done|]. rewrite Hsame. cbn [globals].
    by rewrite lookup_insert_eq. }
  { cbn [globals]. by rewrite lookup_insert_ne. }
  { cbn [world]. subst n.
    pose proof (Z.mul_div_le (w_budget k) 15). 
    pose proof (Z.mod_pos_bound (w_budget k) 15).
    pose proof (Z.div_mod (w_budget k) 15). lia. }
  { lia. }
Qed.
End WaitTimeout.


Lemma scripted_ticking handler latency :
  0 ≤ latency → ticking (Scripted.env handler latency).
Proof. intros Hl. split; intros; simpl; lia. Qed.

Definition pending_env : Env Scripted.world :=
  Scripted.env (Scripted.describe_handler Scenario.all_pending) 1.

Lemma pending_env_answers : answers pending_env import_jobs.
Proof. intros x w. by eexists _, _, _, _. Qed.

Lemma pending_env_never x : never_terminal pending_env import_jobs x.
Proof. intros w response w' [= <- _]. done. Qed.

Lemma pending_env_stuck arn : stuck pending_env dataset_group_wait arn.
Proof. intros w. by eexists _, _, _, _. Qed.

Definition waiting_for_group : State Scripted.world :=
  mkState (Scripted.mkWorld 0 [])
          {[ "dataset_group_arn"%string := VStr "arn:G" ]} [].


(** ** Readiness before the maximum wait *)

(** Calls take at most [lat] seconds and a sleep of a minute overshoots by
    at most [slack]. *)
Record paced {W : Type} (env : Env W) (lat slack : Z) : Prop := mkPaced {
  call_bounded : ∀ c w, clock env (client_call env c w).2 ≤ clock env w + lat;
  sleep_bounded : ∀ w, clock env (sleep_for env 60 w) ≤ clock env w + 60 + slack
}.

(** From time [T] on, the status reader of every identifier of [L] reports
    a terminal status. *)
Definition ready_from {W : Type} (env : Env W) (k : poll_kind)
                      (L : list string) (T : Z) : Prop :=
  ∀ x w response w',
    x ∈ L → T ≤ clock env w →
    client_call env (describe_call k (VStr x)) w = (inl response, w') →
    ∃ evs, outcome k x response = (inl true, evs).

Section Ready.
Context {W : Type} (env : Env W).

(** One iteration of the loop. *)
Lemma poll_while_step k fuel max arns s :
  poll_while env k (S fuel) max arns s =
  if clock env (world s) <? max then
    match for_reversed env k (length arns) arns s with
    | (Ok arns', s1) =>
        if (0 <? length arns')%nat then
          poll_while env k fuel max arns'
            (mkState (sleep_for env 60 (world s1)) (globals s1)
                     ((trace s1 ++ [EPrint (progress_msg k)]) ++ [ESleep 60]))
        else
          (Ok arns', mkState (world s1) (globals s1)
                             (trace s1 ++ [EPrint (done_msg k)]))
    | (Raise e, s1) => (Raise e, s1)
    | (OutOfFuel, s1) => (OutOfFuel, s1)
    end
  else (Ok arns, s).
Proof.
  cbn [poll_while]. unfold bind at 1, time_time at 1.
  destruct (clock env (world s) <? max); [|done].
  unfold bind at 1.
  destruct (for_reversed env k (length arns) arns s) as [[arns1| |] s1];
    try done.
  destruct (0 <? length arns1)%nat; done.
Qed.

Lemma poll_while_more_fuel k fuel fuel' max arns s r s' :
  poll_while env k fuel max arns s = (r, s') → r ≠ OutOfFuel →
  (fuel ≤ fuel')%nat →
  poll_while env k fuel' max arns s = (r, s').
Proof.
  revert fuel' arns s. induction fuel as [|fuel IH]; intros fuel' arns s.
  { by intros [= <- <-]. }
  intros Hrun Hr Hle. destruct fuel' as [|fuel']; [lia|].
  revert Hrun. rewrite !poll_while_step.
  destruct (clock env (world s) <? max); [|done].
  destruct (for_reversed env k (length arns) arns s) as [[arns1| |] s1];
    try done.
  destruct (0 <? length arns1)%nat; [|done].
  intros Hrun. apply IH; [done | done | lia].
Qed.

Lemma poll_many_more_fuel k fuel fuel' arns s r s' :
  poll_many env k fuel arns s = (r, s') → r ≠ OutOfFuel →
  (fuel ≤ fuel')%nat →
  poll_many env k fuel' arns s = (r, s').
Proof. unfold poll_many, bind, time_time. apply poll_while_more_fuel. Qed.

Lemma sweep_clock_upper k lat slack todo s kept s' :
  paced env lat slack → 0 ≤ lat →
  sweep env k todo s = (Ok kept, s') →
  clock env (world s') ≤ clock env (world s) + lat * Z.of_nat (length todo).
Proof.
  intros Hp Hlat. revert s kept s'.
  induction todo as [|x rest IH]; intros s kept s'.
  { intros [= <- <-]. simpl. lia. }
  rewrite sweep_cons. cbn zeta.
  pose proof (call_bounded env _ _ Hp (describe_call k (VStr x)) (world s)) as Hc.
  destruct (client_call env _ (world s)) as [[response|e] w']; [|done].
  destruct (outcome k x response) as [[b|e] evs]; [|done].
  unfold bind.
  destruct (sweep env k rest _) as [[kept'| |] s1] eqn:Hs; try done.
  intros [= <- <-]. apply IH in Hs. cbn [world snd length] in *. lia.
Qed.

Lemma sweep_ready k L T todo s kept s' :
  ticking env → ready_from env k L T →
  todo ⊆ L → T ≤ clock env (world s) →
  sweep env k todo s = (Ok kept, s') → kept = [].
Proof.
  intros Htick Hready. revert s kept s'.
  induction todo as [|x rest IH]; intros s kept s' Hsub HT.
  { by intros [= <- <-]. }
  rewrite sweep_cons. cbn zeta.
  pose proof (call_advances env Htick (describe_call k (VStr x)) (world s)) as Hc.
  destruct (client_call env _ (world s)) as [[response|e] w'] eqn:Hcall;
    [|done].
  destruct (Hready x _ _ _ ltac:(set_solver) HT Hcall) as (evs & ->).
  unfold bind.
  destruct (sweep env k rest _) as [[kept'| |] s1] eqn:Hs; try done.
  intros [= <- <-]. eapply IH; [set_solver | | exact Hs].
  cbn [world snd] in *. lia.
Qed.

Lemma for_reversed_timed k lat slack (L : list string) s arns' s' :
  paced env lat slack → 0 ≤ lat → NoDup L →
  for_reversed env k (length L) (VStr <$> L) s = (Ok arns', s') →
  clock env (world s') ≤ clock env (world s) + lat * Z.of_nat (length L).
Proof.
  intros Hp Hlat Hnd. rewrite for_reversed_whole by done. unfold bind.
  destruct (sweep env k (reverse L) s) as [[kept| |] s1] eqn:Hs; try done.
  intros [= <- <-]. eapply sweep_clock_upper in Hs; [|done..].
  by rewrite length_reverse in Hs.
Qed.

Lemma for_reversed_ready k L0 T (L : list string) s arns' s' :
  ticking env → ready_from env k L0 T → NoDup L → L ⊆ L0 →
  T ≤ clock env (world s) →
  for_reversed env k (length L) (VStr <$> L) s = (Ok arns', s') →
  arns' = [].
Proof.
  intros Htick Hready Hnd Hsub HT. rewrite for_reversed_whole by done.
  unfold bind.
  destruct (sweep env k (reverse L) s) as [[kept| |] s1] eqn:Hs; try done.
  intros [= <- <-]. eapply sweep_ready in Hs as ->; [done..| |done].
  intros x. rewrite elem_of_reverse. apply Hsub.
Qed.

Lemma poll_while_ready k L0 T lat slack max n :
  ticking env → answers env k → paced env lat slack → 0 ≤ lat →
  ready_from env k L0 T →
  T + 2 * lat * Z.of_nat (length L0) + 60 + slack < max →
  ∀ fuel (L : list string) s,
    NoDup L → L ⊆ L0 →
    clock env (world s) + lat * Z.of_nat (length L0) < max →
    max - clock env (world s) ≤ 60 * Z.of_nat n → (n < fuel)%nat →
    ∃ s', poll_while env k fuel max (VStr <$> L) s = (Ok [], s')
          ∧ clock env (world s') < max.
Proof.
  intros Htick Hans Hp Hlat Hready Hbig.
  induction n as [|n IH]; intros fuel L s Hnd Hsub Hinv Hleft Hfuel;
    (destruct fuel as [|fuel]; [lia|]);
    cbn [poll_while]; unfold bind at 1, time_time at 1;
    (destruct (clock env (world s) <? max) eqn:Hnow;
     [apply Z.ltb_lt in Hnow | apply Z.ltb_ge in Hnow; lia]).
  { lia. }
  unfold bind at 1. rewrite length_fmap.
  destruct (for_reversed_total env k L s Hans Hnd) as (arns1 & s1 & Hround).
  rewrite Hround.
  pose proof (for_reversed_clock env k L s _ _ Htick Hnd Hround) as Hlo.
  pose proof (for_reversed_timed k lat slack L s _ _ Hp Hlat Hnd Hround) as Hhi.
  assert (length L ≤ length L0)%nat as Hlen.
  { apply submseteq_length, NoDup_submseteq; [done | apply Hsub]. }
  assert (clock env (world s1)
          ≤ clock env (world s) + lat * Z.of_nat (length L0)) as Hhi' by nia.
  destruct (decide (T ≤ clock env (world s))) as [HT|HT].
  { rewrite (for_reversed_ready k L0 T L s _ _ Htick Hready Hnd Hsub HT Hround)
      in *.
    cbn. eexists. split; [done|]. cbn [world]. lia. }
  apply for_reversed_ok in Hround
    as (t1 & L1 & -> & _ & _ & Hph & _ & Hnd1); [|done].
  rewrite length_fmap.
  destruct (0 <? length L1)%nat eqn:Hl1.
  - unfold bind at 1, print at 1, emit at 1.
    unfold bind at 1, time_sleep at 1.
    pose proof (sleep_advances env Htick 60 (world s1)).
    pose proof (sleep_bounded env _ _ Hp (world s1)).
    apply IH; cbn [world]; try done; try lia.
    etrans; [apply (phase_sub _ _ _ _ Hph) | done].
  - apply Nat.ltb_ge in Hl1.
    assert (L1 = []) as -> by (destruct L1; [done | simpl in Hl1; lia]).
    cbn. eexists. split; [done|]. cbn [world]. lia.
Qed.
End Ready.



Lemma scripted_paced handler latency :
  paced (Scripted.env handler latency) latency 0.
Proof. split; intros; simpl; lia. Qed.

Lemma three_jobs_ready T : ready_from three_jobs_env import_jobs ABC T.
Proof.
  intros x w response w' _ _. unfold three_jobs_env, describe_call. cbn.
  unfold Scenario.three_jobs, Scenario.C. rewrite py_eq_str.
  destruct (String.eqb x "arn:C"); intros [= <- _]; by eexists.
Qed.


Definition late_env : Env Scripted.world :=
  Scripted.env (Scripted.describe_handler Scenario.late) 0.

Definition strings_of (l : list value) : list (option string) :=
  (λ v, match v with VStr x => Some x | _ => None end) <$> l.

(** What the run on the late job comes to. *)
Definition gave_up (run : result (list value) * State Scripted.world)
  : Prop :=
  match run.1 with
  | Ok arns => strings_of arns = [Some "arn:A"%string]
  | _ => False
  end
  ∧ Scripted.now (world run.2) = max_wait
  ∧ stdout (trace run.2) = replicate 180 (progress_msg import_jobs).

Instance gave_up_dec run : Decision (gave_up run).
Proof. unfold gave_up. destruct run.1; apply _. Defined.

Lemma late_run_gave_up :
  gave_up (poll_many late_env import_jobs 181 [VStr "arn:A"]
                     (Scripted.start 0)).
Proof. apply (bool_decide_unpack _). vm_compute. exact I. Qed.


(** ** The item-name helper *)

Lemma filter_none {A} (P : A → Prop) `{∀ x, Decision (P x)} (l : list A) :
  (∀ x, x ∈ l → ¬ P x) → filter P l = [].
Proof.
  induction l as [|x l IH]; intros Hall; [done|].
  rewrite filter_cons_False by (apply Hall; set_solver).
  apply IH. intros y Hy. apply Hall. set_solver.
Qed.

Lemma get_item_name_from_id_first df before row after item_id :
  df = before ++ row :: after →
  (∀ r, r ∈ before → py_eq (id r) item_id = false) →
  py_eq (id row) item_id = true →
  get_item_name_from_id df item_id = inl (name row).
Proof.
  intros -> Hbefore Hrow. unfold get_item_name_from_id.
  rewrite filter_app, filter_cons_True by done.
  rewrite filter_none; [done|].
  intros r Hr. by rewrite (Hbefore r Hr).
Qed.

Lemma get_item_name_from_id_absent df item_id :
  (∀ r, r ∈ df → py_eq (id r) item_id = false) →
  get_item_name_from_id df item_id = inr IndexError.
Proof.
  intros Hnone. unfold get_item_name_from_id.
  rewrite filter_none; [done|].
  intros r Hr. by rewrite (Hnone r Hr).
Qed.

Lemma get_item_name_from_id_present df item_id :
  (∃ r, r ∈ df ∧ py_eq (id r) item_id = true) →
  ∃ n, get_item_name_from_id df item_id = inl n.
Proof.
  intros (r & Hr & Heq). unfold get_item_name_from_id.
  destruct (filter _ df) as [|r' rest] eqn:E; [|by eexists].
  by destruct (filter_nil_not_elem_of _ _ r E Heq).
Qed.

Lemma get_item_name_from_id_raises df item_id e :
  get_item_name_from_id df item_id = inr e → e = IndexError.
Proof.
  unfold get_item_name_from_id. destruct (name <$> _); congruence.
Qed.


Definition two_items : list item_row :=
  [mkItem (VStr "i1") (VStr "Sneakers") (VStr "footwear") (VStr "sneaker")
          (VBool false);
   mkItem (VStr "i2") (VStr "Kettle") (VStr "housewares") (VStr "kitchen")
          (VBool true)].


(** ** What a computation may do

    [tidy strict P frame m]: whatever state [m] starts from, it only adds
    events that satisfy [P] to the trace and leaves the variables in
    [frame] as they are; when [strict], moreover, a client call that raised
    is what [m] raises: no exception of a call is caught inside [m]. *)
Definition tidy {W A : Type} (strict : bool) (P : event → Prop)
                (frame : string → Prop) (m : M W A) : Prop :=
  ∀ s, ∃ t,
    trace (m s).2 = trace s ++ t
    ∧ Forall P t
    ∧ (∀ x, frame x → globals (m s).2 !! x = globals s !! x)
    ∧ (strict = true → ∀ c e, ECall c (inr e) ∈ t → (m s).1 = Raise e).

(** No exception of a client call is caught inside [m]. *)
Definition plain {W A : Type} (m : M W A) : Prop :=
  tidy true (λ _, True) (λ _, False) m.

Section Tidy.
Context {W : Type} (env : Env W).
Context (strict : bool) (P : event → Prop) (frame : string → Prop).

Lemma tidy_ret {A} (a : A) : tidy (W:=W) strict P frame (ret a).
Proof.
  intros s. exists []. rewrite app_nil_r. split_and!; try done.
  intros _ c e Hin. by apply elem_of_nil in Hin.
Qed.

Lemma tidy_raise {A} (e : exn) : tidy (W:=W) (A:=A) strict P frame (raise e).
Proof.
  intros s. exists []. rewrite app_nil_r. split_and!; try done.
  intros _ c e' Hin. by apply elem_of_nil in Hin.
Qed.

Lemma tidy_out_of_fuel {A} : tidy (W:=W) (A:=A) strict P frame out_of_fuel.
Proof.
  intros s. exists []. rewrite app_nil_r. split_and!; try done.
  intros _ c e' Hin. by apply elem_of_nil in Hin.
Qed.

Lemma tidy_lift {A} (r : A + exn) : tidy (W:=W) strict P frame (lift r).
Proof. destruct r; [apply tidy_ret | apply tidy_raise]. Qed.

Lemma tidy_bind {A B} (m : M W A) (f : A → M W B) :
  tidy strict P frame m → (∀ a, tidy strict P frame (f a)) →
  tidy strict P frame (bind m f).
Proof.
  intros Hm Hf s. unfold bind.
  destruct (Hm s) as (t1 & Ht1 & HP1 & Hg1 & He1).
  destruct (m s) as [[a|e|] s1] eqn:Hms; cbn [fst snd] in *.
  - destruct (Hf a s1) as (t2 & Ht2 & HP2 & Hg2 & He2).
    exists (t1 ++ t2). split_and!.
    + by rewrite Ht2, Ht1, (assoc_L (++)).
    + by apply Forall_app.
    + intros x Hx. by rewrite Hg2, Hg1.
    + intros Hs c e [Hin|Hin]%elem_of_app; [|by apply (He2 Hs c)].
      by specialize (He1 Hs c e Hin).
  - exists t1. split_and!; try done. intros Hs c e' Hin.
    specialize (He1 Hs c e' Hin). by simplify_eq.
  - exists t1. split_and!; try done. intros Hs c e' Hin.
    by specialize (He1 Hs c e' Hin).
Qed.

Lemma tidy_emit (e : event) :
  P e → (∀ c r, e ≠ ECall c r) → tidy (W:=W) strict P frame (emit e).
Proof.
  intros HP Hne s. exists [e]. split_and!; try done.
  - by apply Forall_singleton.
  - intros _ c e' Hin%list_elem_of_singleton. by destruct (Hne c (inr e')).
Qed.

Lemma tidy_print (line : string) :
  P (EPrint line) → tidy (W:=W) strict P frame (print line).
Proof. intros HP. by apply tidy_emit. Qed.

Lemma tidy_time_time : tidy strict P frame (time_time env).
Proof.
  intros s. exists []. rewrite app_nil_r. split_and!; try done.
  intros _ c e' Hin. by apply elem_of_nil in Hin.
Qed.

Lemma tidy_time_sleep secs :
  P (ESleep secs) → tidy strict P frame (time_sleep env secs).
Proof.
  intros HP s. exists [ESleep secs]. split_and!; try done.
  - by apply Forall_singleton.
  - by intros _ c e' ?%list_elem_of_singleton.
Qed.

Lemma tidy_call cl o kw :
  (∀ r, P (ECall (mkCall cl o kw) r)) → tidy strict P frame (call env cl o kw).
Proof.
  intros HP s. unfold call.
  destruct (client_call env _ (world s)) as [r w'] eqn:Hc.
  exists [ECall (mkCall cl o kw) r].
  destruct r as [v|e]; cbn [fst snd trace globals]; split_and!; try done;
    try (by apply Forall_singleton);
    intros _ c e' Hin%list_elem_of_singleton; by simplify_eq.
Qed.

Lemma tidy_load_json path : tidy strict P frame (load_json env path).
Proof.
  intros s. unfold load_json.
  destruct (read_json env path (world s)) as [[v|e] w'];
    exists []; cbn; rewrite app_nil_r; split_and!; try done;
    intros _ c e' Hin; by apply elem_of_nil in Hin.
Qed.

Lemma tidy_get_global x : tidy (W:=W) strict P frame (get_global x).
Proof.
  intros s. unfold get_global. exists [].
  destruct (globals s !! x); cbn; rewrite app_nil_r; split_and!; try done;
    intros _ c e' Hin; by apply elem_of_nil in Hin.
Qed.

Lemma tidy_set_global x v :
  ¬ frame x → tidy (W:=W) strict P frame (set_global x v).
Proof.
  intros Hx s. exists []. cbn. rewrite app_nil_r. split_and!; try done.
  - intros y Hy. apply lookup_insert_ne. by intros ->.
  - intros _ c e' Hin. by apply elem_of_nil in Hin.
Qed.

Lemma tidy_remove x l :
  P (ERemove x) → tidy (W:=W) strict P frame (remove x l).
Proof.
  intros HP. unfold remove. destruct (list_remove x l); [|apply tidy_raise].
  apply tidy_bind; [by apply tidy_emit | intros; apply tidy_ret].
Qed.
End Tidy.

Lemma tidy_relax {W A} strict P frame (m : M W A) :
  tidy true P frame m → tidy strict P frame m.
Proof.
  intros Hm s. destruct (Hm s) as (t & Ht & HP & Hg & He).
  exists t. split_and!; try done. intros _. by apply He.
Qed.

(** A [try] statement is tidy, though not strictly. *)
Lemma tidy_try_except {W A} strict strict' P frame (m : M W A) handles h :
  tidy strict P frame m → (∀ e, tidy strict' P frame (h e)) →
  tidy false P frame (try_except m handles h).
Proof.
  intros Hm Hh s. unfold try_except.
  destruct (Hm s) as (t1 & Ht1 & HP1 & Hg1 & _).
  destruct (m s) as [[a|e|] s1] eqn:Hms; cbn [fst snd] in *;
    try (by exists t1).
  destruct (handles e); [|by exists t1].
  destruct (Hh e s1) as (t2 & Ht2 & HP2 & Hg2 & _).
  exists (t1 ++ t2). split_and!; try done.
  - by rewrite Ht2, Ht1, (assoc_L (++)).
  - by apply Forall_app.
  - intros x Hx. by rewrite Hg2, Hg1.
Qed.

(** Printing, sleeping and removing are allowed by [P]. *)
Record benign (P : event → Prop) : Prop := mkBenign {
  benign_print : ∀ line, P (EPrint line);
  benign_sleep : ∀ secs, P (ESleep secs);
  benign_remove : ∀ x, P (ERemove x)
}.

Ltac tidy_step :=
  lazymatch goal with
  | |- tidy _ _ _ (ret _) => apply tidy_ret
  | |- tidy _ _ _ (raise _) => apply tidy_raise
  | |- tidy _ _ _ (lift _) => apply tidy_lift
  | |- tidy _ _ _ out_of_fuel => apply tidy_out_of_fuel
  | |- tidy _ _ _ (get_global _) => apply tidy_get_global
  | |- tidy _ _ _ (time_time _) => apply tidy_time_time
  | |- tidy _ _ _ (load_json _ _) => apply tidy_load_json
  | |- tidy _ _ _ (bind _ _) => apply tidy_bind; [|intros ?]
  | |- tidy _ _ _ (print _) => apply tidy_print
  | |- tidy _ _ _ (time_sleep _ _) => apply tidy_time_sleep
  | |- tidy _ _ _ (remove _ _) => apply tidy_remove
  | |- tidy _ _ _ (call _ _ _ _) => apply tidy_call; intros ?
  | |- tidy _ _ _ (set_global _ _) => apply tidy_set_global
  | |- tidy _ _ _ (if ?b then _ else _) => destruct b
  end.

Ltac tidy := repeat tidy_step.

Section TidyLoops.
Context {W : Type} (env : Env W).
Context (strict : bool) (P : event → Prop) (frame : string → Prop).
Context (Hbenign : benign P).

Lemma tidy_poll_body k arn arns :
  (∀ a r, P (ECall (describe_call k a) r)) →
  tidy strict P frame (poll_body env k arn arns).
Proof using Hbenign.
  intros Hcall. destruct Hbenign. unfold poll_body, describe.
  tidy; try done. apply Hcall.
Qed.

Lemma tidy_for_reversed k n arns :
  (∀ a r, P (ECall (describe_call k a) r)) →
  tidy strict P frame (for_reversed env k n arns).
Proof using Hbenign.
  intros Hcall. revert arns. induction n as [|n IH]; intros arns; cbn.
  { apply tidy_ret. }
  destruct (arns !! n); [|apply tidy_ret].
  apply tidy_bind; [by apply tidy_poll_body | intros; apply IH].
Qed.

Lemma tidy_poll_while k fuel max arns :
  (∀ a r, P (ECall (describe_call k a) r)) →
  tidy strict P frame (poll_while env k fuel max arns).
Proof using Hbenign.
  intros Hcall. revert arns. induction fuel as [|fuel IH]; intros arns; cbn.
  { apply tidy_out_of_fuel. }
  destruct Hbenign.
  apply tidy_bind; [apply tidy_time_time | intros now].
  destruct (now <? max); [|apply tidy_ret].
  apply tidy_bind; [by apply tidy_for_reversed | intros arns'].
  destruct (0 <? length arns')%nat; tidy; done.
Qed.

Lemma tidy_poll_many k fuel arns :
  (∀ a r, P (ECall (describe_call k a) r)) →
  tidy strict P frame (poll_many env k fuel arns).
Proof using Hbenign.
  intros Hcall. unfold poll_many.
  apply tidy_bind; [apply tidy_time_time | intros; by apply tidy_poll_while].
Qed.

Lemma tidy_poll_cell k list_var v1 v2 v3 fuel :
  (∀ a r, P (ECall (describe_call k a) r)) → ¬ frame list_var →
  tidy strict P frame (poll_cell env k list_var v1 v2 v3 fuel).
Proof using Hbenign.
  intros Hcall Hvar. unfold poll_cell. tidy; try done.
  by apply tidy_poll_many.
Qed.

Lemma tidy_wait_while k fuel max :
  (∀ a r, P (ECall (wait_call k a) r)) → ¬ frame "status"%string →
  tidy strict P frame (wait_while env k fuel max).
Proof using Hbenign.
  intros Hcall Hvar. induction fuel as [|fuel IH]; cbn.
  { apply tidy_out_of_fuel. }
  destruct Hbenign.
  apply tidy_bind; [apply tidy_time_time | intros now].
  destruct (now <? max); [|apply tidy_ret].
  tidy; try done. apply Hcall.
Qed.

Lemma tidy_wait_one k fuel :
  (∀ a r, P (ECall (wait_call k a) r)) → ¬ frame "status"%string →
  tidy strict P frame (wait_one env k fuel).
Proof using Hbenign.
  intros Hcall Hvar. unfold wait_one. tidy; try done.
  by apply tidy_wait_while.
Qed.

Lemma tidy_lookup_schema wanted var schemas :
  ¬ frame var → tidy strict P frame (lookup_schema env wanted var schemas).
Proof using Hbenign.
  intros Hvar. destruct Hbenign.
  induction schemas as [|schema rest IH]; cbn; tidy; done.
Qed.

Lemma tidy_create_resource o kw response_var key var :
  (∀ r, P (ECall (mkCall "personalize" o kw) r)) →
  ¬ frame response_var → ¬ frame var →
  tidy strict P frame (create_resource env o kw response_var key var).
Proof using Hbenign.
  intros Hcall H1 H2. unfold create_resource. tidy; done.
Qed.
End TidyLoops.


(** ** Which creation calls recover *)

(** The creation cells that have no [try] statement. *)
Definition unguarded_creations {W : Type} (env : Env W) : list (M W unit) :=
  [create_dataset_group_cell env;
   create_interactions_dataset_cell env;
   create_items_dataset_cell env;
   create_users_dataset_cell env;
   create_interactions_import_job_cell env;
   create_items_import_job_cell env;
   create_users_import_job_cell env;
   create_related_solution_cell env;
   create_related_solution_version_cell env;
   create_recommend_solution_cell env;
   create_recommend_solution_version_cell env;
   create_ranking_solution_cell env;
   create_ranking_solution_version_cell env;
   create_related_campaign_cell env;
   create_recommend_campaign_cell env;
   create_ranking_campaign_cell env;
   create_filter_cell env].

Definition create_schema_call {W : Type} (env : Env W) (created : string)
                              (schema : value) : Call :=
  mkCall "personalize" "create_schema"
         [("name", VStr created); ("schema", VStr (json_dumps env None schema))].

Definition create_role_call {W : Type} (env : Env W) (role_name : value)
  : Call :=
  mkCall "iam" "create_role"
         [("RoleName", role_name);
          ("AssumeRolePolicyDocument",
           VStr (json_dumps env None assume_role_policy_document))].

Lemma benign_True : benign (λ _, True).
Proof. by split. Qed.

Lemma plain_create_resource {W : Type} (env : Env W) o kw rv key var :
  plain (create_resource env o kw rv key var).
Proof.
  apply tidy_create_resource; [apply benign_True | done | by intros [] ..].
Qed.

Ltac plain_cell :=
  unfold plain; tidy; try done; try (by intros []);
  try apply plain_create_resource.

Section Recovery.
Context {W : Type} (env : Env W).

Lemma unguarded_creations_plain : Forall plain (unguarded_creations env).
Proof.
  unfold unguarded_creations.
  repeat apply Forall_cons_2; try apply Forall_nil_2;
    unfold create_dataset_group_cell,
      create_interactions_dataset_cell, create_items_dataset_cell,
      create_users_dataset_cell, create_dataset_cell,
      create_interactions_import_job_cell, create_items_import_job_cell,
      create_users_import_job_cell, create_import_job_cell,
      create_related_solution_cell, create_recommend_solution_cell,
      create_ranking_solution_cell, create_solution_cell,
      create_related_solution_version_cell,
      create_recommend_solution_version_cell,
      create_ranking_solution_version_cell, create_solution_version_cell,
      create_related_campaign_cell, create_recommend_campaign_cell,
      create_ranking_campaign_cell, create_campaign_cell, create_filter_cell;
    plain_cell.
Qed.

Lemma schema_bind_plain var print_first response :
  plain (schema_bind env var print_first response).
Proof. unfold schema_bind. plain_cell. Qed.

Lemma schema_recover_plain wanted var :
  plain (schema_recover env wanted var).
Proof.
  unfold schema_recover. plain_cell.
  apply tidy_lookup_schema; [apply benign_True | by intros []].
Qed.

Lemma role_recover_plain role_name e : plain (role_recover env role_name e).
Proof. unfold role_recover. plain_cell. Qed.

Lemma role_attach_plain role_name : plain (role_attach env role_name).
Proof. unfold role_attach. plain_cell. Qed.

(** The rest of the [try] block raises no client error. *)
Lemma schema_bind_raises var print_first response s e s' cls :
  schema_bind env var print_first response s = (Raise e, s') →
  is_client_error cls e = false.
Proof.
  unfold schema_bind.
  destruct (getitem response "schemaArn") as [arn|e0] eqn:Hg.
  - destruct print_first; cbn; intros; simplify_eq.
  - assert (is_client_error cls e0 = false) as He0.
    { unfold getitem in Hg. repeat case_match; by simplify_eq. }
    destruct print_first; cbn; intros; by simplify_eq.
Qed.

Lemma schema_cell_run created wanted var schema print_first s :
  schema_cell env created wanted var schema print_first s =
  let c := create_schema_call env created schema in
  let '(r, w') := client_call env c (world s) in
  let s1 := mkState w' (globals s) (trace s ++ [ECall c r]) in
  match r with
  | inl response => schema_bind env var print_first response s1
  | inr e =>
      if is_client_error "ResourceAlreadyExistsException" e
      then schema_recover env wanted var s1
      else (Raise e, s1)
  end.
Proof.
  unfold schema_cell, try_except, bind at 1, call, create_schema_call.
  cbn zeta.
  destruct (client_call env _ (world s)) as [[response|e] w']; [|done].
  destruct (schema_bind _ _ _ _ _) as [[[]|e|] s'] eqn:Hb; try done.
  by rewrite (schema_bind_raises _ _ _ _ _ _ _ Hb).
Qed.

Lemma role_create_run role_name s :
  role_create env role_name s =
  let c := create_role_call env role_name in
  let '(r, w') := client_call env c (world s) in
  let s1 := mkState w' (globals s) (trace s ++ [ECall c r]) in
  match r with
  | inl response => set_global "create_role_response" response s1
  | inr e =>
      if is_client_error "EntityAlreadyExistsException" e
      then role_recover env role_name e s1
      else (Raise e, s1)
  end.
Proof.
  unfold role_create, try_except, bind at 1, call, create_role_call.
  cbn zeta.
  by destruct (client_call env _ (world s)) as [[response|e] w'].
Qed.

Lemma create_resource_run o kw response_var key var s response w' arn :
  client_call env (mkCall "personalize" o kw) (world s) = (inl response, w') →
  getitem response key = inl arn →
  create_resource env o kw response_var key var s =
  (Ok response,
   mkState w' (<[var := arn]> (<[response_var := response]> (globals s)))
           (trace s ++ [ECall (mkCall "personalize" o kw) (inl response)])).
Proof.
  intros Hcall Hkey. unfold create_resource, bind, call.
  rewrite Hcall. cbn. by rewrite Hkey.
Qed.
End Recovery.

(** C8, as amended.  Only the schema cells and the role cell recover.  A
    schema cell catches the already-exists error of [create_schema] and goes
    on with [list_schemas] and a match by name; the role cell catches the
    already-exists error of [create_role] and goes on with [get_role]; any
    other error of these calls, and any error raised inside the recovery, is
    raised by the cell.  The cells that create the dataset group, the
    datasets, the import jobs, the solutions, the solution versions, the
    campaigns and the filter have no handler: a successful call binds the
    identifier found in the response, and every error of a call, an
    already-exists error included, is raised by the cell. *)
Theorem recovery_only_for_schemas_and_role {W : Type} (env : Env W) :
  Forall plain (unguarded_creations env)
  ∧ (∀ o kw response_var key var s response w' arn,
       client_call env (mkCall "personalize" o kw) (world s)
       = (inl response, w') →
       getitem response key = inl arn →
       create_resource env o kw response_var key var s =
       (Ok response,
        mkState w' (<[var := arn]> (<[response_var := response]> (globals s)))
                (trace s ++ [ECall (mkCall "personalize" o kw) (inl response)])))
  ∧ (∀ created wanted var schema print_first s,
       schema_cell env created wanted var schema print_first s =
       let c := create_schema_call env created schema in
       let '(r, w') := client_call env c (world s) in
       let s1 := mkState w' (globals s) (trace s ++ [ECall c r]) in
       match r with
       | inl response => schema_bind env var print_first response s1
       | inr e =>
           if is_client_error "ResourceAlreadyExistsException" e
           then schema_recover env wanted var s1
           else (Raise e, s1)
       end)
  ∧ (∀ var print_first response,
       plain (schema_bind env var print_first response))
  ∧ (∀ wanted var, plain (schema_recover env wanted var))
  ∧ (∀ role_name s,
       role_create env role_name s =
       let c := create_role_call env role_name in
       let '(r, w') := client_call env c (world s) in
       let s1 := mkState w' (globals s) (trace s ++ [ECall c r]) in
       match r with
       | inl response => set_global "create_role_response" response s1
       | inr e =>
           if is_client_error "EntityAlreadyExistsException" e
           then role_recover env role_name e s1
           else (Raise e, s1)
       end)
  ∧ (∀ role_name e, plain (role_recover env role_name e))
  ∧ (∀ role_name, plain (role_attach env role_name)).
Proof.
  split_and!.
  - apply unguarded_creations_plain.
  - apply create_resource_run.
  - apply schema_cell_run.
  - apply schema_bind_plain.
  - apply schema_recover_plain.
  - apply role_create_run.
  - apply role_recover_plain.
  - apply role_attach_plain.
Qed.

Definition sample_env : Env Scripted.world := Aws.env Scenario.all_active 1.

Definition group_call : Call :=
  mkCall "personalize" "create_dataset_group"
         [("name", VStr "personalize-immersion-day-retail")].

Definition group_response : value :=
  VDict [("datasetGroupArn",
          VStr "arn:aws:personalize:::dataset-group/personalize-immersion-day-retail")].

Lemma recovery_only_for_schemas_and_role_witness :
  Forall plain (unguarded_creations sample_env)
  ∧ create_resource sample_env "create_dataset_group"
      [("name", VStr "personalize-immersion-day-retail")]
      "create_dataset_group_response" "datasetGroupArn" "dataset_group_arn"
      (Scripted.start 0) =
    (Ok group_response,
     mkState (Scripted.mkWorld 1 [group_call])
       (<["dataset_group_arn"%string :=
            VStr "arn:aws:personalize:::dataset-group/personalize-immersion-day-retail"]>
          (<["create_dataset_group_response"%string := group_response]> ∅))
       [ECall group_call (inl group_response)]).
Proof.
  destruct (recovery_only_for_schemas_and_role sample_env)
    as (Hplain & Hcreate & _).
  split; [exact Hplain|].
  exact (Hcreate "create_dataset_group"%string
           [("name"%string, VStr "personalize-immersion-day-retail")]
           "create_dataset_group_response"%string "datasetGroupArn"%string
           "dataset_group_arn"%string (Scripted.start 0) group_response
           (Scripted.mkWorld 1 [group_call])
           (VStr "arn:aws:personalize:::dataset-group/personalize-immersion-day-retail")
           eq_refl eq_refl).
Defined.

(** The events added to the trace by running [m] from [s]. *)
Definition added {W A : Type} (m : M W A) (s : State W) : list event :=
  drop (length (trace s)) (trace (m s).2).

(** C8, as stated, fails.  Creating the dataset group a second time raises
    the already-exists error out of the cell: nothing catches it and no
    listing call follows. *)
Lemma dataset_group_twice_raises :
  let first := create_dataset_group_cell sample_env (Scripted.start 0) in
  let second := create_dataset_group_cell sample_env first.2 in
  first.1 = Ok tt
  ∧ second.1 =
      Raise (ClientError "ResourceAlreadyExistsException"
               "Another resource with name personalize-immersion-day-retail already exists")
  ∧ op <$> calls (added (create_dataset_group_cell sample_env) first.2)
    = ["create_dataset_group"%string].
Proof. by vm_compute. Qed.

(** C7.  The users schema is created under one name and looked up under
    another.  On the sample service, a first run of the cell creates the
    schema and binds its ARN; a second run, in a fresh kernel, meets the
    already-exists error, lists the schemas, finds none under the name it
    looks for, prints no ARN and leaves [users_schema_arn] unbound.  The
    same two runs of the interactions cell end with the ARN of the first
    run. *)
Theorem users_schema_not_recovered :
  let fresh (s : State Scripted.world) := mkState (world s) ∅ [] in
  let first := users_schema_cell sample_env (Scripted.start 0) in
  let again := users_schema_cell sample_env (fresh first.2) in
  let first' := interactions_schema_cell sample_env (Scripted.start 0) in
  let again' := interactions_schema_cell sample_env (fresh first'.2) in
  first.1 = Ok tt
  ∧ globals first.2 !! "users_schema_arn"%string =
      Some (VStr "arn:aws:personalize:::schema/rpersonalize-immersion-day-retail-schema-users")
  ∧ again.1 = Ok tt
  ∧ op <$> calls (trace again.2) = ["create_schema"; "list_schemas"]%string
  ∧ stdout (trace again.2) = ["You aready created this schema, seemingly"%string]
  ∧ globals again.2 !! "users_schema_arn"%string = None
  ∧ globals first'.2 !! "interactions_schema_arn"%string
    = globals again'.2 !! "interactions_schema_arn"%string
  ∧ is_Some (globals again'.2 !! "interactions_schema_arn"%string).
Proof. vm_compute. split_and!; try done. by eexists. Qed.

(** ** What is polled before it is used *)

(** A describe call [o] on the resource [g] was answered in [t]. *)
Definition polled (o : string) (g : value) (t : list event) : Prop :=
  ∃ p response, ECall (mkCall "personalize" o [(p, g)]) (inl response) ∈ t.

Definition is_str (v : value) : Prop := ∃ x, v = VStr x.

(** Every call of the operation [create_op] in [t] passes under [arn_key] an
    identifier that, when it is [ok], a describe call [describe] was
    answered for before. *)
Definition guarded (create_op arn_key describe : string) (ok : value → Prop)
                   (t : list event) : Prop :=
  ∀ t1 c r t2,
    t = t1 ++ ECall c r :: t2 → op c = create_op →
    ∃ g, assoc arn_key (kwargs c) = Some g ∧ (ok g → polled describe g t1).

(** The events other than calls of the operation [o]. *)
Definition not_op (o : string) (e : event) : Prop :=
  match e with
  | ECall c _ => op c ≠ o
  | _ => True
  end.

(** [m] takes states that satisfy [Pre] to states that satisfy [Post] when
    it returns, and [Fail] when it does not. *)
Definition hoare {W : Type} (Pre : State W → Prop) (m : M W unit)
                 (Post Fail : State W → Prop) : Prop :=
  ∀ s, Pre s → match (m s).1 with
                | Ok _ => Post (m s).2
                | _ => Fail (m s).2
                end.

Lemma benign_not_op o : benign (not_op o).
Proof. by split. Qed.

Lemma polled_app o g t t' : polled o g t → polled o g (t ++ t').
Proof. intros (p & response & Hin). exists p, response. set_solver. Qed.

Lemma polled_app_r o g t t' : polled o g t' → polled o g (t ++ t').
Proof. intros (p & response & Hin). exists p, response. set_solver. Qed.

Lemma guarded_nil create_op arn_key describe ok :
  guarded create_op arn_key describe ok [].
Proof. intros t1 c r t2 Heq. by destruct t1. Qed.

Lemma guarded_app create_op arn_key describe ok t t' :
  guarded create_op arn_key describe ok t → Forall (not_op create_op) t' →
  guarded create_op arn_key describe ok (t ++ t').
Proof.
  intros Hg Hno t1 c r t2 Heq Hop. symmetry in Heq.
  apply app_split in Heq as [(t2a & -> & ->)|(t1b & -> & ->)].
  - by eapply Hg.
  - apply Forall_app in Hno as [_ Hno]. apply Forall_cons in Hno as [Hno _].
    by destruct Hno.
Qed.

Lemma guarded_snoc create_op arn_key describe ok t c r g :
  guarded create_op arn_key describe ok t →
  assoc arn_key (kwargs c) = Some g → (ok g → polled describe g t) →
  guarded create_op arn_key describe ok (t ++ [ECall c r]).
Proof.
  intros Hg Hkey Hp t1 c' r' t2 Heq Hop. symmetry in Heq.
  apply app_split in Heq as [(t2a & -> & ->)|(t1b & Heq & ->)].
  - by eapply Hg.
  - destruct t1b as [|e t1b]; [|by destruct t1b].
    injection Heq as <- <- <-. rewrite app_nil_r. by exists g.
Qed.

Section Hoare.
Context {W : Type}.

Lemma hoare_seq (Pre Mid Post Fail : State W → Prop) (m k : M W unit) :
  hoare Pre m Mid Fail → hoare Mid k Post Fail →
  hoare Pre (m ;;; k) Post Fail.
Proof.
  intros Hm Hk s Hs. specialize (Hm s Hs). unfold bind.
  destruct (m s) as [[[]|e|] s1]; cbn in *; try done. by apply Hk.
Qed.

Lemma hoare_weaken (Pre Pre' Post Post' Fail : State W → Prop) (m : M W unit) :
  (∀ s, Pre' s → Pre s) → (∀ s, Post s → Post' s) →
  hoare Pre m Post Fail → hoare Pre' m Post' Fail.
Proof.
  intros H1 H2 Hm s Hs. specialize (Hm s (H1 s Hs)).
  destruct (m s).1; auto.
Qed.

(** A tidy computation keeps an invariant of the trace that holds under
    extension by events it may add. *)
Lemma hoare_tidy strict P frame (m : M W unit) (I : list event → Prop)
                 (G : gmap string value → list event → Prop) :
  tidy strict P frame m →
  (∀ t t', I t → Forall P t' → I (t ++ t')) →
  (∀ g g' t t', (∀ x, frame x → g' !! x = g !! x) →
                G g t → Forall P t' → G g' (t ++ t')) →
  hoare (λ s, I (trace s) ∧ G (globals s) (trace s)) m
        (λ s, I (trace s) ∧ G (globals s) (trace s))
        (λ s, I (trace s)).
Proof.
  intros Hm HI HG s [Hi Hg].
  destruct (Hm s) as (t & Ht & HP & Hgl & _).
  assert (I (trace (m s).2)) by (rewrite Ht; by apply HI).
  assert (G (globals (m s).2) (trace (m s).2))
    by (rewrite Ht; by eapply HG).
  by destruct (m s).1.
Qed.
End Hoare.

Create HintDb cells.
#[local] Hint Unfold
  setup_cell interactions_schema_cell items_schema_cell users_schema_cell
  schema_cell schema_bind schema_recover
  create_dataset_group_cell wait_dataset_group_cell
  create_interactions_dataset_cell create_items_dataset_cell
  create_users_dataset_cell create_dataset_cell
  region_cell bucket_cell upload_cell upload bucket_policy_cell
  iam_role_cell role_create role_recover role_attach
  create_interactions_import_job_cell create_items_import_job_cell
  create_users_import_job_cell create_import_job_cell wait_import_jobs_cell
  recipes_cell create_related_solution_cell create_recommend_solution_cell
  create_ranking_solution_cell create_solution_cell
  create_related_solution_version_cell create_recommend_solution_version_cell
  create_ranking_solution_version_cell create_solution_version_cell
  wait_solution_versions_cell metrics_cell
  create_related_campaign_cell create_recommend_campaign_cell
  create_ranking_campaign_cell create_campaign_cell wait_campaigns_cell
  create_filter_cell wait_filter_cell : cells.

Ltac tidy_cell_step :=
  lazymatch goal with
  | |- tidy _ _ _ (create_resource _ _ _ _ _ _) => apply tidy_create_resource
  | |- tidy _ _ _ (poll_cell _ _ _ _ _ _ _) => apply tidy_poll_cell
  | |- tidy _ _ _ (wait_one _ _ _) => apply tidy_wait_one
  | |- tidy _ _ _ (lookup_schema _ _ _ _) => apply tidy_lookup_schema
  | |- tidy false _ _ (try_except _ _ _) =>
      apply (tidy_try_except false false); [|intros ?]
  | |- _ => tidy_step
  end.

Ltac tidy_side :=
  lazymatch goal with
  | |- benign (not_op _) => apply benign_not_op
  | |- benign _ => apply benign_True
  | |- _ => first [ by intros [] | by cbn | by (intros; cbn) ]
  end.

Ltac tidy_cell :=
  autounfold with cells; repeat tidy_cell_step; tidy_side.

(** The cells of the two notebooks, in order. *)
Definition data_layer_cells {W : Type} (env : Env W) (fuel : nat)
  : list (M W unit) :=
  [setup_cell; interactions_schema_cell env; items_schema_cell env;
   users_schema_cell env; create_dataset_group_cell env;
   wait_dataset_group_cell env fuel;
   create_interactions_dataset_cell env; create_items_dataset_cell env;
   create_users_dataset_cell env;
   region_cell env; bucket_cell env; upload_cell env; bucket_policy_cell env;
   iam_role_cell env;
   create_interactions_import_job_cell env; create_items_import_job_cell env;
   create_users_import_job_cell env; wait_import_jobs_cell env fuel].

Definition training_layer_cells {W : Type} (env : Env W) (fuel : nat)
  : list (M W unit) :=
  [recipes_cell env;
   create_related_solution_cell env; create_related_solution_version_cell env;
   create_recommend_solution_cell env;
   create_recommend_solution_version_cell env;
   create_ranking_solution_cell env; create_ranking_solution_version_cell env;
   wait_solution_versions_cell env fuel;
   metrics_cell env "related_solution_version_arn";
   metrics_cell env "recommend_solution_version_arn";
   metrics_cell env "ranking_solution_version_arn";
   create_related_campaign_cell env; create_recommend_campaign_cell env;
   create_ranking_campaign_cell env; wait_campaigns_cell env fuel;
   create_filter_cell env; wait_filter_cell env fuel].

(** [m1 ;;; (m2 ;;; ... ;;; mn)] *)
Fixpoint in_order {W : Type} (cells : list (M W unit)) : M W unit :=
  match cells with
  | [] => ret tt
  | [m] => m
  | m :: rest => m ;;; in_order rest
  end.

Lemma data_layer_in_order {W : Type} (env : Env W) fuel :
  data_layer env fuel = in_order (data_layer_cells env fuel).
Proof. reflexivity. Qed.

Lemma training_layer_in_order {W : Type} (env : Env W) fuel :
  training_layer env fuel = in_order (training_layer_cells env fuel).
Proof. reflexivity. Qed.

Lemma tidy_in_order {W : Type} strict P frame (cells : list (M W unit)) :
  Forall (tidy strict P frame) cells → tidy strict P frame (in_order cells).
Proof.
  induction 1 as [|m rest Hm Hrest IH]; [apply tidy_ret|].
  destruct rest as [|m' rest]; [done|].
  change (in_order (m :: m' :: rest)) with (m ;;; in_order (m' :: rest)).
  apply tidy_bind; [done | by intros].
Qed.

Section NeverDescribed.
Context {W : Type} (env : Env W) (fuel : nat).

Lemma data_layer_never_describes_datasets :
  Forall (tidy false (not_op "describe_dataset") (λ _, False))
         (data_layer_cells env fuel).
Proof.
  unfold data_layer_cells.
  repeat apply Forall_cons_2; try apply Forall_nil_2; tidy_cell.
Qed.

Lemma training_layer_never_describes_datasets :
  Forall (tidy false (not_op "describe_dataset") (λ _, False))
         (training_layer_cells env fuel).
Proof.
  unfold training_layer_cells.
  repeat apply Forall_cons_2; try apply Forall_nil_2; tidy_cell.
Qed.
End NeverDescribed.

(** The dataset group held by [dataset_group_arn] has been described. *)
Definition group_polled (g : gmap string value) (t : list event) : Prop :=
  ∃ v, g !! "dataset_group_arn"%string = Some v
       ∧ polled "describe_dataset_group" v t.

Definition datasets_guarded (t : list event) : Prop :=
  guarded "create_dataset" "datasetGroupArn" "describe_dataset_group"
          (λ _, True) t.

Section WaitPolls.
Context {W : Type} (env : Env W).

(** A single-resource wait that returns has had its describe call answered
    at least once. *)
Lemma wait_one_polls k fuel s s' :
  0 < w_budget k → w_var k ≠ "status"%string →
  wait_one env k fuel s = (Ok tt, s') →
  ∃ g t, globals s' !! w_var k = Some g
         ∧ trace s' = trace s ++ t
         ∧ polled (w_op k) g t.
Proof.
  intros Hbudget Hvar. unfold wait_one.
  unfold bind at 1, set_global at 1. unfold bind at 1, time_time at 1.
  cbn [world globals trace].
  destruct fuel as [|fuel]; [done|]. cbn [wait_while].
  unfold bind at 1, time_time at 1. cbn [world].
  destruct (Z.ltb_spec (clock env (world s)) (clock env (world s) + w_budget k))
    as [_|?]; [|lia].
  unfold bind at 1, get_global at 1. cbn [globals].
  rewrite lookup_insert_ne by done.
  destruct (globals s !! w_var k) as [g|] eqn:Hg; [|done].
  unfold bind at 1, call at 1. cbn [world globals trace].
  destruct (client_call env _ (world s)) as [[response|e] w']; [|done].
  set (s1 := mkState w' _ _).
  match goal with |- ?rest s1 = _ → _ => set (m := rest) end.
  assert (tidy false (λ _, True) (λ x, x = w_var k) m) as Hm.
  { subst m. tidy; try done; try congruence.
    apply tidy_wait_while; [apply benign_True | done | congruence]. }
  destruct (Hm s1) as (t & Ht & _ & Hgl & _).
  intros Hrun. rewrite Hrun in Ht, Hgl. cbn [fst snd] in *.
  exists g, (ECall (mkCall "personalize" (w_op k) [(w_param k, g)])
                   (inl response) :: t).
  split_and!.
  - rewrite (Hgl (w_var k) eq_refl). subst s1. cbn [globals].
    by rewrite lookup_insert_ne.
  - rewrite Ht. subst s1. cbn [trace]. by rewrite <- (assoc_L (++)).
  - exists (w_param k), response. apply list_elem_of_here.
Qed.
End WaitPolls.

Lemma hoare_tidy_trace {W : Type} strict P frame (m : M W unit)
                       (I : list event → Prop) :
  tidy strict P frame m →
  (∀ t t', I t → Forall P t' → I (t ++ t')) →
  hoare (λ s, I (trace s)) m (λ s, I (trace s)) (λ s, I (trace s)).
Proof.
  intros Hm HI s Hi. destruct (Hm s) as (t & Ht & HP & _).
  assert (I (trace (m s).2)) by (rewrite Ht; by apply HI).
  by destruct (m s).1.
Qed.

Lemma group_polled_keeps g g' t t' :
  (∀ x, x = "dataset_group_arn"%string → g' !! x = g !! x) →
  group_polled g t → group_polled g' (t ++ t').
Proof.
  intros Hframe (v & Hv & Hp). exists v. split; [|by apply polled_app].
  by rewrite Hframe.
Qed.

Section GroupFirst.
Context {W : Type} (env : Env W) (fuel : nat).

Let G (s : State W) : Prop := datasets_guarded (trace s).
Let GP (s : State W) : Prop :=
  datasets_guarded (trace s) ∧ group_polled (globals s) (trace s).

Lemma hoare_before_group :
  Forall (λ m, hoare G m G G)
    [setup_cell; interactions_schema_cell env; items_schema_cell env;
     users_schema_cell env; create_dataset_group_cell env].
Proof using Type.
  repeat apply Forall_cons_2; try apply Forall_nil_2;
    (eapply (hoare_tidy_trace false (not_op "create_dataset") (λ _, False));
     [tidy_cell | apply guarded_app]).
Qed.

Lemma hoare_after_datasets :
  Forall (λ m, hoare GP m GP G)
    [region_cell env; bucket_cell env; upload_cell env;
     bucket_policy_cell env; iam_role_cell env;
     create_interactions_import_job_cell env;
     create_items_import_job_cell env; create_users_import_job_cell env;
     wait_import_jobs_cell env fuel].
Proof using Type.
  repeat apply Forall_cons_2; try apply Forall_nil_2;
    (eapply (hoare_tidy false (not_op "create_dataset")
               (λ x, x = "dataset_group_arn"%string));
     [tidy_cell | apply guarded_app
     | intros g g' t t' Hframe Hg _; by eapply group_polled_keeps]).
Qed.

Lemma hoare_wait_group : hoare G (wait_dataset_group_cell env fuel) GP G.
Proof using Type.
  intros s Hs.
  assert (tidy false (not_op "create_dataset") (λ _, False)
               (wait_dataset_group_cell env fuel)) as Ht by tidy_cell.
  destruct (Ht s) as (t & Heq & HP & _).
  assert (G (wait_dataset_group_cell env fuel s).2) as HG.
  { unfold G. rewrite Heq. by apply guarded_app. }
  destruct (wait_dataset_group_cell env fuel s) as [[[]|e|] s'] eqn:Hrun;
    cbn [fst snd] in *; try done.
  split; [done|].
  apply wait_one_polls in Hrun as (g & t' & Hg & Ht' & Hp); [|done..].
  exists g. split; [done|]. rewrite Ht'. clear -Hp.
  destruct Hp as (p & response & Hin). exists p, response. set_solver.
Qed.

Lemma hoare_create_dataset type dataset_name schema_var var :
  var ≠ "dataset_group_arn"%string → schema_var ≠ "dataset_type"%string →
  hoare GP (create_dataset_cell env type dataset_name schema_var var) GP G.
Proof using Type.
  intros Hvar Hschema s [Hg (v & Hv & Hp)].
  destruct (create_dataset_cell _ _ _ _ _ s) as [res s'] eqn:Hrun.
  cbn [fst snd]. revert Hrun.
  unfold create_dataset_cell, create_resource.
  unfold bind at 1, set_global at 1.
  unfold bind at 1, get_global at 1. cbn [globals].
  rewrite lookup_insert_eq.
  unfold bind at 1, get_global at 1. cbn [globals].
  rewrite lookup_insert_ne by done. rewrite Hv.
  unfold bind at 1, get_global at 1. cbn [globals].
  rewrite lookup_insert_ne by done.
  destruct (globals s !! schema_var) as [schema_arn|];
    [|by intros [= <- <-]].
  unfold bind at 1 2, call at 1. cbn [world globals trace].
  destruct (client_call env _ (world s)) as [r w'].
  set (c := mkCall _ _ _).
  assert (datasets_guarded (trace s ++ [ECall c r])) as Hg'.
  { eapply guarded_snoc; [done| |done]. subst c. reflexivity. }
  destruct r as [response|e]; [|by intros [= <- <-]].
  unfold bind at 1 2, set_global at 1. cbn [world globals trace].
  destruct (getitem response "datasetArn") as [arn|e];
    [|by intros [= <- <-]].
  cbn [lift ret]. unfold bind, set_global, print, emit, ret.
  cbn [fst snd world globals trace]. intros [= <- <-]. split.
  - apply guarded_app; [done|]. by repeat constructor.
  - exists v. cbn [globals trace]. split.
    + rewrite lookup_insert_ne by done. rewrite lookup_insert_ne by done.
      by rewrite lookup_insert_ne.
    + by do 2 apply polled_app.
Qed.

Lemma data_layer_hoare : hoare G (data_layer env fuel) GP G.
Proof using Type.
  pose proof hoare_before_group as Hb.
  pose proof hoare_after_datasets as Ha.
  repeat (apply Forall_cons in Hb as [? Hb]).
  repeat (apply Forall_cons in Ha as [? Ha]).
  pose proof hoare_wait_group.
  assert (hoare GP (create_interactions_dataset_cell env) GP G)
    by (by apply hoare_create_dataset).
  assert (hoare GP (create_items_dataset_cell env) GP G)
    by (by apply hoare_create_dataset).
  assert (hoare GP (create_users_dataset_cell env) GP G)
    by (by apply hoare_create_dataset).
  unfold data_layer.
  repeat (eapply hoare_seq; [eassumption|]). eassumption.
Qed.
End GroupFirst.

(** ** A round reaches every string of the list *)

Lemma py_eq_str_l x y : py_eq (VStr x) y = true → y = VStr x.
Proof. destruct y; try done. simpl. by intros ->%String.eqb_eq. Qed.

Lemma list_remove_length y l l' :
  list_remove y l = Some l' → length l = S (length l').
Proof.
  revert l'. induction l as [|a l IH]; intros l'; [done|]. simpl.
  destruct (py_eq a y); [by intros [= ->]|].
  destruct (list_remove y l) as [l0|] eqn:E; [|done].
  intros [= <-]. simpl. by rewrite (IH l0).
Qed.

(** Removing the first item equal to [y], found at or before position [i],
    keeps every string among the first [i] items, other than [y] itself,
    among the first [i] items. *)
Lemma take_list_remove y l l' i x :
  list_remove y l = Some l' →
  VStr x ∈ take i l → VStr x = y ∨ VStr x ∈ take i l'.
Proof.
  revert l' i. induction l as [|a l IH]; intros l' i; [done|]. simpl.
  destruct (py_eq a y) eqn:Ha.
  - intros [= ->]. destruct i as [|i]; [set_solver|]. simpl.
    intros [<-|Hin]%elem_of_cons.
    + left. symmetry. by apply py_eq_str_l.
    + right. rewrite <- (take_drop i (take (S i) l')).
      rewrite take_take, Nat.min_l by lia. set_solver.
  - destruct (list_remove y l) as [l0|] eqn:E; [|done].
    intros [= <-]. destruct i as [|i]; [set_solver|]. simpl.
    intros [<-|Hin]%elem_of_cons; [set_solver|].
    destruct (IH l0 i eq_refl Hin); set_solver.
Qed.

Section Covers.
Context {W : Type} (env : Env W).

Lemma poll_body_ok k arn arns s arns' s' :
  poll_body env k arn arns s = (Ok arns', s') →
  ∃ response t,
    trace s' = trace s ++ ECall (describe_call k arn) (inl response) :: t
    ∧ (arns' = arns ∨ list_remove arn arns = Some arns').
Proof.
  assert (tidy false (λ _, True) (λ _, False)
            (poll_body env k arn arns)) as Htidy.
  { apply tidy_poll_body; [apply benign_True | done]. }
  unfold poll_body, describe. unfold bind at 1, call at 1.
  fold (describe_call k arn).
  destruct (client_call env _ (world s)) as [[response|e] w']; [|done].
  set (s1 := mkState w' _ _).
  match goal with |- ?rest s1 = _ → _ => set (m := rest) end.
  assert (tidy false (λ _, True) (λ _, False) m) as Hm.
  { subst m. tidy; try done. }
  destruct (Hm s1) as (t & Ht & _).
  intros Hrun. rewrite Hrun in Ht. cbn [snd] in Ht.
  exists response, t. split.
  { rewrite Ht. subst s1. cbn [trace]. by rewrite <- (assoc_L (++)). }
  revert Hrun. subst m. unfold bind, lift, remove, print, emit, ret, raise.
  repeat case_match; intros Hrun; cbn in Hrun; simplify_eq; auto.
Qed.

Lemma for_reversed_covers k n arns s arns' s' :
  (n ≤ length arns)%nat →
  for_reversed env k n arns s = (Ok arns', s') →
  ∃ t, trace s' = trace s ++ t ∧
       ∀ x, VStr x ∈ take n arns → polled (describe_op k) (VStr x) t.
Proof.
  revert arns s. induction n as [|n IH]; intros arns s Hlen.
  { intros [= <- <-]. exists []. rewrite app_nil_r. split; [done|].
    intros x Hin. by apply elem_of_nil in Hin. }
  cbn [for_reversed].
  destruct (arns !! n) as [arn|] eqn:Harn.
  2:{ apply lookup_ge_None in Harn. lia. }
  unfold bind.
  destruct (poll_body env k arn arns s) as [[arns1| |] s1] eqn:Hbody;
    try done.
  apply poll_body_ok in Hbody as (response & t1 & Ht1 & Harns1).
  intros Hrest.
  assert (n ≤ length arns1)%nat as Hlen1.
  { destruct Harns1 as [->|Hrem]; [lia|].
    apply list_remove_length in Hrem. lia. }
  destruct (IH arns1 s1 Hlen1 Hrest) as (t2 & Ht2 & Hcov).
  exists ((ECall (describe_call k arn) (inl response) :: t1) ++ t2).
  split; [by rewrite Ht2, Ht1, <- (assoc_L (++))|].
  intros x Hin.
  assert (polled (describe_op k) arn
            (ECall (describe_call k arn) (inl response) :: t1)) as Hnow.
  { exists (arn_param k), response. apply list_elem_of_here. }
  rewrite (take_S_r _ _ _ Harn) in Hin.
  apply elem_of_app in Hin as [Hin|Hin];
    [|apply list_elem_of_singleton in Hin as ->; by apply polled_app].
  assert (VStr x = arn ∨ VStr x ∈ take n arns1) as [->|Hin1].
  { destruct Harns1 as [->|Hrem]; [by right|]. by eapply take_list_remove. }
  - by apply polled_app.
  - destruct (Hcov x Hin1) as (p & r & Hp). exists p, r. set_solver.
Qed.

(** A multi-resource wait that returns has described every string of its
    list. *)
Lemma poll_many_covers k fuel arns s arns' s' :
  poll_many env k fuel arns s = (Ok arns', s') →
  ∃ t, trace s' = trace s ++ t ∧
       ∀ x, VStr x ∈ arns → polled (describe_op k) (VStr x) t.
Proof.
  unfold poll_many, bind at 1, time_time at 1.
  destruct fuel as [|fuel]; [done|]. rewrite poll_while_step.
  destruct (Z.ltb_spec (clock env (world s)) (clock env (world s) + max_wait))
    as [_|?]; [|unfold max_wait in *; lia].
  destruct (for_reversed env k (length arns) arns s) as [[arns1| |] s1]
    eqn:Hround; try done.
  apply for_reversed_covers in Hround as (t1 & Ht1 & Hcov); [|done].
  rewrite firstn_all in Hcov.
  destruct (0 <? length arns1)%nat.
  - set (s2 := mkState _ _ _).
    assert (tidy false (λ _, True) (λ _, False)
              (poll_while env k fuel (clock env (world s) + max_wait) arns1))
      as Hrest by (apply tidy_poll_while; [apply benign_True | done]).
    destruct (Hrest s2) as (t2 & Ht2 & _).
    intros Hrun. rewrite Hrun in Ht2. cbn [snd] in Ht2.
    exists (t1 ++ [EPrint (progress_msg k); ESleep 60] ++ t2). split.
    + rewrite Ht2. subst s2. cbn [trace]. rewrite Ht1.
      by rewrite <- !(assoc_L (++)).
    + intros x Hin. by apply polled_app, Hcov.
  - intros [= <- <-]. exists (t1 ++ [EPrint (done_msg k)]). split.
    + cbn [trace]. by rewrite Ht1, <- (assoc_L (++)).
    + intros x Hin. by apply polled_app, Hcov.
Qed.
End Covers.

(** ** Solution versions before campaigns *)

Definition is_version_var (x : string) : Prop :=
  x = "related_solution_version_arn"%string
  ∨ x = "recommend_solution_version_arn"%string
  ∨ x = "ranking_solution_version_arn"%string.

(** Every string held by one of the three solution version variables has
    been described. *)
Definition versions_polled (g : gmap string value) (t : list event) : Prop :=
  ∀ v x, is_version_var v → g !! v = Some (VStr x) →
         polled "describe_solution_version" (VStr x) t.

Definition campaigns_guarded (t : list event) : Prop :=
  guarded "create_campaign" "solutionVersionArn" "describe_solution_version"
          is_str t.

Lemma versions_polled_keeps g g' t t' :
  (∀ x, is_version_var x → g' !! x = g !! x) →
  versions_polled g t → versions_polled g' (t ++ t').
Proof.
  intros Hframe Hvp v x Hv Hx. apply polled_app, (Hvp v x Hv).
  by rewrite <- Hframe.
Qed.

Lemma bind_get_global_ok {W A} v (k : value → M W A) s r s' :
  (let* a := get_global v in k a) s = (Ok r, s') →
  ∃ a, globals s !! v = Some a ∧ k a s = (Ok r, s').
Proof.
  unfold bind, get_global. destruct (globals s !! v) as [a|]; [|done].
  intros Hrun. by exists a.
Qed.

Ltac version_side :=
  first [ tidy_side
        | by (cbn; unfold is_version_var; intros [?|[?|?]]) ].

Section VersionsFirst.
Context {W : Type} (env : Env W) (fuel : nat).

Let G (s : State W) : Prop := campaigns_guarded (trace s).
Let GP (s : State W) : Prop :=
  campaigns_guarded (trace s) ∧ versions_polled (globals s) (trace s).

Lemma hoare_before_versions :
  Forall (λ m, hoare G m G G)
    [recipes_cell env;
     create_related_solution_cell env; create_related_solution_version_cell env;
     create_recommend_solution_cell env;
     create_recommend_solution_version_cell env;
     create_ranking_solution_cell env;
     create_ranking_solution_version_cell env].
Proof using Type.
  repeat apply Forall_cons_2; try apply Forall_nil_2;
    (eapply (hoare_tidy_trace false (not_op "create_campaign") (λ _, False));
     [tidy_cell | apply guarded_app]).
Qed.

Lemma hoare_after_versions :
  Forall (λ m, hoare GP m GP G)
    [metrics_cell env "related_solution_version_arn";
     metrics_cell env "recommend_solution_version_arn";
     metrics_cell env "ranking_solution_version_arn";
     wait_campaigns_cell env fuel; create_filter_cell env;
     wait_filter_cell env fuel].
Proof using Type.
  repeat apply Forall_cons_2; try apply Forall_nil_2;
    (eapply (hoare_tidy false (not_op "create_campaign") is_version_var);
     [autounfold with cells; repeat tidy_cell_step; version_side
     | apply guarded_app
     | intros g g' t t' Hframe Hg _; by eapply versions_polled_keeps]).
Qed.

Lemma hoare_wait_versions :
  hoare G (wait_solution_versions_cell env fuel) GP G.
Proof using Type.
  intros s Hs.
  assert (tidy false (not_op "create_campaign") (λ _, False)
               (wait_solution_versions_cell env fuel)) as Ht by tidy_cell.
  destruct (Ht s) as (t & Heq & HP & _).
  assert (G (wait_solution_versions_cell env fuel s).2) as HG.
  { unfold G. rewrite Heq. by apply guarded_app. }
  destruct (wait_solution_versions_cell env fuel s) as [[[]|e|] s'] eqn:Hrun;
    cbn [fst snd] in *; try done.
  split; [done|]. revert Hrun.
  unfold wait_solution_versions_cell, poll_cell.
  intros (a1 & H1 & Hrun)%bind_get_global_ok.
  apply bind_get_global_ok in Hrun as (a2 & H2 & Hrun).
  apply bind_get_global_ok in Hrun as (a3 & H3 & Hrun).
  revert Hrun. unfold bind at 1.
  destruct (poll_many _ _ _ _ s) as [[left| |] s1] eqn:Hpoll; try done.
  unfold set_global. intros [= <-]. cbn [globals trace].
  assert (globals s1 = globals s) as Hgl.
  { assert (tidy false (λ _, True) (λ _, True)
              (poll_many env solution_versions fuel [a1; a2; a3])) as Hm
      by (apply tidy_poll_many; [apply benign_True | done]).
    destruct (Hm s) as (? & _ & _ & Hframe & _). rewrite Hpoll in Hframe.
    apply map_eq. intros y. by apply Hframe. }
  apply poll_many_covers in Hpoll as (t' & -> & Hcov).
  intros v x Hv Hx. apply polled_app_r. apply Hcov. rewrite Hgl in Hx.
  destruct Hv as [Hv|[Hv|Hv]]; subst v;
    rewrite lookup_insert_ne in Hx by done; set_solver.
Qed.

Lemma hoare_create_campaign campaign_name version_var var :
  is_version_var version_var → ¬ is_version_var var →
  hoare GP (create_campaign_cell env campaign_name version_var var) GP G.
Proof using Type.
  intros Hversion Hvar s [Hg Hvp].
  destruct (create_campaign_cell _ _ _ _ s) as [res s'] eqn:Hrun.
  cbn [fst snd]. revert Hrun.
  unfold create_campaign_cell, create_resource.
  unfold bind at 1, get_global at 1.
  destruct (globals s !! version_var) as [a|] eqn:Ha;
    [|by intros [= <- <-]].
  unfold bind at 1 2, call at 1.
  destruct (client_call env _ (world s)) as [r w'].
  set (c := mkCall _ _ _).
  assert (campaigns_guarded (trace s ++ [ECall c r])) as Hg'.
  { eapply (guarded_snoc _ _ _ _ _ _ _ a); [done|by subst c|].
    intros [x ->]. by eapply Hvp. }
  destruct r as [response|e]; [|by intros [= <- <-]].
  unfold bind at 1 2, set_global at 1. cbn [world globals trace].
  destruct (getitem response "campaignArn") as [arn|e];
    [|by intros [= <- <-]].
  cbn [lift ret]. unfold bind, set_global, print, emit, ret.
  cbn [fst snd world globals trace]. intros [= <- <-]. split.
  - apply guarded_app; [done|]. by repeat constructor.
  - cbn [globals trace]. intros v x Hv Hx.
    do 2 apply polled_app. apply (Hvp v x Hv).
    rewrite lookup_insert_ne in Hx by (by intros ->).
    rewrite lookup_insert_ne in Hx; [done|].
    intros <-. unfold is_version_var in Hv. by destruct Hv as [?|[?|?]].
Qed.

Lemma training_layer_hoare : hoare G (training_layer env fuel) GP G.
Proof using Type.
  pose proof hoare_before_versions as Hb.
  pose proof hoare_after_versions as Ha.
  repeat (apply Forall_cons in Hb as [? Hb]).
  repeat (apply Forall_cons in Ha as [? Ha]).
  pose proof hoare_wait_versions.
  assert (hoare GP (create_related_campaign_cell env) GP G).
  { apply hoare_create_campaign; unfold is_version_var; [auto|].
    by intros [?|[?|?]]. }
  assert (hoare GP (create_recommend_campaign_cell env) GP G).
  { apply hoare_create_campaign; unfold is_version_var; [auto|].
    by intros [?|[?|?]]. }
  assert (hoare GP (create_ranking_campaign_cell env) GP G).
  { apply hoare_create_campaign; unfold is_version_var; [auto|].
    by intros [?|[?|?]]. }
  unfold training_layer.
  repeat (eapply hoare_seq; [eassumption|]). eassumption.
Qed.
End VersionsFirst.

(** ** How a wait ends *)

Section Exits.
Context {W : Type} (env : Env W).

Lemma wait_while_exit k fuel max s s' :
  wait_while env k fuel max s = (Ok tt, s') →
  max ≤ clock env (world s')
  ∨ ∃ status, globals s' !! "status"%string = Some status
              ∧ terminal_status status = true.
Proof.
  revert s. induction fuel as [|fuel IH]; intros s; [done|].
  cbn [wait_while]. unfold bind at 1, time_time at 1.
  destruct (Z.ltb_spec (clock env (world s)) max) as [_|Hlate];
    [|intros [= <-]; by left].
  intros (arn & _ & Hrun)%bind_get_global_ok. revert Hrun.
  unfold bind at 1, call at 1.
  destruct (client_call env _ (world s)) as [[response|e] w']; [|done].
  unfold bind at 1. destruct (getitem response (w_key k)) as [record|e];
    [|done].
  cbn [lift ret]. unfold bind at 1.
  destruct (getitem record "status") as [status|e]; [|done].
  cbn [lift ret]. unfold bind at 1 2, set_global at 1, print at 1, emit at 1.
  cbn [world globals trace].
  fold (terminal_status status).
  destruct (terminal_status status) eqn:Hstatus.
  - intros [= <-]. right. exists status. cbn [globals].
    by rewrite lookup_insert_eq.
  - unfold bind at 1, time_sleep at 1. cbn [world globals trace]. apply IH.
Qed.

Lemma wait_one_exit k fuel s s' :
  wait_one env k fuel s = (Ok tt, s') →
  clock env (world s) + w_budget k ≤ clock env (world s')
  ∨ ∃ status, globals s' !! "status"%string = Some status
              ∧ terminal_status status = true.
Proof.
  unfold wait_one. unfold bind at 1, set_global at 1.
  unfold bind at 1, time_time at 1. cbn [world globals trace].
  apply wait_while_exit.
Qed.

Lemma poll_while_exit k fuel max arns s arns' s' :
  poll_while env k fuel max arns s = (Ok arns', s') →
  arns' = [] ∨ max ≤ clock env (world s').
Proof.
  revert arns s. induction fuel as [|fuel IH]; intros arns s; [done|].
  rewrite poll_while_step.
  destruct (Z.ltb_spec (clock env (world s)) max) as [_|Hlate];
    [|intros [= <- <-]; by right].
  destruct (for_reversed env k (length arns) arns s) as [[arns1| |] s1];
    try done.
  destruct arns1 as [|a arns1]; cbn [length Nat.ltb Nat.leb].
  - intros [= <- <-]. by left.
  - apply IH.
Qed.

Lemma poll_many_exit k fuel arns s arns' s' :
  poll_many env k fuel arns s = (Ok arns', s') →
  arns' = [] ∨ clock env (world s) + max_wait ≤ clock env (world s').
Proof. unfold poll_many, bind, time_time. apply poll_while_exit. Qed.
End Exits.

Lemma added_tidy {W A : Type} strict P frame (m : M W A) s :
  tidy strict P frame m → Forall P (added m s).
Proof.
  intros Hm. destruct (Hm s) as (t & Ht & HP & _). unfold added.
  by rewrite Ht, drop_app_length.
Qed.

Lemma hoare_from_nil {W : Type} (I : list event → Prop) (m : M W unit)
                     (Post : State W → Prop) s :
  hoare (λ s, I (trace s)) m (λ s, I (trace s) ∧ Post s) (λ s, I (trace s)) →
  I [] → trace s = [] → I (trace (m s).2).
Proof.
  intros Hm Hnil Hs. specialize (Hm s). cbn beta in Hm.
  rewrite Hs in Hm. specialize (Hm Hnil).
  destruct (m s).1; [apply Hm | done | done].
Qed.

(** C9, as amended.  Of the entities that are created asynchronously, the
    program waits for two before it passes their identifiers on.  In the
    data layer every [create_dataset] call comes after an answered
    [describe_dataset_group] call on the dataset group it names; in the
    training layer every [create_campaign] call that names a solution
    version by a string comes after an answered [describe_solution_version]
    call on that string.  Neither notebook ever calls [describe_dataset]:
    the datasets are handed to their import jobs without any poll.  And a
    wait that returns has not always seen a terminal status: the wait for
    the dataset group ends with [status] at ACTIVE or CREATE FAILED or with
    the three hours elapsed, the wait for the solution versions with an
    empty list or with the three hours elapsed. *)
Theorem only_group_and_versions_are_awaited {W : Type} (env : Env W)
                                            (fuel : nat) :
  (∀ s, trace s = [] → datasets_guarded (trace (data_layer env fuel s).2))
  ∧ (∀ s, trace s = [] →
          campaigns_guarded (trace (training_layer env fuel s).2))
  ∧ (∀ s, Forall (not_op "describe_dataset") (added (data_layer env fuel) s)
          ∧ Forall (not_op "describe_dataset")
                   (added (training_layer env fuel) s))
  ∧ (∀ s, (wait_dataset_group_cell env fuel s).1 = Ok tt →
          let s' := (wait_dataset_group_cell env fuel s).2 in
          clock env (world s) + 3 * 60 * 60 ≤ clock env (world s')
          ∨ ∃ status, globals s' !! "status"%string = Some status
                      ∧ terminal_status status = true)
  ∧ (∀ s, (wait_solution_versions_cell env fuel s).1 = Ok tt →
          let s' := (wait_solution_versions_cell env fuel s).2 in
          globals s' !! "soln_ver_arns"%string = Some (VList [])
          ∨ clock env (world s) + max_wait ≤ clock env (world s')).
Proof.
  split_and!.
  - intros s Hs.
    apply (hoare_from_nil datasets_guarded _ _ s (data_layer_hoare env fuel));
      [apply guarded_nil | done].
  - intros s Hs.
    apply (hoare_from_nil campaigns_guarded _ _ s
             (training_layer_hoare env fuel)); [apply guarded_nil | done].
  - intros s. split.
    + eapply added_tidy. rewrite data_layer_in_order.
      apply tidy_in_order, data_layer_never_describes_datasets.
    + eapply added_tidy. rewrite training_layer_in_order.
      apply tidy_in_order, training_layer_never_describes_datasets.
  - intros s Hok s'. subst s'. unfold wait_dataset_group_cell in *.
    destruct (wait_one env dataset_group_wait fuel s) as [res s'] eqn:Hrun.
    cbn [fst snd] in *. subst res.
    apply (wait_one_exit env dataset_group_wait fuel s s' Hrun).
  - intros s Hok s'. subst s'.
    destruct (wait_solution_versions_cell env fuel s) as [res s'] eqn:Hrun.
    cbn [fst snd] in *. subst res. revert Hrun.
    unfold wait_solution_versions_cell, poll_cell.
    intros (a1 & _ & Hrun)%bind_get_global_ok.
    apply bind_get_global_ok in Hrun as (a2 & _ & Hrun).
    apply bind_get_global_ok in Hrun as (a3 & _ & Hrun).
    revert Hrun. unfold bind at 1.
    destruct (poll_many _ _ _ _ s) as [[left| |] s1] eqn:Hpoll; try done.
    unfold set_global. intros [= <-]. cbn [world globals].
    apply poll_many_exit in Hpoll as [->|Hlate]; [left | by right].
    by rewrite lookup_insert_eq.
Qed.

Lemma wait_group_returns :
  (wait_dataset_group_cell sample_env 5 waiting_for_group).1 = Ok tt.
Proof. vm_compute. reflexivity. Qed.

Definition versions_stored : State Scripted.world :=
  mkState (Scripted.mkWorld 0 [])
          (<["related_solution_version_arn"%string := VStr "arn:A"]>
             (<["recommend_solution_version_arn"%string := VStr "arn:B"]>
                {[ "ranking_solution_version_arn"%string := VStr "arn:C" ]}))
          [].

Lemma wait_versions_returns :
  (wait_solution_versions_cell sample_env 5 versions_stored).1 = Ok tt.
Proof. vm_compute. reflexivity. Qed.

Lemma only_group_and_versions_are_awaited_witness :
  datasets_guarded (trace (data_layer sample_env 5 (Scripted.start 0)).2)
  ∧ campaigns_guarded (trace (training_layer sample_env 5 waiting_for_group).2)
  ∧ (let s' := (wait_dataset_group_cell sample_env 5 waiting_for_group).2 in
     clock sample_env (world waiting_for_group) + 3 * 60 * 60
     ≤ clock sample_env (world s')
     ∨ ∃ status, globals s' !! "status"%string = Some status
                 ∧ terminal_status status = true)
  ∧ (let s' := (wait_solution_versions_cell sample_env 5 versions_stored).2 in
     globals s' !! "soln_ver_arns"%string = Some (VList [])
     ∨ clock sample_env (world versions_stored) + max_wait
       ≤ clock sample_env (world s')).
Proof.
  destruct (only_group_and_versions_are_awaited sample_env 5)
    as (Hdata & Htraining & _ & Hgroup & Hversions).
  split; [|split; [|split]].
  - apply (Hdata (Scripted.start 0)). reflexivity.
  - apply (Htraining waiting_for_group). reflexivity.
  - apply (Hgroup waiting_for_group), wait_group_returns.
  - apply (Hversions versions_stored), wait_versions_returns.
Defined.

(** The trace of the data layer in the sample world, split at the first
    call of an operation. *)
Fixpoint first_call (o : string) (t : list event)
  : option (list event * Call * (value + exn) * list event) :=
  match t with
  | [] => None
  | e :: rest =>
      match e with
      | ECall c r =>
          if String.eqb (op c) o then Some ([], c, r, rest)
          else match first_call o rest with
               | Some (t1, c', r', t2) => Some (e :: t1, c', r', t2)
               | None => None
               end
      | _ => match first_call o rest with
             | Some (t1, c', r', t2) => Some (e :: t1, c', r', t2)
             | None => None
             end
      end
  end.

Definition sample_split :
  option (list event * Call * (value + exn) * list event) :=
  Eval vm_compute in
    first_call "create_dataset_import_job"
               (trace (data_layer sample_env 5 (Scripted.start 0)).2).

Definition sample_before : list event :=
  Eval vm_compute in
    match sample_split with Some (t1, _, _, _) => t1 | None => [] end.

Definition sample_job_call : Call :=
  Eval vm_compute in
    match sample_split with
    | Some (_, c, _, _) => c
    | None => mkCall "" "" []
    end.

Definition sample_job_answer : value + exn :=
  Eval vm_compute in
    match sample_split with Some (_, _, r, _) => r | None => inl VNone end.

Definition sample_after : list event :=
  Eval vm_compute in
    match sample_split with Some (_, _, _, t2) => t2 | None => [] end.

(** An answered call of operation [o] whose response holds the string [x]
    under [key]. *)
Definition returned_by (o key x : string) (e : event) : bool :=
  match e with
  | ECall c (inl response) =>
      String.eqb (op c) o
      && match getitem response key with
         | inl v => py_eq v (VStr x)
         | inr _ => false
         end
  | _ => false
  end.

(** A call whose only argument is the string [x]. *)
Definition about (x : string) (e : event) : bool :=
  match e with
  | ECall c _ =>
      match kwargs c with
      | [(_, v)] => py_eq v (VStr x)
      | _ => false
      end
  | _ => false
  end.

Lemma polled_about o x t : polled o (VStr x) t → existsb (about x) t = true.
Proof.
  intros (p & response & Hin). apply existsb_exists.
  eexists. split; [by apply list_elem_of_In|]. cbn.
  apply py_eq_str_true. done.
Qed.

Definition interactions_dataset : string :=
  "arn:aws:personalize:::dataset/personalize-immersion-day-dataset-interactions".

(** C9, as stated, fails for the datasets.  In a world where every call
    succeeds at once the data layer runs to its end; its first
    [create_dataset_import_job] call passes the identifier that
    [create_dataset] returned for the interactions dataset, and no call
    before it, of any operation, asked about that identifier. *)
Lemma datasets_are_not_polled :
  (data_layer sample_env 5 (Scripted.start 0)).1 = Ok tt
  ∧ trace (data_layer sample_env 5 (Scripted.start 0)).2
    = sample_before ++ ECall sample_job_call sample_job_answer :: sample_after
  ∧ op sample_job_call = "create_dataset_import_job"%string
  ∧ assoc "datasetArn" (kwargs sample_job_call)
    = Some (VStr interactions_dataset)
  ∧ existsb (returned_by "create_dataset" "datasetArn" interactions_dataset)
            sample_before = true
  ∧ (∀ o, ¬ polled o (VStr interactions_dataset) sample_before)
  ∧ ¬ guarded "create_dataset_import_job" "datasetArn" "describe_dataset"
              (λ _, True)
              (trace (data_layer sample_env 5 (Scripted.start 0)).2).
Proof.
  assert (∀ o, ¬ polled o (VStr interactions_dataset) sample_before) as Hno.
  { intros o Hp%polled_about. revert Hp. vm_compute. discriminate. }
  assert (trace (data_layer sample_env 5 (Scripted.start 0)).2
          = sample_before ++ ECall sample_job_call sample_job_answer
                          :: sample_after) as Hsplit
    by (vm_compute; reflexivity).
  split_and!;
    [vm_compute; reflexivity | exact Hsplit | vm_compute; reflexivity
    | vm_compute; reflexivity | vm_compute; reflexivity | exact Hno |].
  intros Hg.
  destruct (Hg _ _ _ _ Hsplit eq_refl) as (g & Hkey & Hp).
  assert (g = VStr interactions_dataset) as -> by (by injection Hkey).
  by apply (Hno "describe_dataset"%string), Hp.
Qed.

(** ** The region of the notebook instance *)

(** How often the character [c] occurs in [s]. *)
Fixpoint count_char (c : Ascii.ascii) (s : string) : nat :=
  match s with
  | EmptyString => 0
  | String c' rest =>
      (if Ascii.eqb c' c then 1 else 0) + count_char c rest
  end.

(** [sep.join(parts)] *)
Fixpoint join (sep : string) (parts : list string) : string :=
  match parts with
  | [] => ""
  | [part] => part
  | part :: rest => part ++ sep ++ join sep rest
  end.

Lemma split_on_not_nil sep s : split_on sep s ≠ [].
Proof.
  destruct s as [|c rest]; [done|]. cbn.
  destruct (Ascii.eqb c sep); [done|]. by destruct (split_on sep rest).
Qed.

Lemma split_on_length sep s :
  length (split_on sep s) = S (count_char sep s).
Proof.
  induction s as [|c rest IH]; [done|]. cbn.
  destruct (Ascii.eqb c sep); cbn; [by rewrite IH|].
  pose proof (split_on_not_nil sep rest).
  destruct (split_on sep rest); [done|]. by rewrite <- IH.
Qed.

(** Splitting loses nothing: joining the parts gives the string back. *)
Lemma join_split_on sep s : join (String sep "") (split_on sep s) = s.
Proof.
  induction s as [|c rest IH]; [done|]. cbn [split_on].
  pose proof (split_on_not_nil sep rest) as Hne.
  destruct (Ascii.eqb_spec c sep) as [->|_].
  - destruct (split_on sep rest) as [|p ps]; [done|].
    cbn [join]. cbn. by rewrite <- IH.
  - destruct (split_on sep rest) as [|p ps]; [done|].
    destruct ps as [|q ps]; cbn in *; by rewrite <- IH.
Qed.

(** No part holds the separator. *)
Lemma split_on_parts sep s :
  Forall (λ part, count_char sep part = 0%nat) (split_on sep s).
Proof.
  induction s as [|c rest IH]; [by repeat constructor|]. cbn [split_on].
  pose proof (split_on_not_nil sep rest) as Hne.
  destruct (Ascii.eqb c sep) eqn:E; [by constructor|].
  destruct (split_on sep rest) as [|p ps]; [done|].
  apply Forall_cons in IH as [Hp Hps]. constructor; [|done].
  cbn. by rewrite E.
Qed.

Lemma split_on_plain sep a :
  count_char sep a = 0%nat → split_on sep a = [a].
Proof.
  induction a as [|c rest IH]; [done|]. cbn.
  destruct (Ascii.eqb c sep); [done|]. intros H. by rewrite IH.
Qed.

Lemma split_on_field sep a b :
  count_char sep a = 0%nat →
  split_on sep (a ++ String sep b) = a :: split_on sep b.
Proof.
  induction a as [|c rest IH].
  { intros _. change ("" ++ String sep b)%string with (String sep b).
    cbn. by rewrite Ascii.eqb_refl. }
  change (String c rest ++ String sep b)%string
    with (String c (rest ++ String sep b)).
  cbn. destruct (Ascii.eqb c sep); [done|]. intros H. by rewrite IH.
Qed.

Definition colon : Ascii.ascii := ":"%char.

Lemma split_on_colon a x :
  count_char colon a = 0%nat →
  split_on colon (a ++ ":" ++ x) = a :: split_on colon x.
Proof. intros H. exact (split_on_field colon a x H). Qed.

Lemma fourth_field a b c r rest :
  count_char colon a = 0%nat → count_char colon b = 0%nat →
  count_char colon c = 0%nat → count_char colon r = 0%nat →
  split_colon_index (VStr (a ++ ":" ++ b ++ ":" ++ c ++ ":" ++ r ++ ":" ++ rest))
                    3
  = inl (VStr r).
Proof.
  intros Ha Hb Hc Hr. unfold split_colon_index.
  change ":"%char with colon.
  by rewrite !split_on_colon.
Qed.

Lemma too_few_fields x :
  (count_char colon x < 3)%nat → split_colon_index (VStr x) 3 = inr IndexError.
Proof.
  intros Hx. unfold split_colon_index. change ":"%char with colon.
  rewrite lookup_ge_None_2; [done|]. rewrite split_on_length. lia.
Qed.

(** X1.  The region cell takes the fourth colon-separated field of the
    instance's [ResourceArn].  For an ARN whose first four fields are
    followed by more, the cell binds [region] to the fourth and prints it;
    for a string with fewer than four fields it raises [IndexError] with
    [region] left as it was. *)
Theorem region_is_fourth_field {W : Type} (env : Env W) (s : State W)
                               (data : value) (w' : W) :
  read_json env "/opt/ml/metadata/resource-metadata.json" (world s)
  = (inl data, w') →
  (∀ a b c r rest,
     count_char colon a = 0%nat → count_char colon b = 0%nat →
     count_char colon c = 0%nat → count_char colon r = 0%nat →
     let arn := VStr (a ++ ":" ++ b ++ ":" ++ c ++ ":" ++ r ++ ":" ++ rest) in
     getitem data "ResourceArn" = inl arn →
     region_cell env s =
     (Ok tt,
      mkState w'
        (<["region"%string := VStr r]>
           (<["resource_arn"%string := arn]>
              (<["data"%string := data]> (globals s))))
        (trace s ++ [EPrint r])))
  ∧ (∀ x,
       getitem data "ResourceArn" = inl (VStr x) →
       (count_char colon x < 3)%nat →
       region_cell env s =
       (Raise IndexError,
        mkState w'
          (<["resource_arn"%string := VStr x]>
             (<["data"%string := data]> (globals s)))
          (trace s))).
Proof.
  intros Hread. split.
  - intros a b c r rest Ha Hb Hc Hr arn Hget.
    pose proof (fourth_field a b c r rest Ha Hb Hc Hr) as Hfield.
    fold arn in Hfield. clearbody arn.
    unfold region_cell, bind, load_json. rewrite Hread. cbn.
    rewrite Hget. cbn -[split_colon_index]. by rewrite Hfield.
  - intros x Hget Hx.
    unfold region_cell, bind, load_json. rewrite Hread. cbn.
    rewrite Hget. cbn -[split_colon_index]. by rewrite too_few_fields.
Qed.

Definition short_arn_env : Env Scripted.world :=
  Scripted.env (λ _ _, inl (VDict [("ResourceArn", VStr "arn:aws:sagemaker")]))
               1.

Lemma region_is_fourth_field_witness :
  region_cell sample_env (Scripted.start 0) =
  (Ok tt,
   mkState (Scripted.mkWorld 0 [])
     (<["region"%string := VStr "us-west-2"]>
        (<["resource_arn"%string :=
             VStr "arn:aws:sagemaker:us-west-2:123456789012:notebook-instance/retail"]>
           (<["data"%string :=
                VDict [("ResourceArn",
                        VStr "arn:aws:sagemaker:us-west-2:123456789012:notebook-instance/retail")]]>
              ∅)))
     [EPrint "us-west-2"])
  ∧ region_cell short_arn_env (Scripted.start 0) =
    (Raise IndexError,
     mkState (Scripted.mkWorld 0 [])
       (<["resource_arn"%string := VStr "arn:aws:sagemaker"]>
          (<["data"%string :=
               VDict [("ResourceArn", VStr "arn:aws:sagemaker")]]> ∅))
       []).
Proof.
  split.
  - exact (proj1 (region_is_fourth_field sample_env (Scripted.start 0) _ _
                    eq_refl)
             "arn" "aws" "sagemaker" "us-west-2"
             "123456789012:notebook-instance/retail"
             eq_refl eq_refl eq_refl eq_refl eq_refl).
  - exact (proj2 (region_is_fourth_field short_arn_env (Scripted.start 0) _ _
                    eq_refl)
             "arn:aws:sagemaker" eq_refl ltac:(vm_compute; lia)).
Defined.

(** ** What the schema recovery binds *)

(** A listed schema: its name and its ARN. *)
Definition listed (entry : value) (na : string * value) : Prop :=
  getitem entry "name" = inl (VStr na.1)
  ∧ getitem entry "schemaArn" = inl na.2.

Definition named (wanted : string) (nas : list (string * value))
  : list (string * value) :=
  filter (λ na, na.1 = wanted) nas.

Definition using_line {W : Type} (env : Env W) (na : string * value) : event :=
  EPrint ("Using existing schema: " ++ py_str env na.2).

Lemma lookup_schema_run {W : Type} (env : Env W) wanted var entries nas s :
  Forall2 listed entries nas →
  lookup_schema env wanted var entries s =
  (Ok tt,
   mkState (world s)
     (foldl (λ g na, <[var := na.2]> g) (globals s) (named wanted nas))
     (trace s ++ (using_line env <$> named wanted nas))).
Proof.
  intros Hall. revert s.
  induction Hall as [|entry na entries nas [Hn Ha] _ IH]; intros s.
  { cbn. rewrite app_nil_r. by destruct s. }
  cbn [lookup_schema]. unfold bind at 1. rewrite Hn. cbn [lift ret].
  unfold bind at 1. rewrite py_eq_str. unfold named.
  destruct (String.eqb_spec na.1 wanted) as [Heq|Hne].
  - rewrite filter_cons_True by done.
    unfold bind at 1. rewrite Ha. cbn [lift ret].
    unfold bind at 1, set_global at 1, print at 1, emit at 1.
    cbn [world globals trace]. rewrite IH. cbn [world globals trace].
    cbn [foldl fmap list_fmap]. rewrite <- (assoc_L (++)). reflexivity.
  - rewrite filter_cons_False by done. cbn [ret]. by rewrite IH.
Qed.

Lemma foldl_insert_last (var : string) (g : gmap string value)
                        (l : list (string * value)) :
  foldl (λ g na, <[var := na.2]> g) g l !! var
  = match last l with Some na => Some na.2 | None => g !! var end.
Proof.
  revert g. induction l as [|na l IH]; intros g; [done|].
  cbn [foldl]. rewrite IH, last_cons.
  destruct (last l); [done|]. by rewrite lookup_insert_eq.
Qed.

Lemma foldl_insert_other (var x : string) (g : gmap string value)
                         (l : list (string * value)) :
  x ≠ var → foldl (λ g na, <[var := na.2]> g) g l !! x = g !! x.
Proof.
  intros Hx. revert g. induction l as [|na l IH]; intros g; [done|].
  cbn [foldl]. rewrite IH. by rewrite lookup_insert_ne.
Qed.

Definition list_schemas_call : Call :=
  mkCall "personalize" "list_schemas" [("maxResults", VInt 100)].

Lemma schema_recover_run {W : Type} (env : Env W) wanted var s response w'
                         entries nas :
  client_call env list_schemas_call (world s) = (inl response, w') →
  getitem response "schemas" = inl (VList entries) →
  Forall2 listed entries nas →
  schema_recover env wanted var s =
  (Ok tt,
   mkState w'
     (foldl (λ g na, <[var := na.2]> g)
            (<["schemas"%string := VList entries]> (globals s))
            (named wanted nas))
     (trace s
      ++ [EPrint "You aready created this schema, seemingly";
          ECall list_schemas_call (inl response)]
      ++ (using_line env <$> named wanted nas))).
Proof.
  intros Hcall Hget Hall. unfold schema_recover.
  unfold bind at 1, print at 1, emit at 1.
  unfold bind at 1, call at 1. cbn [world globals trace].
  fold list_schemas_call. rewrite Hcall.
  unfold bind at 1. rewrite Hget. cbn [lift ret].
  unfold bind at 1, set_global at 1. cbn [world globals trace].
  unfold bind at 1. cbn [iter_items lift ret].
  rewrite (lookup_schema_run env wanted var entries nas _ Hall).
  cbn [world globals trace]. by rewrite <- !(assoc_L (++)).
Qed.

Lemma added_app {W A : Type} (m : M W A) s t :
  trace (m s).2 = trace s ++ t → added m s = t.
Proof. intros H. unfold added. by rewrite H, drop_app_length. Qed.

Lemma stdout_using {W : Type} (env : Env W) (l : list (string * value)) :
  stdout (using_line env <$> l)
  = (λ na, "Using existing schema: " ++ py_str env na.2)%string <$> l.
Proof. induction l as [|na l IH]; [done|]. cbn. by rewrite <- IH. Qed.

Lemma calls_using {W : Type} (env : Env W) (l : list (string * value)) :
  calls (using_line env <$> l) = [].
Proof. by induction l. Qed.

(** X2.  What a schema cell binds when the schema exists already.  When
    [create_schema] raises the already-exists error and [list_schemas]
    answers with a list of schemas, the cell returns normally; its variable
    ends up with the ARN of the last listed schema that has the name the
    cell looks for (the loop has no [break], every match assigns), and stays
    as it was, possibly unbound, when no listed schema has that name.  One
    line is printed per match, and only the two calls are made. *)
Theorem recovery_binds_last_listed {W : Type} (env : Env W)
    (created wanted var : string) (schema : value) (print_first : bool)
    (s : State W) (message : string) (w1 w2 : W) (response : value)
    (entries : list value) (nas : list (string * value)) :
  var ≠ "schemas"%string →
  client_call env (create_schema_call env created schema) (world s)
  = (inr (ClientError "ResourceAlreadyExistsException" message), w1) →
  client_call env list_schemas_call w1 = (inl response, w2) →
  getitem response "schemas" = inl (VList entries) →
  Forall2 listed entries nas →
  let cell := schema_cell env created wanted var schema print_first in
  (cell s).1 = Ok tt
  ∧ globals (cell s).2 !! var
    = match last (named wanted nas) with
      | Some na => Some na.2
      | None => globals s !! var
      end
  ∧ stdout (added cell s)
    = "You aready created this schema, seemingly"%string
      :: ((λ na, "Using existing schema: " ++ py_str env na.2)%string
          <$> named wanted nas)
  ∧ calls (added cell s)
    = [create_schema_call env created schema; list_schemas_call].
Proof.
  intros Hvar Hcreate Hlist Hget Hall cell.
  assert (cell s =
    (Ok tt,
     mkState w2
       (foldl (λ g na, <[var := na.2]> g)
              (<["schemas"%string := VList entries]> (globals s))
              (named wanted nas))
       (trace s
        ++ [ECall (create_schema_call env created schema)
                  (inr (ClientError "ResourceAlreadyExistsException" message));
            EPrint "You aready created this schema, seemingly";
            ECall list_schemas_call (inl response)]
        ++ (using_line env <$> named wanted nas)))) as Hrun.
  { subst cell. unfold schema_cell, try_except.
    unfold bind at 1, call at 1. fold (create_schema_call env created schema).
    rewrite Hcreate.
    change (is_client_error _ _) with true. cbn iota.
    erewrite schema_recover_run; [|cbn [world]; done..].
    cbn [world globals trace]. by rewrite <- (assoc_L (++)). }
  split_and!.
  - by rewrite Hrun.
  - rewrite Hrun. cbn [snd globals].
    rewrite foldl_insert_last, lookup_insert_ne by done. done.
  - rewrite (added_app cell s _ (f_equal (λ r, trace r.2) Hrun)).
    cbn [snd trace]. rewrite stdout_app, stdout_using. done.
  - rewrite (added_app cell s _ (f_equal (λ r, trace r.2) Hrun)).
    cbn [snd trace]. unfold calls at 1. rewrite omap_app. fold calls.
    by rewrite calls_using.
Qed.

(** A service on which every schema exists already, and whose listing
    holds the interactions schema twice. *)
Definition listing : list value :=
  [VDict [("name", VStr "personalize-immersion-day-retail-schema-interactions");
          ("schemaArn", VStr "arn:first")];
   VDict [("name", VStr "personalize-immersion-day-retail-schema-items");
          ("schemaArn", VStr "arn:items")];
   VDict [("name", VStr "personalize-immersion-day-retail-schema-interactions");
          ("schemaArn", VStr "arn:second")]].

Definition listing_env : Env Scripted.world :=
  Scripted.env
    (λ _ c, if String.eqb (op c) "create_schema"
            then inr (ClientError "ResourceAlreadyExistsException" "exists")
            else inl (VDict [("schemas", VList listing)]))
    1.

Lemma recovery_binds_last_listed_witness :
  (interactions_schema_cell listing_env (Scripted.start 0)).1 = Ok tt
  ∧ globals (interactions_schema_cell listing_env (Scripted.start 0)).2
    !! "interactions_schema_arn"%string = Some (VStr "arn:second")
  ∧ stdout (added (interactions_schema_cell listing_env) (Scripted.start 0))
    = ["You aready created this schema, seemingly";
       "Using existing schema: arn:first";
       "Using existing schema: arn:second"]%string
  ∧ (users_schema_cell listing_env (Scripted.start 0)).1 = Ok tt
  ∧ globals (users_schema_cell listing_env (Scripted.start 0)).2
    !! "users_schema_arn"%string = None.
Proof.
  pose proof (recovery_binds_last_listed listing_env
    "personalize-immersion-day-retail-schema-interactions"
    "personalize-immersion-day-retail-schema-interactions"
    "interactions_schema_arn" interactions_schema true (Scripted.start 0)
    "exists" _ _ _ listing
    [("personalize-immersion-day-retail-schema-interactions"%string,
      VStr "arn:first");
     ("personalize-immersion-day-retail-schema-items"%string,
      VStr "arn:items");
     ("personalize-immersion-day-retail-schema-interactions"%string,
      VStr "arn:second")]
    ltac:(done) eq_refl eq_refl eq_refl
    ltac:(repeat constructor)) as (Hok & Hvar & Hout & _).
  pose proof (recovery_binds_last_listed listing_env
    "rpersonalize-immersion-day-retail-schema-users"
    "personalize-immersion-day-retail-schema-users"
    "users_schema_arn" users_schema true (Scripted.start 0)
    "exists" _ _ _ listing
    [("personalize-immersion-day-retail-schema-interactions"%string,
      VStr "arn:first");
     ("personalize-immersion-day-retail-schema-items"%string,
      VStr "arn:items");
     ("personalize-immersion-day-retail-schema-interactions"%string,
      VStr "arn:second")]
    ltac:(done) eq_refl eq_refl eq_refl
    ltac:(repeat constructor)) as (Hok' & Hvar' & _).
  split; [exact Hok|]. split; [exact Hvar|]. split; [exact Hout|].
  split; [exact Hok' | exact Hvar'].
Defined.

(** ** The bucket *)

Lemma append_assoc (a b c : string) : ((a ++ b) ++ c = a ++ b ++ c)%string.
Proof.
  induction a as [|x a IH]; [done|].
  change (String x ((a ++ b) ++ c) = String x (a ++ b ++ c))%string.
  by rewrite IH.
Qed.

Definition bucket_of (account region : string) : string :=
  account ++ "-" ++ region ++ "-" ++ "personalize-immersionday-retail".

Definition identity_call : Call := mkCall "sts" "get_caller_identity" [].

Definition create_bucket_call (bucket region : string) : Call :=
  mkCall "s3" "create_bucket"
    (if String.eqb region "us-east-1"
     then [("Bucket", VStr bucket)]
     else [("Bucket", VStr bucket);
           ("CreateBucketConfiguration",
            VDict [("LocationConstraint", VStr region)])]).


Definition in_region (region : string) : State Scripted.world :=
  mkState (Scripted.mkWorld 0 []) {[ "region"%string := VStr region ]} [].

Definition anonymous_env : Env Scripted.world :=
  Scripted.env (λ _ _, inl (VDict [])) 1.


(** ** What the waits do *)

(** The events of a multi-resource wait over [arns]: describe calls of its
    kind on items of the list, removals of items of the list, sleeps of one
    minute, and printed lines. *)
Definition wait_event (k : poll_kind) (arns : list value) (e : event) : Prop :=
  match e with
  | ECall c _ => ∃ a, a ∈ arns ∧ c = describe_call k a
  | ERemove a => a ∈ arns
  | ESleep secs => secs = 60
  | EPrint _ => True
  end.

(** The events of a single-resource wait for [target]: describe calls on
    it, sleeps of a quarter of a minute, and printed lines. *)
Definition single_wait_event (k : wait_kind) (target : option value)
                             (e : event) : Prop :=
  match e with
  | ECall c _ => ∃ a, target = Some a ∧ c = wait_call k a
  | ERemove _ => False
  | ESleep secs => secs = 15
  | EPrint _ => True
  end.

Lemma list_remove_sublist y l l' : list_remove y l = Some l' → sublist l' l.
Proof.
  revert l'. induction l as [|a l IH]; intros l'; [done|]. simpl.
  destruct (py_eq a y); [intros [= ->]; by apply sublist_cons|].
  destruct (list_remove y l) as [l0|]; [|done].
  intros [= <-]. apply sublist_skip. by apply IH.
Qed.

Section WaitEvents.
Context {W : Type} (env : Env W).

Lemma poll_body_events k arn arns arns0 :
  arn ∈ arns0 →
  tidy false (wait_event k arns0) (λ _, False) (poll_body env k arn arns).
Proof.
  intros Hin. unfold poll_body, describe. tidy; try done.
  by exists arn.
Qed.

Lemma poll_body_sublist k arn arns s arns' :
  (poll_body env k arn arns s).1 = Ok arns' → sublist arns' arns.
Proof.
  destruct (poll_body env k arn arns s) as [r s'] eqn:Hrun. cbn [fst].
  intros ->. apply poll_body_ok in Hrun as (_ & _ & _ & [->|Hrem]); [done|].
  by eapply list_remove_sublist.
Qed.

Lemma for_reversed_events k n arns arns0 s :
  (∀ a, a ∈ arns → a ∈ arns0) →
  ∃ t, trace (for_reversed env k n arns s).2 = trace s ++ t
       ∧ Forall (wait_event k arns0) t
       ∧ ∀ arns', (for_reversed env k n arns s).1 = Ok arns' →
                  sublist arns' arns.
Proof.
  revert arns s. induction n as [|n IH]; intros arns s Hsub.
  { exists []. cbn. rewrite app_nil_r. split_and!; [done..|].
    by intros arns' [= <-]. }
  cbn [for_reversed]. destruct (arns !! n) as [arn|] eqn:Harn.
  2:{ exists []. cbn. rewrite app_nil_r. split_and!; [done..|].
      by intros arns' [= <-]. }
  assert (arn ∈ arns0) as Hin by (eapply Hsub, list_elem_of_lookup_2, Harn).
  destruct (poll_body_events k arn arns arns0 Hin s) as (t1 & Ht1 & HP1 & _).
  pose proof (poll_body_sublist k arn arns s) as Hsub1.
  unfold bind.
  destruct (poll_body env k arn arns s) as [[arns1|e|] s1]; cbn [fst snd] in *.
  - specialize (Hsub1 arns1 eq_refl).
    destruct (IH arns1 s1) as (t2 & Ht2 & HP2 & Hres).
    { intros a Ha. apply Hsub. by eapply elem_of_sublist. }
    exists (t1 ++ t2). split_and!.
    + by rewrite Ht2, Ht1, (assoc_L (++)).
    + by apply Forall_app.
    + intros arns' Hok. etrans; [by apply Hres | done].
  - exists t1. by split_and!.
  - exists t1. by split_and!.
Qed.

Lemma poll_while_events k fuel max arns arns0 s :
  (∀ a, a ∈ arns → a ∈ arns0) →
  ∃ t, trace (poll_while env k fuel max arns s).2 = trace s ++ t
       ∧ Forall (wait_event k arns0) t
       ∧ ∀ arns', (poll_while env k fuel max arns s).1 = Ok arns' →
                  sublist arns' arns.
Proof.
  revert arns s. induction fuel as [|fuel IH]; intros arns s Hsub.
  { exists []. cbn. rewrite app_nil_r. by split_and!. }
  rewrite poll_while_step.
  destruct (clock env (world s) <? max).
  2:{ exists []. cbn. rewrite app_nil_r. split_and!; [done..|].
      by intros arns' [= <-]. }
  destruct (for_reversed_events k (length arns) arns arns0 s Hsub)
    as (t1 & Ht1 & HP1 & Hres1).
  destruct (for_reversed env k (length arns) arns s) as [[arns1|e|] s1];
    cbn [fst snd] in *; [|by exists t1..].
  specialize (Hres1 arns1 eq_refl).
  destruct (0 <? length arns1)%nat.
  - edestruct (IH arns1) as (t2 & Ht2 & HP2 & Hres2).
    { intros a Ha. apply Hsub. by eapply elem_of_sublist. }
    eexists (t1 ++ [EPrint (progress_msg k); ESleep 60] ++ t2).
    split_and!.
    + rewrite Ht2. cbn [trace]. rewrite Ht1.
      by rewrite <- !(assoc_L (++)).
    + apply Forall_app. split; [done|].
      apply Forall_app. split; [by repeat constructor | done].
    + intros arns' Hok. etrans; [by apply Hres2 | done].
  - exists (t1 ++ [EPrint (done_msg k)]). cbn [fst snd trace]. split_and!.
    + by rewrite Ht1, (assoc_L (++)).
    + apply Forall_app. split; [done | by repeat constructor].
    + by intros arns' [= <-].
Qed.

Lemma wait_while_events k fuel max s :
  w_var k ≠ "status"%string →
  ∃ t, trace (wait_while env k fuel max s).2 = trace s ++ t
       ∧ Forall (single_wait_event k (globals s !! w_var k)) t.
Proof.
  intros Hvar. revert s. induction fuel as [|fuel IH]; intros s.
  { exists []. cbn. by rewrite app_nil_r. }
  cbn [wait_while]. unfold bind at 1, time_time at 1.
  destruct (clock env (world s) <? max).
  2:{ exists []. cbn. by rewrite app_nil_r. }
  unfold bind at 1, get_global at 1.
  destruct (globals s !! w_var k) as [arn|] eqn:Harn.
  2:{ exists []. cbn. by rewrite app_nil_r. }
  unfold bind at 1, call at 1. fold (wait_call k arn).
  destruct (client_call env _ (world s)) as [[response|e] w1].
  2:{ exists [ECall (wait_call k arn) (inr e)]. cbn. split; [done|].
      repeat constructor. by exists arn. }
  unfold bind at 1. destruct (getitem response (w_key k)) as [record|e].
  2:{ exists [ECall (wait_call k arn) (inl response)]. cbn. split; [done|].
      repeat constructor. by exists arn. }
  cbn [lift ret]. unfold bind at 1.
  destruct (getitem record "status") as [status|e].
  2:{ exists [ECall (wait_call k arn) (inl response)]. cbn. split; [done|].
      repeat constructor. by exists arn. }
  cbn [lift ret]. unfold bind at 1 2, set_global at 1, print at 1, emit at 1.
  cbn [world globals trace].
  destruct (py_eq status (VStr "ACTIVE") || py_eq status (VStr "CREATE FAILED")).
  { eexists [_; _]. cbn. split; [by rewrite <- (assoc_L (++))|].
    repeat constructor. by exists arn. }
  unfold bind at 1, time_sleep at 1. cbn [world globals trace].
  edestruct IH as (t2 & Ht2 & HP2). rewrite Ht2. cbn [globals trace] in *.
  rewrite lookup_insert_ne in HP2 by done. rewrite Harn in HP2.
  eexists (_ :: _ :: _ :: t2). split.
  { rewrite <- !(assoc_L (++)). reflexivity. }
  repeat constructor; [by exists arn | done].
Qed.

Lemma wait_one_events k fuel s :
  w_var k ≠ "status"%string →
  Forall (single_wait_event k (globals s !! w_var k))
         (added (wait_one env k fuel) s).
Proof.
  intros Hvar.
  destruct (wait_while_events k fuel (clock env (world s) + w_budget k)
              (mkState (world s) (<["status"%string := VNone]> (globals s))
                       (trace s)) Hvar) as (t & Ht & HP).
  cbn [globals trace] in *. rewrite lookup_insert_ne in HP by done.
  by rewrite (added_app (wait_one env k fuel) s t Ht).
Qed.
End WaitEvents.

(** X4.  A wait only reads.  Every call of a multi-resource wait is the
    describe call of its kind on an item of the list it was given, every
    removal removes such an item, every sleep is of 60 seconds, and the list
    it returns is what is left of the given list, in the same order.  Every
    call of a single-resource wait is its describe call on the value its
    variable had when the wait began, and every sleep is of 15 seconds. *)
Theorem waits_only_describe_and_sleep {W : Type} (env : Env W) :
  (∀ k fuel arns s,
     Forall (wait_event k arns) (added (poll_many env k fuel arns) s)
     ∧ ∀ arns', (poll_many env k fuel arns s).1 = Ok arns' →
                sublist arns' arns)
  ∧ (∀ fuel s,
       Forall (single_wait_event dataset_group_wait
                 (globals s !! "dataset_group_arn"%string))
              (added (wait_dataset_group_cell env fuel) s))
  ∧ (∀ fuel s,
       Forall (single_wait_event filter_wait
                 (globals s !! "filter_arn"%string))
              (added (wait_filter_cell env fuel) s)).
Proof.
  split_and!.
  - intros k fuel arns s.
    destruct (poll_while_events env k fuel (clock env (world s) + max_wait)
                arns arns s) as (t & Ht & HP & Hres); [done|].
    split; [|exact Hres].
    by rewrite (added_app (poll_many env k fuel arns) s t Ht).
  - intros fuel s. by apply (wait_one_events env dataset_group_wait).
  - intros fuel s. by apply (wait_one_events env filter_wait).
Qed.

(** ** What a wait can raise *)

(** [==] is reflexive on these values. *)
Fixpoint py_eq_refl (v : value) : py_eq v v = true.
Proof.
  destruct v as [|b|z|x|l|d]; cbn.
  - done.
  - by destruct b.
  - apply Z.eqb_refl.
  - apply String.eqb_refl.
  - induction l as [|a l IH]; [done|]. by rewrite py_eq_refl, IH.
  - rewrite Nat.eqb_refl. cbn.
    assert (∀ d', (∀ kv, kv ∈ d' → kv ∈ d) →
      (fix sub (d0 : list (string * value)) : bool :=
         match d0 with
         | [] => true
         | (k, x) :: rest =>
             existsb (λ kv, String.eqb k kv.1 && py_eq x kv.2) d && sub rest
         end) d' = true) as Hsub.
    { induction d' as [|[k x] d' IH]; intros Hin; [done|].
      rewrite IH by (intros kv Hkv; apply Hin; by right).
      rewrite andb_true_r. apply existsb_exists. exists (k, x). split.
      - apply list_elem_of_In, Hin. by left.
      - cbn. by rewrite String.eqb_refl, py_eq_refl. }
    by apply Hsub.
Qed.

Lemma list_remove_found x l : x ∈ l → is_Some (list_remove x l).
Proof.
  induction l as [|a l IH]; [by intros ?%elem_of_nil|].
  intros [->|Hin]%elem_of_cons; cbn.
  - by rewrite py_eq_refl.
  - destruct (py_eq a x); [done|]. by destruct (IH Hin) as [l' ->].
Qed.

(** What indexing a response can raise. *)
Definition malformed (k : poll_kind) (e : exn) : Prop :=
  e = KeyError (record_key k) ∨ e = KeyError "status" ∨ e = TypeError.

(** The describe call that [t] ends with raised [e]. *)
Definition describe_raised (k : poll_kind) (e : exn) (t : list event) : Prop :=
  ∃ a, last t = Some (ECall (describe_call k a) (inr e)).

Lemma getitem_raises v key e :
  getitem v key = inr e → e = KeyError key ∨ e = TypeError.
Proof.
  destruct v as [| | | | |d]; cbn; try (intros [= <-]; by right).
  destruct (assoc key d); [done|]. intros [= <-]. by left.
Qed.

Section WaitRaises.
Context {W : Type} (env : Env W).

Lemma poll_body_raises k arn arns s e :
  arn ∈ arns →
  (poll_body env k arn arns s).1 = Raise e →
  describe_raised k e (trace (poll_body env k arn arns s).2) ∨ malformed k e.
Proof.
  intros [arns1 Hrem]%list_remove_found.
  destruct (poll_body env k arn arns s) as [r s'] eqn:Hrun. cbn [fst snd].
  intros ->. revert Hrun.
  unfold poll_body, describe. unfold bind at 1, call at 1.
  fold (describe_call k arn).
  destruct (client_call env _ (world s)) as [[response|e0] w1].
  2:{ intros [= <- <-]. left. exists arn. cbn [trace]. by rewrite last_snoc. }
  intros Hraise. right. revert Hraise. unfold malformed.
  unfold bind at 1.
  destruct (getitem response (record_key k)) as [record|e1] eqn:Hrecord;
    cbn [lift ret raise].
  2:{ intros [= <- _]. apply getitem_raises in Hrecord as [->| ->]; auto. }
  unfold bind at 1.
  destruct (getitem record "status") as [status|e1] eqn:Hstatus;
    cbn [lift ret raise].
  2:{ intros [= <- _]. apply getitem_raises in Hstatus as [->| ->]; auto. }
  destruct response as [| | | | |d]; try done.
  unfold remove. rewrite Hrem.
  destruct (py_eq status (VStr "ACTIVE")); [done|].
  destruct (py_eq status (VStr "CREATE FAILED")); [|done].
  unfold bind, print, emit, lift, ret, raise, dict_get, getitem, str_add.
  destruct (assoc "failureReason" d) as [reason|]; cbn [truthy];
    [|done].
  destruct (truthy reason); [|done].
  destruct reason; try done; intros [= <- _]; auto.
Qed.

Lemma for_reversed_raises k n arns s e :
  (for_reversed env k n arns s).1 = Raise e →
  describe_raised k e (trace (for_reversed env k n arns s).2) ∨ malformed k e.
Proof.
  revert arns s. induction n as [|n IH]; intros arns s; [done|].
  cbn [for_reversed]. destruct (arns !! n) as [arn|] eqn:Harn; [|done].
  pose proof (poll_body_raises k arn arns s e
                (list_elem_of_lookup_2 _ _ _ Harn)) as Hbody.
  unfold bind.
  destruct (poll_body env k arn arns s) as [[arns1|e1|] s1]; cbn [fst snd] in *;
    [apply IH | | done].
  intros [= ->]. by apply Hbody.
Qed.

Lemma poll_while_raises k fuel max arns s e :
  (poll_while env k fuel max arns s).1 = Raise e →
  describe_raised k e (trace (poll_while env k fuel max arns s).2)
  ∨ malformed k e.
Proof.
  revert arns s. induction fuel as [|fuel IH]; intros arns s; [done|].
  rewrite poll_while_step. destruct (clock env (world s) <? max); [|done].
  pose proof (for_reversed_raises k (length arns) arns s e) as Hround.
  destruct (for_reversed env k (length arns) arns s) as [[arns1|e1|] s1];
    cbn [fst snd] in *; [| |done].
  - destruct (0 <? length arns1)%nat; [apply IH | done].
  - intros [= ->]. by apply Hround.
Qed.
End WaitRaises.

(** X5.  What a multi-resource wait can raise.  Whatever list it is given
    (duplicates and items that are not strings included), the wait raises
    only what one of its describe calls raised, and then that call is the
    last thing it did, or the [KeyError] or [TypeError] of a response that
    has no resource record, no status, or a failure reason that is not a
    string.  The removal from the list inside the iteration never fails. *)
Theorem wait_raises_only_for_its_calls {W : Type} (env : Env W)
    (k : poll_kind) (fuel : nat) (arns : list value) (s : State W) :
  match (poll_many env k fuel arns s).1 with
  | Raise e =>
      describe_raised k e (trace (poll_many env k fuel arns s).2)
      ∨ malformed k e
  | _ => True
  end.
Proof.
  pose proof (poll_while_raises env k fuel (clock env (world s) + max_wait)
                arns s) as Hraise.
  change (poll_while env k fuel (clock env (world s) + max_wait) arns s)
    with (poll_many env k fuel arns s) in Hraise.
  destruct (poll_many env k fuel arns s).1; [done | by apply Hraise | done].
Qed.

(** ** How long a wait can go on *)

Definition sleeps (t : list event) : list Z :=
  omap (λ e, match e with ESleep secs => Some secs | _ => None end) t.

Lemma calls_app t1 t2 : calls (t1 ++ t2) = calls t1 ++ calls t2.
Proof. apply omap_app. Qed.

Lemma sleeps_app t1 t2 : sleeps (t1 ++ t2) = sleeps t1 ++ sleeps t2.
Proof. apply omap_app. Qed.

Section WaitCost.
Context {W : Type} (env : Env W) (Htick : ticking env).

(** One visit: one call, no sleep, and the clock does not go back. *)
Lemma poll_body_cost k arn arns s :
  ∃ t, trace (poll_body env k arn arns s).2 = trace s ++ t
       ∧ sleeps t = [] ∧ length (calls t) = 1%nat
       ∧ clock env (world s) ≤ clock env (world (poll_body env k arn arns s).2).
Proof using Htick.
  pose proof (call_advances env Htick (describe_call k arn) (world s)) as Hc.
  destruct (poll_body env k arn arns s) as [r s'] eqn:Hrun. cbn [fst snd].
  revert Hrun. unfold poll_body, describe. unfold bind at 1, call at 1.
  fold (describe_call k arn).
  destruct (client_call env _ (world s)) as [[response|e0] w1];
    cbn [fst snd] in *.
  2:{ intros [= <- <-]. eexists [_]. by split_and!. }
  unfold bind, lift, remove, print, emit, ret, raise.
  repeat case_match; intros Hrun; cbn in Hrun; simplify_eq;
    cbn [fst snd world trace];
    (eexists (_ :: _); split;
     [rewrite <- ?(assoc_L (++)); reflexivity | by split_and!]).
Qed.

Lemma for_reversed_cost k n arns s :
  ∃ t, trace (for_reversed env k n arns s).2 = trace s ++ t
       ∧ sleeps t = [] ∧ (length (calls t) ≤ n)%nat
       ∧ clock env (world s)
         ≤ clock env (world (for_reversed env k n arns s).2).
Proof using Htick.
  revert arns s. induction n as [|n IH]; intros arns s.
  { exists []. cbn. rewrite app_nil_r. by split_and!. }
  cbn [for_reversed]. destruct (arns !! n) as [arn|].
  2:{ exists []. cbn. rewrite app_nil_r. split_and!; [done..|lia|done]. }
  destruct (poll_body_cost k arn arns s) as (t1 & Ht1 & Hs1 & Hc1 & Hw1).
  unfold bind.
  destruct (poll_body env k arn arns s) as [[arns1|e|] s1]; cbn [fst snd] in *.
  - destruct (IH arns1 s1) as (t2 & Ht2 & Hs2 & Hc2 & Hw2).
    exists (t1 ++ t2). split_and!.
    + by rewrite Ht2, Ht1, (assoc_L (++)).
    + by rewrite sleeps_app, Hs1, Hs2.
    + rewrite calls_app, length_app. lia.
    + lia.
  - exists t1. split_and!; [done..|lia|done].
  - exists t1. split_and!; [done..|lia|done].
Qed.

Lemma poll_while_cost k fuel max arns s :
  ∃ t (rounds : nat),
    trace (poll_while env k fuel max arns s).2 = trace s ++ t
    ∧ (max ≤ clock env (world s) → rounds = 0%nat)
    ∧ 60 * Z.of_nat rounds ≤ Z.max 0 (max - clock env (world s) + 59)
    ∧ (length (sleeps t) ≤ rounds)%nat
    ∧ (length (calls t) ≤ rounds * length arns)%nat.
Proof using Htick.
  revert arns s. induction fuel as [|fuel IH]; intros arns s.
  { exists [], 0%nat. cbn. rewrite app_nil_r. split_and!; [done..|lia|done|done]. }
  rewrite poll_while_step.
  destruct (Z.ltb_spec (clock env (world s)) max) as [Hnow|Hnow].
  2:{ exists [], 0%nat. cbn. rewrite app_nil_r.
      split_and!; [done..|lia|done|done]. }
  destruct (for_reversed_cost k (length arns) arns s)
    as (t1 & Ht1 & Hs1 & Hc1 & Hw1).
  destruct (for_reversed_events env k (length arns) arns arns s)
    as (_ & _ & _ & Hsub); [done|].
  destruct (for_reversed env k (length arns) arns s) as [[arns1|e|] s1];
    cbn [fst snd] in *.
  - specialize (Hsub arns1 eq_refl). apply sublist_length in Hsub.
    destruct (0 <? length arns1)%nat.
    + set (s2 := mkState _ _ _).
      destruct (IH arns1 s2) as (t2 & rounds & Ht2 & Hlate & Hr & Hsl & Hcl).
      pose proof (sleep_advances env Htick 60 (world s1)) as Hsleep.
      exists (t1 ++ [EPrint (progress_msg k); ESleep 60] ++ t2), (S rounds).
      subst s2. cbn [world trace] in *. split_and!.
      * rewrite Ht2, Ht1. by rewrite <- !(assoc_L (++)).
      * lia.
      * destruct (Z.ltb_spec (clock env (sleep_for env 60 (world s1))) max);
          [lia|]. rewrite Hlate by lia. lia.
      * rewrite !sleeps_app, !length_app, Hs1.
        cbn [sleeps omap list_omap length app]. fold (sleeps t2). lia.
      * rewrite !calls_app, !length_app.
        cbn [calls omap list_omap length app]. fold (calls t2). nia.
    + exists (t1 ++ [EPrint (done_msg k)]), 1%nat. cbn [trace]. split_and!.
      * by rewrite Ht1, (assoc_L (++)).
      * lia.
      * lia.
      * rewrite sleeps_app, length_app, Hs1. cbn. lia.
      * rewrite calls_app, length_app. cbn. lia.
  - exists t1, 1%nat. split_and!; [done | lia | lia | by rewrite Hs1; cbn; lia | lia].
  - exists t1, 1%nat. split_and!; [done | lia | lia | by rewrite Hs1; cbn; lia | lia].
Qed.

Lemma wait_while_cost k fuel max s :
  ∃ t, trace (wait_while env k fuel max s).2 = trace s ++ t
       ∧ (max ≤ clock env (world s) → t = [])
       ∧ (clock env (world s) < max →
          15 * Z.of_nat (length (calls t)) ≤ max - clock env (world s) + 14
          ∧ (length (sleeps t) ≤ length (calls t))%nat).
Proof using Htick.
  revert s. induction fuel as [|fuel IH]; intros s.
  { exists []. cbn. rewrite app_nil_r. split_and!; [done..|].
    intros ?. cbn. lia. }
  cbn [wait_while]. unfold bind at 1, time_time at 1.
  destruct (Z.ltb_spec (clock env (world s)) max) as [Hnow|Hnow].
  2:{ exists []. cbn. rewrite app_nil_r. split_and!; [done..|]. lia. }
  unfold bind at 1, get_global at 1.
  destruct (globals s !! w_var k) as [arn|].
  2:{ exists []. cbn. rewrite app_nil_r. split_and!; [done..|].
      intros _. cbn. lia. }
  pose proof (call_advances env Htick (wait_call k arn) (world s)) as Hc.
  unfold bind at 1, call at 1. fold (wait_call k arn).
  destruct (client_call env _ (world s)) as [[response|e] w1];
    cbn [fst snd] in Hc.
  2:{ eexists [_]. split_and!; [done | lia |]. intros _. cbn. lia. }
  unfold bind at 1. destruct (getitem response (w_key k)) as [record|e].
  2:{ eexists [_]. split_and!; [done | lia |]. intros _. cbn. lia. }
  cbn [lift ret]. unfold bind at 1.
  destruct (getitem record "status") as [status|e].
  2:{ eexists [_]. split_and!; [done | lia |]. intros _. cbn. lia. }
  cbn [lift ret]. unfold bind at 1 2, set_global at 1, print at 1, emit at 1.
  cbn [world globals trace].
  destruct (py_eq status (VStr "ACTIVE") || py_eq status (VStr "CREATE FAILED")).
  { eexists [_; _]. split_and!; [by rewrite <- (assoc_L (++)) | lia |].
    intros _. cbn. lia. }
  unfold bind at 1, time_sleep at 1. cbn [world globals trace].
  set (s2 := mkState _ _ _).
  destruct (IH s2) as (t2 & Ht2 & Hlate & Hearly).
  pose proof (sleep_advances env Htick 15 w1) as Hsleep.
  eexists (_ :: _ :: _ :: t2). split_and!.
  - rewrite Ht2. subst s2. cbn [trace]. rewrite <- !(assoc_L (++)).
    reflexivity.
  - lia.
  - intros _. cbn [sleeps calls omap list_omap length].
    fold (calls t2). fold (sleeps t2).
    destruct (Z.ltb_spec (clock env (world s2)) max) as [Hthen|Hthen].
    + destruct (Hearly Hthen) as [Hcl Hsl]. subst s2. cbn [world] in *. lia.
    + rewrite (Hlate Hthen). cbn. lia.
Qed.
End WaitCost.

(** X6.  With a clock that ticks, the waits are bounded.  A multi-resource
    wait sleeps at most 180 times and makes at most 180 describe calls per
    item of its list, however the service answers and whatever the fuel; the
    wait for the dataset group makes at most 720 describe calls and the wait
    for the filter at most 240. *)
Theorem waits_are_bounded {W : Type} (env : Env W) :
  ticking env →
  (∀ k fuel arns s,
     (length (sleeps (added (poll_many env k fuel arns) s)) ≤ 180)%nat
     ∧ (length (calls (added (poll_many env k fuel arns) s))
        ≤ 180 * length arns)%nat)
  ∧ (∀ fuel s,
       (length (calls (added (wait_dataset_group_cell env fuel) s)) ≤ 720)%nat)
  ∧ (∀ fuel s,
       (length (calls (added (wait_filter_cell env fuel) s)) ≤ 240)%nat).
Proof.
  intros Htick. split_and!.
  - intros k fuel arns s.
    destruct (poll_while_cost env Htick k fuel
                (clock env (world s) + max_wait) arns s)
      as (t & rounds & Ht & _ & Hr & Hsl & Hcl).
    rewrite (added_app (poll_many env k fuel arns) s t Ht).
    unfold max_wait in Hr. split; [lia | nia].
  - intros fuel s. unfold wait_dataset_group_cell.
    destruct (wait_while_cost env Htick dataset_group_wait fuel
                (clock env (world s) + w_budget dataset_group_wait)
                (mkState (world s) (<["status"%string := VNone]> (globals s))
                         (trace s))) as (t & Ht & _ & Hcost).
    rewrite (added_app (wait_one env dataset_group_wait fuel) s t Ht).
    cbn [world w_budget dataset_group_wait] in Hcost. lia.
  - intros fuel s. unfold wait_filter_cell.
    destruct (wait_while_cost env Htick filter_wait fuel
                (clock env (world s) + w_budget filter_wait)
                (mkState (world s) (<["status"%string := VNone]> (globals s))
                         (trace s))) as (t & Ht & _ & Hcost).
    rewrite (added_app (wait_one env filter_wait fuel) s t Ht).
    cbn [world w_budget filter_wait] in Hcost. lia.
Qed.

Lemma waits_are_bounded_witness :
  ((length (sleeps (added (poll_many pending_env import_jobs 1000
                             [VStr "arn:A"; VStr "arn:B"; VStr "arn:C"])
                          (Scripted.start 0))) ≤ 180)%nat
   ∧ (length (calls (added (poll_many pending_env import_jobs 1000
                              [VStr "arn:A"; VStr "arn:B"; VStr "arn:C"])
                           (Scripted.start 0)))
      ≤ 180 * length [VStr "arn:A"; VStr "arn:B"; VStr "arn:C"])%nat)
  ∧ (length (calls (added (wait_dataset_group_cell pending_env 1000)
                          waiting_for_group)) ≤ 720)%nat.
Proof.
  destruct (waits_are_bounded pending_env (scripted_ticking _ 1 ltac:(lia)))
    as (Hmany & Hgroup & _).
  split; [apply Hmany | apply Hgroup].
Defined.

(** ** Which variables are read before they are bound

    [reads D E m D']: [m] never unbinds a variable, and from a state in which
    the variables of [D] are bound it either returns with those of [D']
    bound, or raises an exception that satisfies [E]. *)
Definition bound (D : list string) (g : gmap string value) : Prop :=
  ∀ x, x ∈ D → is_Some (g !! x).

Definition reads {W A : Type} (D : list string) (E : exn → Prop)
                 (m : M W A) (D' : list string) : Prop :=
  ∀ s,
    (∀ x, is_Some (globals s !! x) → is_Some (globals (m s).2 !! x))
    ∧ (bound D (globals s) →
       match (m s).1 with
       | Ok _ => bound D' (globals (m s).2)
       | Raise e => E e
       | OutOfFuel => True
       end).

Lemma bound_nil g : bound [] g.
Proof. by intros x ?%elem_of_nil. Qed.

Lemma bound_cons x D g : is_Some (g !! x) → bound D g → bound (x :: D) g.
Proof. intros Hx HD y [->|Hy]%elem_of_cons; auto. Qed.

Lemma bound_insert x v D (g : gmap string value) :
  bound D g → bound (x :: D) (<[x := v]> g).
Proof.
  intros HD. apply bound_cons; [by rewrite lookup_insert_eq|].
  intros y Hy. destruct (decide (y = x)) as [->|Hne].
  - by rewrite lookup_insert_eq.
  - rewrite lookup_insert_ne by done. by apply HD.
Qed.

Section Reads.
Context {W : Type} (env : Env W) (E : exn → Prop).
Context (Hcalls : ∀ c w e, (client_call env c w).1 = inr e → E e).
Context (Hfiles : ∀ p w e, (read_json env p w).1 = inr e → E e).

Lemma reads_ret {A} D (a : A) : reads (W:=W) D E (ret a) D.
Proof using Type. by intros s. Qed.

Lemma reads_out_of_fuel {A} D D' : reads (W:=W) (A:=A) D E out_of_fuel D'.
Proof using Type. by intros s. Qed.

Lemma reads_lift {A} D (r : A + exn) :
  (∀ e, r = inr e → E e) → reads (W:=W) D E (lift r) D.
Proof using Type. intros Hr s. destruct r as [a|e]; cbn; auto. Qed.

Lemma reads_bind {A B} D D1 D2 (m : M W A) (f : A → M W B) :
  reads D E m D1 → (∀ a, reads D1 E (f a) D2) → reads D E (bind m f) D2.
Proof using Type.
  intros Hm Hf s. unfold bind. destruct (Hm s) as [Hmono Hpost].
  destruct (m s) as [[a|e|] s1]; cbn [fst snd] in *; [|done..].
  destruct (Hf a s1) as [Hmono' Hpost']. split; [by auto|].
  intros HD. by apply Hpost', Hpost.
Qed.

(** What was bound stays bound: the postcondition can be given up. *)
Lemma reads_forget {A} D D1 (m : M W A) : reads D E m D1 → reads D E m D.
Proof using Type.
  intros Hm s. destruct (Hm s) as [Hmono Hpost]. split; [done|].
  intros HD. specialize (Hpost HD).
  destruct (m s).1; [|done..]. intros x Hx. by apply Hmono, HD.
Qed.

Lemma reads_emit D e : reads (W:=W) D E (emit e) D.
Proof using Type. by intros s. Qed.

Lemma reads_print D line : reads (W:=W) D E (print line) D.
Proof using Type. apply reads_emit. Qed.

Lemma reads_time_time D : reads D E (time_time env) D.
Proof using Type. by intros s. Qed.

Lemma reads_time_sleep D secs : reads D E (time_sleep env secs) D.
Proof using Type. by intros s. Qed.

Lemma reads_call D cl o kw : reads D E (call env cl o kw) D.
Proof using Hcalls.
  intros s. unfold call.
  pose proof (Hcalls (mkCall cl o kw) (world s)) as He.
  destruct (client_call env _ (world s)) as [[v|e] w']; cbn in *; auto.
Qed.

Lemma reads_load_json D path : reads D E (load_json env path) D.
Proof using Hfiles.
  intros s. unfold load_json.
  pose proof (Hfiles path (world s)) as He.
  destruct (read_json env _ (world s)) as [[v|e] w']; cbn in *; auto.
Qed.

(** Reading a variable: it is bound, or the [NameError] is allowed. *)
Lemma reads_get_global D x :
  x ∈ D ∨ E (NameError x) → reads (W:=W) D E (get_global x) (x :: D).
Proof using Type.
  intros Hx s. unfold get_global. split.
  { by destruct (globals s !! x). }
  intros HD. destruct (globals s !! x) as [v|] eqn:Hv; cbn.
  - apply bound_cons; [by rewrite Hv | done].
  - destruct Hx as [Hx|Hx]; [|done]. destruct (HD x Hx) as [v Hv']. congruence.
Qed.

Lemma reads_set_global D x v : reads (W:=W) D E (set_global x v) (x :: D).
Proof using Type.
  intros s. cbn. split; [|by apply bound_insert].
  intros y Hy. destruct (decide (y = x)) as [->|Hne].
  - by rewrite lookup_insert_eq.
  - by rewrite lookup_insert_ne.
Qed.

Lemma reads_remove D x l : E ValueError → reads (W:=W) D E (remove x l) D.
Proof using Type.
  intros HE s. unfold remove. destruct (list_remove x l); cbn; auto.
Qed.

Lemma reads_try_except {A} D D' (m : M W A) handles h :
  reads D E m D' → (∀ e, reads D E (h e) D') →
  reads D E (try_except m handles h) D'.
Proof using Type.
  intros Hm Hh s. unfold try_except. destruct (Hm s) as [Hmono Hpost].
  destruct (m s) as [[a|e|] s1]; cbn [fst snd] in *; [done| |done].
  destruct (handles e); [|done].
  destruct (Hh e s1) as [Hmono' Hpost']. split; [by auto|].
  intros HD. apply Hpost'. intros x Hx. by apply Hmono, HD.
Qed.
End Reads.

(** The allowed exceptions: anything but a [NameError], except for the
    names in [allowed]. *)
Definition only_names (allowed : list string) (e : exn) : Prop :=
  ∀ x, e = NameError x → x ∈ allowed.

(** No client call and no file read raises a [NameError]: that exception
    belongs to the kernel namespace. *)
Definition no_name_errors {W : Type} (env : Env W) : Prop :=
  (∀ c w x, (client_call env c w).1 ≠ inr (NameError x))
  ∧ (∀ p w x, (read_json env p w).1 ≠ inr (NameError x)).

Lemma reads_if {W A : Type} D E D1 D2 (b : bool) (m1 m2 : M W A) :
  reads D E m1 D1 → reads D E m2 D2 →
  reads D E (if b then m1 else m2) D.
Proof. intros H1 H2. destruct b; by eapply reads_forget. Qed.

Ltac in_list :=
  repeat first [ apply list_elem_of_here | apply list_elem_of_further ].

Ltac reads_side :=
  lazymatch goal with
  | |- _ ∈ _ ∨ only_names _ _ =>
      first [ left; by in_list | right; intros ? [= <-]; by in_list ]
  | |- only_names _ _ => by intros ? [=]
  | |- ∀ e, _ = inr e → only_names _ e =>
      let e := fresh "e" in let He := fresh "He" in
      intros e He ? ->; revert He;
      unfold getitem, dict_get, py_add, split_colon_index, iter_items, str_add;
      repeat case_match; congruence
  | |- _ => idtac
  end.

Ltac reads_step :=
  lazymatch goal with
  | |- reads _ _ (ret _) _ => apply reads_ret
  | |- reads _ _ (lift _) _ => apply reads_lift; reads_side
  | |- reads _ _ out_of_fuel _ => apply reads_out_of_fuel
  | |- reads _ _ (get_global _) _ => apply reads_get_global; reads_side
  | |- reads _ _ (set_global _ _) _ => apply reads_set_global
  | |- reads _ _ (time_time _) _ => apply reads_time_time
  | |- reads _ _ (time_sleep _ _) _ => apply reads_time_sleep
  | |- reads _ _ (print _) _ => apply reads_print
  | |- reads _ _ (remove _ _) _ => apply reads_remove; reads_side
  | |- reads _ _ (call _ _ _ _) _ => apply reads_call; assumption
  | |- reads _ _ (load_json _ _) _ => apply reads_load_json; assumption
  | |- reads _ _ (bind _ _) _ => eapply reads_bind; [|intros ?]
  | |- reads _ _ (if _ then _ else _) _ => eapply reads_if
  end.

Section ReadsLoops.
Context {W : Type} (env : Env W) (allowed : list string).
Context (Hcalls : ∀ c w e, (client_call env c w).1 = inr e →
                           only_names allowed e).
Context (Hfiles : ∀ p w e, (read_json env p w).1 = inr e →
                           only_names allowed e).

Lemma reads_poll_body D k arn arns :
  reads D (only_names allowed) (poll_body env k arn arns) D.
Proof using Hcalls.
  unfold poll_body, describe. eapply reads_forget. repeat reads_step.
Qed.

Lemma reads_for_reversed D k n arns :
  reads D (only_names allowed) (for_reversed env k n arns) D.
Proof using Hcalls.
  revert arns. induction n as [|n IH]; intros arns; cbn [for_reversed];
    [apply reads_ret|].
  destruct (arns !! n); [|apply reads_ret].
  eapply reads_bind; [apply reads_poll_body | intros; apply IH].
Qed.

Lemma reads_poll_while D k fuel max arns :
  reads D (only_names allowed) (poll_while env k fuel max arns) D.
Proof using Hcalls.
  revert arns. induction fuel as [|fuel IH]; intros arns; cbn [poll_while].
  { apply reads_out_of_fuel. }
  eapply reads_bind; [apply reads_time_time | intros now].
  destruct (now <? max); [|apply reads_ret].
  eapply reads_bind; [apply reads_for_reversed | intros arns'].
  destruct (0 <? length arns')%nat.
  - eapply reads_bind; [apply reads_print | intros _].
    eapply reads_bind; [apply reads_time_sleep | intros _]. apply IH.
  - eapply reads_bind; [apply reads_print | intros _]. apply reads_ret.
Qed.

Lemma reads_poll_many D k fuel arns :
  reads D (only_names allowed) (poll_many env k fuel arns) D.
Proof using Hcalls.
  unfold poll_many.
  eapply reads_bind; [apply reads_time_time | intros now].
  apply reads_poll_while.
Qed.

Lemma reads_poll_cell D k list_var v1 v2 v3 fuel :
  v1 ∈ D → v2 ∈ D → v3 ∈ D →
  reads D (only_names allowed) (poll_cell env k list_var v1 v2 v3 fuel)
        (list_var :: v3 :: v2 :: v1 :: D).
Proof using Hcalls.
  intros H1 H2 H3. unfold poll_cell.
  eapply reads_bind; [apply reads_get_global; by left | intros a1].
  eapply reads_bind;
    [apply reads_get_global; left; by apply list_elem_of_further | intros a2].
  eapply reads_bind;
    [apply reads_get_global; left; by do 2 apply list_elem_of_further
    | intros a3].
  eapply reads_bind; [apply reads_poll_many | intros left].
  apply reads_set_global.
Qed.

Lemma reads_wait_while k fuel max :
  ∀ D, w_var k ∈ D →
       reads D (only_names allowed) (wait_while env k fuel max) D.
Proof using Hcalls.
  induction fuel as [|fuel IH]; intros D Hvar; cbn [wait_while].
  { apply reads_out_of_fuel. }
  eapply reads_bind; [apply reads_time_time | intros now].
  destruct (now <? max); [|apply reads_ret].
  eapply reads_forget.
  eapply reads_bind; [apply reads_get_global; by left | intros arn].
  eapply reads_bind; [by apply reads_call | intros response].
  eapply reads_bind; [apply reads_lift; reads_side | intros record].
  eapply reads_bind; [apply reads_lift; reads_side | intros status].
  eapply reads_bind; [apply reads_set_global | intros _].
  eapply reads_bind; [apply reads_print | intros _].
  destruct (_ || _); [apply reads_ret|].
  eapply reads_bind; [apply reads_time_sleep | intros _].
  apply IH. by do 2 apply list_elem_of_further.
Qed.

Lemma reads_wait_one D k fuel :
  w_var k ∈ D →
  reads D (only_names allowed) (wait_one env k fuel)
        ("status"%string :: D).
Proof using Hcalls.
  intros Hvar. unfold wait_one.
  eapply reads_bind; [apply reads_set_global | intros _].
  eapply reads_bind; [apply reads_time_time | intros now].
  apply reads_wait_while. by apply list_elem_of_further.
Qed.
End ReadsLoops.

Lemma reads_weaken {W A : Type} D E D1 D' (m : M W A) :
  reads D E m D1 → Forall (λ x, x ∈ D1) D' → reads D E m D'.
Proof.
  intros Hm Hsub s. destruct (Hm s) as [Hmono Hpost]. split; [done|].
  intros HD. specialize (Hpost HD). destruct (m s).1; [|done..].
  intros x Hx. apply Hpost. by eapply Forall_forall in Hsub.
Qed.

Section ReadsCells.
Context {W : Type} (env : Env W) (allowed : list string).
Context (Hcalls : ∀ c w e, (client_call env c w).1 = inr e →
                           only_names allowed e).
Context (Hfiles : ∀ p w e, (read_json env p w).1 = inr e →
                           only_names allowed e).

Lemma reads_lookup_schema D wanted var schemas :
  reads D (only_names allowed) (lookup_schema env wanted var schemas) D.
Proof using Type.
  induction schemas as [|schema rest IH]; cbn [lookup_schema].
  { apply reads_ret. }
  eapply reads_bind; [apply reads_lift; reads_side | intros n].
  eapply reads_bind; [|intros _; apply IH].
  eapply reads_if; [|apply reads_ret]. repeat reads_step.
Qed.

(** A schema cell promises nothing about its variable: the recovery may
    leave it unbound. *)
Lemma reads_schema_cell D created wanted var schema print_first :
  reads D (only_names allowed)
        (schema_cell env created wanted var schema print_first) D.
Proof using Hcalls.
  unfold schema_cell. apply reads_try_except.
  - unfold schema_bind.
    destruct print_first; eapply reads_forget; repeat reads_step.
  - intros _. eapply reads_forget. unfold schema_recover.
    repeat reads_step. apply reads_lookup_schema.
Qed.
End ReadsCells.

Ltac reads_cell_step :=
  lazymatch goal with
  | |- reads _ _ (create_resource _ _ _ _ _ _) _ => unfold create_resource
  | |- reads _ _ (poll_cell _ _ _ _ _ _ _) _ =>
      apply reads_poll_cell; [assumption | by in_list..]
  | |- reads _ _ (wait_one _ _ _) _ =>
      apply reads_wait_one; [assumption | by in_list]
  | |- reads _ _ (try_except _ _ _) _ =>
      eapply reads_try_except; [|intros ?]
  | |- _ => reads_step
  end.

Ltac reads_cell :=
  lazymatch goal with
  | |- reads _ _ (interactions_schema_cell _) _ =>
      apply reads_schema_cell; assumption
  | |- reads _ _ (items_schema_cell _) _ =>
      apply reads_schema_cell; assumption
  | |- reads _ _ (users_schema_cell _) _ =>
      apply reads_schema_cell; assumption
  | |- _ => autounfold with cells; repeat reads_cell_step
  end.

(** The variables that the last cell of each notebook stores
    ([01_Data_Layer] lines 983-992, [02_Training_Layer] lines 765-774). *)
Definition data_layer_stored : list string :=
  ["items_dataset_arn"; "interactions_dataset_arn"; "dataset_group_arn";
   "bucket_name"; "role_arn"; "role_name"; "region"; "bucket_name";
   "item_metadata_df"; "user_metadata_df"].

Definition training_layer_stored : list string :=
  ["related_solution_arn"; "recommend_solution_arn";
   "related_solution_version_arn"; "recommend_solution_version_arn";
   "ranking_solution_arn"; "ranking_solution_version_arn";
   "related_campaign_arn"; "recommend_campaign_arn"; "ranking_campaign_arn";
   "filter_arn"].

(** The two data frames are bound by the exploration cells
    ([01_Data_Layer] lines 199 and 248), before the cells modelled here. *)
Definition exploration_frames : list string :=
  ["item_metadata_df"; "user_metadata_df"].

Definition schema_arns : list string :=
  ["interactions_schema_arn"; "items_schema_arn"; "users_schema_arn"].

Section ReadsLayers.
Context {W : Type} (env : Env W) (fuel : nat).

Lemma data_layer_reads :
  (∀ c w e, (client_call env c w).1 = inr e → only_names schema_arns e) →
  (∀ p w e, (read_json env p w).1 = inr e → only_names schema_arns e) →
  reads [] (only_names schema_arns) (data_layer env fuel)
        (filter (λ x, x ∉ exploration_frames) data_layer_stored).
Proof using Type.
  intros Hcalls Hfiles. eapply reads_weaken.
  - unfold data_layer.
    do 17 (eapply reads_bind; [by reads_cell | intros _]). by reads_cell.
  - repeat constructor; by in_list.
Qed.
End ReadsLayers.

Section ReadsTraining.
Context {W : Type} (env : Env W) (fuel : nat).

Lemma training_layer_reads :
  (∀ c w e, (client_call env c w).1 = inr e → only_names [] e) →
  reads ["dataset_group_arn"%string] (only_names [])
        (training_layer env fuel) training_layer_stored.
Proof using Type.
  intros Hcalls. eapply reads_weaken.
  - unfold training_layer.
    do 16 (eapply reads_bind; [by reads_cell | intros _]). by reads_cell.
  - repeat constructor; by in_list.
Qed.
End ReadsTraining.

Lemma no_name_errors_calls {W : Type} (env : Env W) allowed :
  no_name_errors env →
  (∀ c w e, (client_call env c w).1 = inr e → only_names allowed e)
  ∧ (∀ p w e, (read_json env p w).1 = inr e → only_names allowed e).
Proof.
  intros [Hc Hf]. split.
  - intros c w e He x ->. by destruct (Hc c w x).
  - intros p w e He x ->. by destruct (Hf p w x).
Qed.

(** X7.  The data layer reads no variable before it binds it, with one
    exception.  From any state of the kernel, and served by clients that do
    not themselves raise [NameError], the cells from the schemas on raise a
    [NameError] only for one of the three schema ARN variables (which the
    already-exists path of a schema cell can leave unbound); and when they
    run to the end, every variable that the last cell stores, other than the
    two data frames of the exploration cells, is bound. *)
Theorem data_layer_binds_before_reading {W : Type} (env : Env W)
    (fuel : nat) (s : State W) :
  no_name_errors env →
  match (data_layer env fuel s).1 with
  | Raise e => ∀ x, e = NameError x → x ∈ schema_arns
  | Ok _ =>
      ∀ x, x ∈ data_layer_stored → x ∉ exploration_frames →
           is_Some (globals (data_layer env fuel s).2 !! x)
  | OutOfFuel => True
  end.
Proof.
  intros [Hcalls Hfiles]%(no_name_errors_calls env schema_arns).
  destruct (data_layer_reads env fuel Hcalls Hfiles s) as [_ Hpost].
  specialize (Hpost (bound_nil _)).
  destruct (data_layer env fuel s).1; [|done..].
  intros x Hx Hframe. apply Hpost. by apply list_elem_of_filter.
Qed.

(** X8.  The training layer needs one variable of the data layer.  From a
    kernel in which [dataset_group_arn] is bound (the data layer stores it),
    the cells of the training layer never raise [NameError], and when they
    run to the end every variable that the last cell stores is bound. *)
Theorem training_layer_needs_only_the_group {W : Type} (env : Env W)
    (fuel : nat) (s : State W) :
  no_name_errors env →
  is_Some (globals s !! "dataset_group_arn"%string) →
  match (training_layer env fuel s).1 with
  | Raise e => ∀ x, e ≠ NameError x
  | Ok _ =>
      ∀ x, x ∈ training_layer_stored →
           is_Some (globals (training_layer env fuel s).2 !! x)
  | OutOfFuel => True
  end.
Proof.
  intros [Hcalls _]%(no_name_errors_calls env []) Hgroup.
  destruct (training_layer_reads env fuel Hcalls s) as [_ Hpost].
  assert (bound ["dataset_group_arn"%string] (globals s)) as HD.
  { by intros x ->%list_elem_of_singleton. }
  specialize (Hpost HD).
  destruct (training_layer env fuel s).1; [done| |done].
  intros x ->. by destruct (proj1 (elem_of_nil x) (Hpost x eq_refl)).
Qed.

Lemma sample_env_no_name_errors : no_name_errors sample_env.
Proof.
  split; intros c w x; cbn;
    unfold Aws.handler, Aws.create, Scripted.describe_handler,
           Scenario.all_active;
    repeat case_match; congruence.
Qed.

Lemma sample_data_layer_returns :
  (data_layer sample_env 5 (Scripted.start 0)).1 = Ok tt.
Proof. vm_compute. reflexivity. Qed.

Lemma sample_training_layer_returns :
  (training_layer sample_env 5 waiting_for_group).1 = Ok tt.
Proof. vm_compute. reflexivity. Qed.

Lemma data_layer_binds_before_reading_witness :
  (data_layer sample_env 5 (Scripted.start 0)).1 = Ok tt
  ∧ Forall (λ x, is_Some (globals (data_layer sample_env 5
                                     (Scripted.start 0)).2 !! x))
           (filter (λ x, x ∉ exploration_frames) data_layer_stored).
Proof.
  pose proof (data_layer_binds_before_reading sample_env 5 (Scripted.start 0)
                sample_env_no_name_errors) as Hrun.
  rewrite sample_data_layer_returns in Hrun.
  split; [exact sample_data_layer_returns|].
  apply Forall_forall. intros x [Hframe Hx]%list_elem_of_filter.
  by apply Hrun.
Defined.

Lemma training_layer_needs_only_the_group_witness :
  (training_layer sample_env 5 waiting_for_group).1 = Ok tt
  ∧ Forall (λ x, is_Some (globals (training_layer sample_env 5
                                     waiting_for_group).2 !! x))
           training_layer_stored.
Proof.
  pose proof (training_layer_needs_only_the_group sample_env 5
                waiting_for_group sample_env_no_name_errors
                (mk_is_Some _ _ eq_refl)) as Hrun.
  rewrite sample_training_layer_returns in Hrun.
  split; [exact sample_training_layer_returns|].
  apply Forall_forall. intros x Hx. by apply Hrun.
Defined.

(** ** Stepping through a run that returned *)

Lemma bind_ok {W A B : Type} (m : M W A) (f : A → M W B) s b s' :
  bind m f s = (Ok b, s') →
  ∃ a s1, m s = (Ok a, s1) ∧ f a s1 = (Ok b, s').
Proof.
  unfold bind. destruct (m s) as [[a|e|] s1]; [|done..].
  intros H. by exists a, s1.
Qed.

Lemma get_global_ok {W : Type} x (s : State W) v s' :
  get_global x s = (Ok v, s') → globals s !! x = Some v ∧ s' = s.
Proof.
  unfold get_global. destruct (globals s !! x); [|done]. by intros [= -> ->].
Qed.

Lemma set_global_ok {W : Type} x v (s : State W) u s' :
  set_global x v s = (Ok u, s') →
  s' = mkState (world s) (<[x := v]> (globals s)) (trace s).
Proof. by intros [= <-]. Qed.

Lemma call_ok {W : Type} (env : Env W) cl o kw s v s' :
  call env cl o kw s = (Ok v, s') →
  ∃ w', client_call env (mkCall cl o kw) (world s) = (inl v, w')
        ∧ s' = mkState w' (globals s)
                       (trace s ++ [ECall (mkCall cl o kw) (inl v)]).
Proof.
  unfold call. destruct (client_call env _ (world s)) as [[v'|e] w'];
    [|done].
  intros [= -> <-]. by exists w'.
Qed.

Lemma lift_ok {W A : Type} (r : A + exn) (s : State W) a s' :
  lift r s = (Ok a, s') → r = inl a ∧ s' = s.
Proof. destruct r; [|done]. by intros [= -> ->]. Qed.

Lemma print_ok {W : Type} line (s : State W) u s' :
  print line s = (Ok u, s') →
  s' = mkState (world s) (globals s) (trace s ++ [EPrint line]).
Proof. by intros [= <-]. Qed.

Lemma time_sleep_ok {W : Type} (env : Env W) secs s u s' :
  time_sleep env secs s = (Ok u, s') →
  s' = mkState (sleep_for env secs (world s)) (globals s)
               (trace s ++ [ESleep secs]).
Proof. by intros [= <-]. Qed.

Lemma ret_ok {W A : Type} (a : A) (s : State W) b s' :
  ret a s = (Ok b, s') → b = a ∧ s' = s.
Proof. by intros [= -> ->]. Qed.

Lemma try_except_ok {W A : Type} (m : M W A) handles h s a s' :
  try_except m handles h s = (Ok a, s') →
  m s = (Ok a, s')
  ∨ ∃ e s1, m s = (Raise e, s1) ∧ handles e = true ∧ h e s1 = (Ok a, s').
Proof.
  unfold try_except. destruct (m s) as [[a'|e|] s1]; [by left| |done].
  destruct (handles e) eqn:E; [|done]. intros H. right. by exists e, s1.
Qed.

Ltac run_step :=
  match goal with
  | H : bind _ _ _ = (Ok _, _) |- _ =>
      let H1 := fresh "Hrun" in
      apply bind_ok in H as (? & ? & H1 & H)
  | H : get_global _ _ = (Ok _, _) |- _ => apply get_global_ok in H as [? ->]
  | H : set_global _ _ _ = (Ok _, _) |- _ => apply set_global_ok in H as ->
  | H : call _ _ _ _ _ = (Ok _, _) |- _ => apply call_ok in H as (? & ? & ->)
  | H : lift _ _ = (Ok _, _) |- _ => apply lift_ok in H as [? ->]
  | H : print _ _ = (Ok _, _) |- _ => apply print_ok in H as ->
  | H : time_sleep _ _ _ = (Ok _, _) |- _ => apply time_sleep_ok in H as ->
  | H : ret _ _ = (Ok _, _) |- _ => apply ret_ok in H as [? ->]
  | H : (if ?b then _ else _) _ = (Ok _, _) |- _ => destruct b
  end.

Ltac run := repeat (run_step; cbn [world globals trace] in * ).


Lemma bind_assoc {W A B C : Type} (m : M W A) (f : A → M W B)
                 (g : B → M W C) s :
  bind (bind m f) g s = bind m (λ a, bind (f a) g) s.
Proof. unfold bind. by destruct (m s) as [[a|e|] s1]. Qed.

Ltac in_trace :=
  first [ solve [apply list_elem_of_here]
        | solve [eassumption]
        | solve [apply list_elem_of_further; in_trace]
        | solve [apply elem_of_app; right; in_trace]
        | solve [apply elem_of_app; left; in_trace] ].

Ltac lookups :=
  repeat match goal with
         | H : context [<[_ := _]> _ !! _] |- _ =>
             first [ rewrite lookup_insert_eq in H
                   | rewrite lookup_insert_ne in H by done ]
         end.

(** ** Facts that build up along a notebook

    A list of facts about the kernel, each about a few variables and about
    what the trace holds so far, established one after the other; [staged n]
    says that the first [n] hold, together with an invariant [I] of the
    trace. *)
Record fact : Type := mkFact {
  fact_vars : list string;
  fact_holds : gmap string value → list event → Prop
}.

(** A fact survives what does not touch its variables and only adds to the
    trace. *)
Definition stable (f : fact) : Prop :=
  ∀ g g' t t', (∀ x, x ∈ fact_vars f → g' !! x = g !! x) →
               fact_holds f g t → fact_holds f g' (t ++ t').

Section Staged.
Context {W : Type} (I : list event → Prop) (P : event → Prop).
Context (facts : list fact).
Context (HI : ∀ t t', I t → Forall P t' → I (t ++ t')).
Context (Hstable : Forall stable facts).

Definition staged (n : nat) (s : State W) : Prop :=
  I (trace s)
  ∧ ∀ k f, facts !! k = Some f → (k < n)%nat →
           fact_holds f (globals s) (trace s).

Definition staged_vars (n : nat) : list string :=
  mjoin (fact_vars <$> take n facts).

Lemma staged_vars_elem n k f x :
  facts !! k = Some f → (k < n)%nat → x ∈ fact_vars f → x ∈ staged_vars n.
Proof using Type.
  intros Hk Hlt Hx. unfold staged_vars. apply list_elem_of_join.
  exists (fact_vars f). split; [done|].
  apply list_elem_of_fmap. exists f. split; [done|].
  apply list_elem_of_lookup. exists k. by rewrite lookup_take_lt.
Qed.

Lemma staged_grow n s s' t :
  staged n s → trace s' = trace s ++ t → I (trace s') →
  (∀ x, x ∈ staged_vars n → globals s' !! x = globals s !! x) →
  staged n s'.
Proof using Hstable.
  intros [Hi Hfacts] Ht Hi' Hgl. split; [done|].
  intros k f Hk Hlt. rewrite Ht.
  eapply (proj1 (Forall_lookup _ _) Hstable k f Hk); [|by eapply Hfacts].
  intros x Hx. apply Hgl. by eapply staged_vars_elem.
Qed.

Lemma staged_tidy n (m : M W unit) :
  tidy false P (λ x, x ∈ staged_vars n) m →
  hoare (staged n) m (staged n) (λ s, I (trace s)).
Proof using HI Hstable.
  intros Hm s Hs. destruct (Hm s) as (t & Ht & HP & Hgl & _).
  assert (I (trace (m s).2)) as Hi by (rewrite Ht; apply HI; [apply Hs|done]).
  pose proof (staged_grow n s (m s).2 t Hs Ht Hi Hgl) as Hs'.
  by destruct (m s).1.
Qed.

Lemma staged_S n f s :
  facts !! n = Some f → staged n s → fact_holds f (globals s) (trace s) →
  staged (S n) s.
Proof using Type.
  intros Hn [Hi Hfacts] Hf. split; [done|].
  intros k f' Hk Hlt. destruct (decide (k = n)) as [->|Hne].
  - by simplify_eq.
  - apply (Hfacts k); [done | lia].
Qed.

Lemma staged_step n f (m : M W unit) :
  facts !! n = Some f →
  tidy false P (λ x, x ∈ staged_vars n) m →
  (∀ s s', staged n s → m s = (Ok tt, s') →
           fact_holds f (globals s') (trace s')) →
  hoare (staged n) m (staged (S n)) (λ s, I (trace s)).
Proof using HI Hstable.
  intros Hn Hm Hfact s Hs. pose proof (staged_tidy n m Hm s Hs) as Hs'.
  specialize (Hfact s (m s).2 Hs).
  destruct (m s) as [[[]| |] s']; cbn [fst snd] in *; [|done..].
  eapply staged_S; [done | done | by apply Hfact].
Qed.
End Staged.


Ltac not_in_staged :=
  let H := fresh in
  unfold staged_vars; cbn; intros H;
  repeat (apply elem_of_cons in H as [H|H]; [discriminate|]);
  by apply elem_of_nil in H.

Ltac staged_side := first [ tidy_side | not_in_staged ].
(** ** What an import job is given *)

(** One line per dataset: the name of its import job, its type, the key and
    the local path of its file, and the variables that hold its ARN, the key
    and the path. *)
Record Row : Type := mkRow {
  r_job : string;
  r_type : string;
  r_file : string;
  r_raw : string;
  r_var : string;
  r_file_var : string;
  r_raw_var : string
}.

Definition interactions_row : Row :=
  mkRow "immersion-day-retail-dataset-interactions-import" "INTERACTIONS"
        "interactions.csv"
        "../../automation/ml_ops/domain/Retail/data/Interactions/interactions.csv"
        "interactions_dataset_arn" "interactions_filename"
        "raw_interactions_filename".

Definition items_row : Row :=
  mkRow "immersion-day-retail-dataset-items-import" "ITEMS" "items.csv"
        "../../automation/ml_ops/domain/Retail/data/Items/items.csv"
        "items_dataset_arn" "items_filename" "raw_items_filename".

Definition users_row : Row :=
  mkRow "immersion-day-retail-dataset-users-import" "USERS" "users.csv"
        "../../automation/ml_ops/domain/Retail/data/Users/users.csv"
        "users_dataset_arn" "users_filename" "raw_users_filename".

Definition rows : list Row := [interactions_row; items_row; users_row].

(** The file [raw] was uploaded to [bucket] under the key [file]. *)
Definition uploaded (bucket : value) (file raw : string) (t : list event)
  : Prop :=
  ∃ r, ECall (mkCall "s3" "upload_file"
                [("Bucket", bucket); ("Key", VStr file);
                 ("Filename", VStr raw)]) (inl r) ∈ t.

(** [dataset] is the ARN that a [create_dataset] call for a dataset of type
    [type] returned. *)
Definition dataset_of (type : string) (dataset : value) (t : list event)
  : Prop :=
  ∃ n group schema response,
    ECall (mkCall "personalize" "create_dataset"
             [("name", n); ("datasetType", VStr type);
              ("datasetGroupArn", group); ("schemaArn", schema)])
          (inl response) ∈ t
    ∧ getitem response "datasetArn" = inl dataset.

(** [role] is the ARN of the role in the response of [create_role] or of
    [get_role]. *)
Definition role_of (role : value) (t : list event) : Prop :=
  ∃ o kw response r,
    (o = "create_role" ∨ o = "get_role")%string
    ∧ ECall (mkCall "iam" o kw) (inl response) ∈ t
    ∧ getitem response "Role" = inl r ∧ getitem r "Arn" = inl role.

Definition import_call {W : Type} (env : Env W) (row : Row)
                       (bucket dataset role : value) : Call :=
  mkCall "personalize" "create_dataset_import_job"
    [("jobName", VStr (r_job row)); ("datasetArn", dataset);
     ("dataSource",
      VDict [("dataLocation",
              VStr ("s3://" ++ py_str env bucket ++ "/" ++ r_file row))]);
     ("roleArn", role)].

(** The import job call [c], made after [t1], fits the line [row]: it reads
    the file of that line from the bucket it was uploaded to, into the
    dataset of that line's type, with the role the notebook obtained. *)
Definition job_matches {W : Type} (env : Env W) (row : Row) (c : Call)
                       (t1 : list event) : Prop :=
  ∃ bucket dataset role,
    c = import_call env row bucket dataset role
    ∧ uploaded bucket (r_file row) (r_raw row) t1
    ∧ dataset_of (r_type row) dataset t1
    ∧ role_of role t1.

Definition jobs_consistent {W : Type} (env : Env W) (t : list event) : Prop :=
  ∀ t1 c r t2, t = t1 ++ ECall c r :: t2 →
               op c = "create_dataset_import_job"%string →
               ∃ row, row ∈ rows ∧ job_matches env row c t1.

Lemma uploaded_app b f raw t t' : uploaded b f raw t → uploaded b f raw (t ++ t').
Proof. intros [r Hin]. exists r. set_solver. Qed.

Lemma dataset_of_app type a t t' : dataset_of type a t → dataset_of type a (t ++ t').
Proof.
  intros (n & g & sc & response & Hin & Hget).
  exists n, g, sc, response. split; [set_solver | done].
Qed.

Lemma role_of_app a t t' : role_of a t → role_of a (t ++ t').
Proof.
  intros (o & kw & response & r & Ho & Hin & Hr & Ha).
  exists o, kw, response, r. split_and!; [done | set_solver | done | done].
Qed.

Lemma jobs_consistent_nil {W : Type} (env : Env W) : jobs_consistent env [].
Proof. intros t1 c r t2 Heq. by destruct t1. Qed.

Lemma jobs_consistent_app {W : Type} (env : Env W) t t' :
  jobs_consistent env t →
  Forall (not_op "create_dataset_import_job") t' →
  jobs_consistent env (t ++ t').
Proof.
  intros Hj Hno t1 c r t2 Heq Hop. symmetry in Heq.
  apply app_split in Heq as [(t2a & -> & ->)|(t1b & -> & ->)].
  - by eapply Hj.
  - apply Forall_app in Hno as [_ Hno]. apply Forall_cons in Hno as [Hno _].
    by destruct Hno.
Qed.

Lemma jobs_consistent_snoc {W : Type} (env : Env W) t c r row :
  jobs_consistent env t → row ∈ rows → job_matches env row c t →
  jobs_consistent env (t ++ [ECall c r]).
Proof.
  intros Hj Hrow Hm t1 c' r' t2 Heq Hop. symmetry in Heq.
  apply app_split in Heq as [(t2a & -> & ->)|(t1b & Heq & ->)].
  - by eapply Hj.
  - destruct t1b as [|e t1b]; [|by destruct t1b].
    cbn in Heq. injection Heq as <- <-. rewrite app_nil_r. by exists row.
Qed.

(** The facts of the data layer, in the order of its cells: after the
    set-up cell the file variables hold the keys and paths of the three
    lines; after each dataset cell its variable holds what [create_dataset]
    returned for its type; after the upload cell the three files are in the
    bucket named by [bucket_name]; after the role cell [role_arn] holds the
    ARN of the role. *)
Definition files_fact : fact :=
  mkFact ((r_file_var <$> rows) ++ (r_raw_var <$> rows))
         (λ g _, ∀ row, row ∈ rows →
                        g !! r_file_var row = Some (VStr (r_file row))
                        ∧ g !! r_raw_var row = Some (VStr (r_raw row))).

Definition dataset_fact (row : Row) : fact :=
  mkFact [r_var row]
         (λ g t, ∃ a, g !! r_var row = Some a ∧ dataset_of (r_type row) a t).

Definition upload_fact : fact :=
  mkFact ["bucket_name"%string]
         (λ g t, ∃ b, g !! "bucket_name"%string = Some b
                      ∧ ∀ row, row ∈ rows →
                               uploaded b (r_file row) (r_raw row) t).

Definition role_fact : fact :=
  mkFact ["role_arn"%string]
         (λ g t, ∃ a, g !! "role_arn"%string = Some a ∧ role_of a t).

Definition data_facts : list fact :=
  [files_fact; dataset_fact interactions_row; dataset_fact items_row;
   dataset_fact users_row; upload_fact; role_fact].

Lemma dataset_fact_stable row : stable (dataset_fact row).
Proof.
  intros g g' t t' Hgl (a & Ha & Hd). exists a.
  rewrite Hgl by (by apply list_elem_of_singleton).
  split; [done | by apply dataset_of_app].
Qed.

Lemma data_facts_stable : Forall stable data_facts.
Proof.
  repeat apply Forall_cons_2; try apply Forall_nil_2;
    try apply dataset_fact_stable.
  - intros g g' t t' Hgl Hf row Hrow.
    cbn [fact_vars fact_holds files_fact] in *.
    rewrite !Hgl; [by apply Hf|..]; apply elem_of_app;
      [right | left]; by apply list_elem_of_fmap_2.
  - intros g g' t t' Hgl (b & Hb & Hup). exists b.
    rewrite Hgl by (by apply list_elem_of_singleton).
    split; [done|]. intros row Hrow. by apply uploaded_app, Hup.
  - intros g g' t t' Hgl (a & Ha & Hr). exists a.
    rewrite Hgl by (by apply list_elem_of_singleton).
    split; [done | by apply role_of_app].
Qed.

Ltac rows_cases H :=
  repeat (apply elem_of_cons in H as [->|H]); [..|by apply elem_of_nil in H].

Section ImportJobs.
Context {W : Type} (env : Env W) (fuel : nat).

Let dstage : nat → State W → Prop := staged (jobs_consistent env) data_facts.
Let Fail (s : State W) : Prop := jobs_consistent env (trace s).

Lemma setup_cell_files (s s' : State W) :
  setup_cell s = (Ok tt, s') →
  fact_holds files_fact (globals s') (trace s').
Proof using Type.
  intros [= <-] row Hrow. cbn.
  rows_cases Hrow; cbn [r_file_var r_raw_var r_file r_raw interactions_row
                        items_row users_row];
    split;
    repeat first [ rewrite lookup_insert_eq | rewrite lookup_insert_ne by done ];
    done.
Qed.

Lemma create_dataset_cell_sets type dataset_name schema_var var s s' :
  create_dataset_cell env type dataset_name schema_var var s = (Ok tt, s') →
  ∃ a, globals s' !! var = Some a ∧ dataset_of type a (trace s').
Proof using Type.
  unfold create_dataset_cell, create_resource. intros Hrun. run.
  eexists. split; [by rewrite lookup_insert_eq|].
  match goal with
  | H : <["dataset_type"%string := _]> _ !! "dataset_type"%string = Some ?v
    |- _ => rewrite lookup_insert_eq in H; injection H as <-
  end.
  eexists _, _, _, _. split; [in_trace | done].
Qed.

Lemma upload_cell_uploads s s' :
  fact_holds files_fact (globals s) (trace s) →
  upload_cell env s = (Ok tt, s') →
  fact_holds upload_fact (globals s') (trace s').
Proof using Type.
  intros Hfiles. unfold upload_cell, upload. intros Hrun. run.
  destruct (Hfiles interactions_row) as [Hf1 Hr1]; [by in_list|].
  destruct (Hfiles items_row) as [Hf2 Hr2]; [by in_list|].
  destruct (Hfiles users_row) as [Hf3 Hr3]; [by in_list|].
  cbn [r_file_var r_raw_var r_file r_raw interactions_row items_row users_row]
    in *.
  simplify_eq. eexists. split; [done|].
  intros row Hrow. rows_cases Hrow; eexists; in_trace.
Qed.

Lemma iam_role_cell_sets s s' :
  iam_role_cell env s = (Ok tt, s') →
  fact_holds role_fact (globals s') (trace s').
Proof using Type.
  unfold iam_role_cell, role_attach. intros Hrun. run.
  match goal with
  | H : role_create _ _ _ = (Ok _, _) |- _ =>
      unfold role_create in H;
      apply try_except_ok in H as [H|(e & s1 & Hraise & _ & H)];
      [|unfold role_recover in H]
  end.
  - run. lookups. simplify_eq.
    eexists. split; [by rewrite lookup_insert_eq|].
    eexists "create_role"%string, _, _, _.
    split_and!; [by left | in_trace | done | done].
  - run. lookups. simplify_eq. eexists. split; [by rewrite lookup_insert_eq|].
    eexists "get_role"%string, _, _, _.
    split_and!; [by right | in_trace | done | done].
Qed.

Lemma dstage_tidy n (m : M W unit) :
  tidy false (not_op "create_dataset_import_job")
       (λ x, x ∈ staged_vars data_facts n) m →
  hoare (dstage n) m (dstage n) Fail.
Proof using Type.
  intros Hm. eapply staged_tidy;
    [exact (jobs_consistent_app env) | exact data_facts_stable | exact Hm].
Qed.

Lemma dstage_step n f (m : M W unit) :
  data_facts !! n = Some f →
  tidy false (not_op "create_dataset_import_job")
       (λ x, x ∈ staged_vars data_facts n) m →
  (∀ s s', dstage n s → m s = (Ok tt, s') →
           fact_holds f (globals s') (trace s')) →
  hoare (dstage n) m (dstage (S n)) Fail.
Proof using Type.
  intros Hn Hm Hfact. eapply staged_step;
    [exact (jobs_consistent_app env) | exact data_facts_stable
    | exact Hn | exact Hm | exact Hfact].
Qed.

Ltac dstage_cell :=
  apply dstage_tidy; autounfold with cells; repeat tidy_cell_step;
  staged_side.

Ltac dstage_grows :=
  eapply dstage_step;
  [reflexivity | autounfold with cells; repeat tidy_cell_step; staged_side |].

Lemma hoare_setup : hoare (dstage 0) setup_cell (dstage 1) Fail.
Proof using Type.
  dstage_grows. intros s s' _ Hrun. by apply (setup_cell_files s s').
Qed.

Lemma hoare_stage_1 :
  Forall (λ m, hoare (dstage 1) m (dstage 1) Fail)
    [interactions_schema_cell env; items_schema_cell env;
     users_schema_cell env; create_dataset_group_cell env;
     wait_dataset_group_cell env fuel].
Proof using Type.
  repeat apply Forall_cons_2; try apply Forall_nil_2; dstage_cell.
Qed.

Lemma hoare_datasets :
  hoare (dstage 1) (create_interactions_dataset_cell env) (dstage 2) Fail
  ∧ hoare (dstage 2) (create_items_dataset_cell env) (dstage 3) Fail
  ∧ hoare (dstage 3) (create_users_dataset_cell env) (dstage 4) Fail.
Proof using Type.
  split_and!; dstage_grows; intros s s' _ Hrun;
    by eapply create_dataset_cell_sets.
Qed.

Lemma hoare_stage_4 :
  Forall (λ m, hoare (dstage 4) m (dstage 4) Fail)
    [region_cell env; bucket_cell env].
Proof using Type.
  repeat apply Forall_cons_2; try apply Forall_nil_2; dstage_cell.
Qed.

Lemma hoare_upload : hoare (dstage 4) (upload_cell env) (dstage 5) Fail.
Proof using Type.
  dstage_grows. intros s s' [_ Hfacts] Hrun.
  eapply upload_cell_uploads; [|done].
  apply (Hfacts 0%nat files_fact eq_refl). lia.
Qed.

Lemma hoare_policy :
  hoare (dstage 5) (bucket_policy_cell env) (dstage 5) Fail.
Proof using Type. dstage_cell. Qed.

Lemma hoare_role : hoare (dstage 5) (iam_role_cell env) (dstage 6) Fail.
Proof using Type.
  dstage_grows. intros s s' _ Hrun. by eapply iam_role_cell_sets.
Qed.

Lemma hoare_wait_jobs :
  hoare (dstage 6) (wait_import_jobs_cell env fuel) (dstage 6) Fail.
Proof using Type. dstage_cell. Qed.

Lemma hoare_import_job n row response_var var :
  data_facts !! n = Some (dataset_fact row) → row ∈ rows →
  response_var ∉ staged_vars data_facts 6 →
  var ∉ staged_vars data_facts 6 →
  hoare (dstage 6)
        (create_import_job_cell env (r_job row) (r_var row) (r_file_var row)
                                response_var var)
        (dstage 6) Fail.
Proof using Type.
  intros Hn Hrow Hrv Hv s Hs.
  assert (n < 6)%nat as Hlt.
  { apply lookup_lt_Some in Hn. cbn in Hn. lia. }
  destruct (proj2 Hs 0%nat files_fact eq_refl ltac:(lia) row Hrow)
    as [Hfile _].
  destruct (proj2 Hs n (dataset_fact row) Hn Hlt) as (a & Ha & Hd).
  destruct (proj2 Hs 4%nat upload_fact eq_refl ltac:(lia)) as (b & Hb & Hup).
  destruct (proj2 Hs 5%nat role_fact eq_refl ltac:(lia)) as (ra & Hra & Hro).
  destruct (create_import_job_cell _ _ _ _ _ _ s) as [res s'] eqn:Hrun.
  cbn [fst snd]. revert Hrun.
  unfold create_import_job_cell, create_resource.
  unfold bind at 1, get_global at 1. rewrite Ha.
  unfold bind at 1, get_global at 1. rewrite Hb.
  unfold bind at 1, get_global at 1. rewrite Hfile.
  unfold bind at 1, get_global at 1. rewrite Hra.
  rewrite bind_assoc. unfold bind at 1, call at 1.
  cbn [py_str]. fold (import_call env row b a ra).
  destruct (client_call env _ (world s)) as [r w'].
  set (s1 := mkState w' (globals s)
                     (trace s ++ [ECall (import_call env row b a ra) r])).
  assert (dstage 6 s1) as Hs1.
  { eapply (staged_grow (jobs_consistent env) data_facts data_facts_stable
              6 s s1); [done | done | | done].
    apply jobs_consistent_snoc with row; [apply Hs | done |].
    exists b, a, ra. split_and!; [done | by apply Hup | done | done]. }
  destruct r as [response|e].
  2:{ intros [= <- <-]. apply Hs1. }
  match goal with |- ?rest s1 = _ → _ => set (m := rest) end.
  assert (tidy false (not_op "create_dataset_import_job")
               (λ x, x ∈ staged_vars data_facts 6) m) as Hm.
  { subst m. repeat tidy_cell_step; first [ done | staged_side ]. }
  intros Hrun. pose proof (dstage_tidy 6 m Hm s1 Hs1) as Hpost.
  by rewrite Hrun in Hpost.
Qed.

Lemma data_layer_stages :
  hoare (dstage 0) (data_layer env fuel) (dstage 6) Fail.
Proof using Type.
  pose proof hoare_setup.
  pose proof hoare_stage_1 as Hone.
  repeat (apply Forall_cons in Hone as [? Hone]).
  destruct hoare_datasets as (? & ? & ?).
  pose proof hoare_stage_4 as Hfour.
  repeat (apply Forall_cons in Hfour as [? Hfour]).
  pose proof hoare_upload. pose proof hoare_policy. pose proof hoare_role.
  pose proof hoare_wait_jobs.
  assert (hoare (dstage 6) (create_interactions_import_job_cell env)
                (dstage 6) Fail)
    by (apply (hoare_import_job 1 interactions_row);
        [done | by in_list | not_in_staged..]).
  assert (hoare (dstage 6) (create_items_import_job_cell env)
                (dstage 6) Fail)
    by (apply (hoare_import_job 2 items_row);
        [done | by in_list | not_in_staged..]).
  assert (hoare (dstage 6) (create_users_import_job_cell env)
                (dstage 6) Fail)
    by (apply (hoare_import_job 3 users_row);
        [done | by in_list | not_in_staged..]).
  unfold data_layer.
  repeat (eapply hoare_seq; [eassumption|]). eassumption.
Qed.
End ImportJobs.

(** X9.  Every import job the data layer starts fits its line.  In a run
    that began with an empty trace, each [create_dataset_import_job] call is
    that of one of the three datasets: it carries the job name of that
    dataset, reads the object [s3://<bucket>/<key>] where an earlier,
    answered [upload_file] call put the file of that dataset under that key
    in that bucket, loads it into the ARN that an earlier, answered
    [create_dataset] call of that dataset's type returned, and passes the
    ARN of the role that [create_role] or [get_role] returned. *)
Theorem import_jobs_fit_their_datasets {W : Type} (env : Env W) (fuel : nat)
                                       (s : State W) :
  trace s = [] →
  jobs_consistent env (trace (data_layer env fuel s).2).
Proof.
  intros Hs.
  assert (staged (jobs_consistent env) data_facts 0 s) as Hstage.
  { split; [rewrite Hs; apply jobs_consistent_nil|].
    intros k f _ Hlt. lia. }
  pose proof (data_layer_stages env fuel s Hstage) as Hpost.
  destruct (data_layer env fuel s).1; [apply Hpost | done | done].
Qed.

Lemma sample_trace_split :
  trace (data_layer sample_env 5 (Scripted.start 0)).2
  = sample_before ++ ECall sample_job_call sample_job_answer :: sample_after.
Proof. vm_compute. reflexivity. Qed.

Lemma import_jobs_fit_their_datasets_witness :
  ∃ row, row ∈ rows ∧ job_matches sample_env row sample_job_call sample_before.
Proof.
  exact (import_jobs_fit_their_datasets sample_env 5 (Scripted.start 0)
           eq_refl sample_before sample_job_call sample_job_answer
           sample_after sample_trace_split eq_refl).
Defined.

(** ** The calls the notebooks make *)

(** The operations of each notebook, by client. *)
Definition data_layer_ops : list (string * string) :=
  [("personalize", "create_schema"); ("personalize", "list_schemas");
   ("personalize", "create_dataset_group");
   ("personalize", "describe_dataset_group");
   ("personalize", "create_dataset");
   ("sts", "get_caller_identity");
   ("s3", "create_bucket"); ("s3", "upload_file"); ("s3", "put_bucket_policy");
   ("iam", "create_role"); ("iam", "get_role"); ("iam", "attach_role_policy");
   ("personalize", "create_dataset_import_job");
   ("personalize", "describe_dataset_import_job")].

Definition training_layer_ops : list (string * string) :=
  [("personalize", "list_recipes");
   ("personalize", "create_solution");
   ("personalize", "create_solution_version");
   ("personalize", "describe_solution_version");
   ("personalize", "get_solution_metrics");
   ("personalize", "create_campaign"); ("personalize", "describe_campaign");
   ("personalize", "create_filter"); ("personalize", "describe_filter")].

Definition calls_among (ops : list (string * string)) (e : event) : Prop :=
  match e with
  | ECall c _ => (client c, op c) ∈ ops
  | _ => True
  end.

Lemma benign_calls_among ops : benign (calls_among ops).
Proof. by split. Qed.

Ltac among_side :=
  lazymatch goal with
  | |- benign (calls_among _) => apply benign_calls_among
  | |- ¬ False => by intros []
  | |- _ => by (intros; cbn; in_list)
  end.

Ltac among_cell :=
  autounfold with cells; repeat tidy_cell_step; among_side.

(** ** What a campaign serves *)

(** One line per pipeline: the name shared by its solution and its
    campaign, its recipe, and the variables that hold the recipe, the
    solution and the solution version. *)
Record Pipeline : Type := mkPipeline {
  p_name : string;
  p_recipe : string;
  p_recipe_var : string;
  p_solution_var : string;
  p_version_var : string
}.

Definition related : Pipeline :=
  mkPipeline "amazon-personalize-immersionday-related-products"
             "arn:aws:personalize:::recipe/aws-sims"
             "related_recipe_arn" "related_solution_arn"
             "related_solution_version_arn".

Definition recommend : Pipeline :=
  mkPipeline "amazon-personalize-immersionday-product-personalization"
             "arn:aws:personalize:::recipe/aws-user-personalization"
             "recommend_recipe_arn" "recommend_solution_arn"
             "recommend_solution_version_arn".

Definition ranking : Pipeline :=
  mkPipeline "amazon-personalize-immersionday-personalized-ranking"
             "arn:aws:personalize:::recipe/aws-personalized-ranking"
             "ranking_recipe_arn" "ranking_solution_arn"
             "ranking_solution_version_arn".

Definition pipelines : list Pipeline := [related; recommend; ranking].

(** [solution] is what [create_solution] returned for the name and the
    recipe of [p]. *)
Definition solution_of (p : Pipeline) (solution : value) (t : list event)
  : Prop :=
  ∃ group response,
    ECall (mkCall "personalize" "create_solution"
             [("name", VStr (p_name p)); ("datasetGroupArn", group);
              ("recipeArn", VStr (p_recipe p))]) (inl response) ∈ t
    ∧ getitem response "solutionArn" = inl solution.

(** [version] is what [create_solution_version] returned for a solution of
    [p]. *)
Definition version_of (p : Pipeline) (version : value) (t : list event)
  : Prop :=
  ∃ solution response,
    solution_of p solution t
    ∧ ECall (mkCall "personalize" "create_solution_version"
               [("solutionArn", solution)]) (inl response) ∈ t
    ∧ getitem response "solutionVersionArn" = inl version.

Definition campaign_call (p : Pipeline) (version : value) : Call :=
  mkCall "personalize" "create_campaign"
    [("name", VStr (p_name p)); ("solutionVersionArn", version);
     ("minProvisionedTPS", VInt 1)].

Definition campaigns_consistent (t : list event) : Prop :=
  ∀ t1 c r t2, t = t1 ++ ECall c r :: t2 →
               op c = "create_campaign"%string →
               ∃ p version, p ∈ pipelines ∧ c = campaign_call p version
                            ∧ version_of p version t1.

Lemma solution_of_app p a t t' : solution_of p a t → solution_of p a (t ++ t').
Proof.
  intros (g & response & Hin & Hget). exists g, response.
  split; [by apply elem_of_app; left | done].
Qed.

Lemma version_of_app p a t t' : version_of p a t → version_of p a (t ++ t').
Proof.
  intros (sol & response & Hsol & Hin & Hget). exists sol, response.
  split_and!; [by apply solution_of_app | by apply elem_of_app; left | done].
Qed.

Lemma campaigns_consistent_nil : campaigns_consistent [].
Proof. intros t1 c r t2 Heq. by destruct t1. Qed.

Lemma campaigns_consistent_app t t' :
  campaigns_consistent t → Forall (not_op "create_campaign") t' →
  campaigns_consistent (t ++ t').
Proof.
  intros Hj Hno t1 c r t2 Heq Hop. symmetry in Heq.
  apply app_split in Heq as [(t2a & -> & ->)|(t1b & -> & ->)].
  - by eapply Hj.
  - apply Forall_app in Hno as [_ Hno]. apply Forall_cons in Hno as [Hno _].
    by destruct Hno.
Qed.

Lemma campaigns_consistent_snoc t p version r :
  campaigns_consistent t → p ∈ pipelines → version_of p version t →
  campaigns_consistent (t ++ [ECall (campaign_call p version) r]).
Proof.
  intros Hj Hp Hv t1 c' r' t2 Heq Hop. symmetry in Heq.
  apply app_split in Heq as [(t2a & -> & ->)|(t1b & Heq & ->)].
  - by eapply Hj.
  - destruct t1b as [|e t1b]; [|by destruct t1b].
    cbn in Heq. injection Heq as <- <-. rewrite app_nil_r. by exists p, version.
Qed.

(** The facts of the training layer, in the order of its cells. *)
Definition recipes_fact : fact :=
  mkFact (p_recipe_var <$> pipelines)
         (λ g _, ∀ p, p ∈ pipelines →
                      g !! p_recipe_var p = Some (VStr (p_recipe p))).

Definition solution_fact (p : Pipeline) : fact :=
  mkFact [p_solution_var p]
         (λ g t, ∃ a, g !! p_solution_var p = Some a ∧ solution_of p a t).

Definition version_fact (p : Pipeline) : fact :=
  mkFact [p_version_var p]
         (λ g t, ∃ a, g !! p_version_var p = Some a ∧ version_of p a t).

Definition training_facts : list fact :=
  [recipes_fact;
   solution_fact related; version_fact related;
   solution_fact recommend; version_fact recommend;
   solution_fact ranking; version_fact ranking].

Lemma training_facts_stable : Forall stable training_facts.
Proof.
  repeat apply Forall_cons_2; try apply Forall_nil_2.
  - intros g g' t t' Hgl Hf p Hp. cbn [fact_vars fact_holds recipes_fact] in *.
    rewrite Hgl; [by apply Hf|]. by apply list_elem_of_fmap_2.
  - intros g g' t t' Hgl (a & Ha & Hs). exists a.
    rewrite Hgl by (by apply list_elem_of_singleton).
    split; [done | by apply solution_of_app].
  - intros g g' t t' Hgl (a & Ha & Hs). exists a.
    rewrite Hgl by (by apply list_elem_of_singleton).
    split; [done | by apply version_of_app].
  - intros g g' t t' Hgl (a & Ha & Hs). exists a.
    rewrite Hgl by (by apply list_elem_of_singleton).
    split; [done | by apply solution_of_app].
  - intros g g' t t' Hgl (a & Ha & Hs). exists a.
    rewrite Hgl by (by apply list_elem_of_singleton).
    split; [done | by apply version_of_app].
  - intros g g' t t' Hgl (a & Ha & Hs). exists a.
    rewrite Hgl by (by apply list_elem_of_singleton).
    split; [done | by apply solution_of_app].
  - intros g g' t t' Hgl (a & Ha & Hs). exists a.
    rewrite Hgl by (by apply list_elem_of_singleton).
    split; [done | by apply version_of_app].
Qed.

Section Campaigns.
Context {W : Type} (env : Env W) (fuel : nat).

Let tstage : nat → State W → Prop :=
  staged campaigns_consistent training_facts.
Let Fail (s : State W) : Prop := campaigns_consistent (trace s).

Lemma recipes_cell_sets s s' :
  recipes_cell env s = (Ok tt, s') →
  fact_holds recipes_fact (globals s') (trace s').
Proof using Type.
  unfold recipes_cell. intros Hrun. run. intros p Hp.
  rows_cases Hp; cbn [p_recipe_var p_recipe related recommend ranking];
    repeat first [ rewrite lookup_insert_eq | rewrite lookup_insert_ne by done ];
    done.
Qed.

Lemma create_solution_cell_sets p var s s' :
  globals s !! p_recipe_var p = Some (VStr (p_recipe p)) →
  create_solution_cell env (p_name p) (p_recipe_var p) var s = (Ok tt, s') →
  ∃ a, globals s' !! var = Some a ∧ solution_of p a (trace s').
Proof using Type.
  intros Hrecipe. unfold create_solution_cell, create_resource.
  intros Hrun. run. simplify_eq.
  eexists. split; [by rewrite lookup_insert_eq|].
  eexists _, _. split; [in_trace | done].
Qed.

Lemma create_solution_version_cell_sets p var s s' :
  (∃ a, globals s !! p_solution_var p = Some a ∧ solution_of p a (trace s)) →
  create_solution_version_cell env (p_solution_var p) var s = (Ok tt, s') →
  ∃ a, globals s' !! var = Some a ∧ version_of p a (trace s').
Proof using Type.
  intros (sol & Hsol & Hof). unfold create_solution_version_cell,
    create_resource.
  intros Hrun. run. simplify_eq.
  eexists. split; [by rewrite lookup_insert_eq|].
  eexists _, _. split_and!; [|in_trace|done].
  by do 2 apply solution_of_app.
Qed.

Lemma tstage_tidy n (m : M W unit) :
  tidy false (not_op "create_campaign")
       (λ x, x ∈ staged_vars training_facts n) m →
  hoare (tstage n) m (tstage n) Fail.
Proof using Type.
  intros Hm. eapply staged_tidy;
    [exact campaigns_consistent_app | exact training_facts_stable | exact Hm].
Qed.

Lemma tstage_step n f (m : M W unit) :
  training_facts !! n = Some f →
  tidy false (not_op "create_campaign")
       (λ x, x ∈ staged_vars training_facts n) m →
  (∀ s s', tstage n s → m s = (Ok tt, s') →
           fact_holds f (globals s') (trace s')) →
  hoare (tstage n) m (tstage (S n)) Fail.
Proof using Type.
  intros Hn Hm Hfact. eapply staged_step;
    [exact campaigns_consistent_app | exact training_facts_stable
    | exact Hn | exact Hm | exact Hfact].
Qed.

Ltac tstage_cell :=
  apply tstage_tidy; autounfold with cells; repeat tidy_cell_step;
  staged_side.

Lemma hoare_recipes : hoare (tstage 0) (recipes_cell env) (tstage 1) Fail.
Proof using Type.
  eapply tstage_step; [reflexivity | |].
  - autounfold with cells. repeat tidy_cell_step; staged_side.
  - intros s s' _ Hrun. by apply (recipes_cell_sets s s').
Qed.

Lemma hoare_solution n p :
  training_facts !! n = Some (solution_fact p) →
  (1 ≤ n)%nat → p ∈ pipelines →
  p_solution_var p ∉ staged_vars training_facts n →
  "create_solution_response"%string ∉ staged_vars training_facts n →
  hoare (tstage n)
        (create_solution_cell env (p_name p) (p_recipe_var p)
                              (p_solution_var p))
        (tstage (S n)) Fail.
Proof using Type.
  intros Hn Hle Hp Hvar Hresponse. eapply tstage_step; [exact Hn | |].
  - unfold create_solution_cell. repeat tidy_cell_step;
      first [ done | tidy_side ].
  - intros s s' [_ Hfacts] Hrun. cbn [fact_holds solution_fact].
    eapply create_solution_cell_sets; [|done].
    by apply (Hfacts 0%nat recipes_fact eq_refl ltac:(lia) p Hp).
Qed.

Lemma hoare_version n p :
  training_facts !! n = Some (solution_fact p) →
  training_facts !! S n = Some (version_fact p) →
  p_version_var p ∉ staged_vars training_facts (S n) →
  "create_solution_version_response"%string
    ∉ staged_vars training_facts (S n) →
  hoare (tstage (S n))
        (create_solution_version_cell env (p_solution_var p) (p_version_var p))
        (tstage (S (S n))) Fail.
Proof using Type.
  intros Hn HSn Hvar Hresponse. eapply tstage_step; [exact HSn | |].
  - unfold create_solution_version_cell. repeat tidy_cell_step;
      first [ done | tidy_side ].
  - intros s s' [_ Hfacts] Hrun. cbn [fact_holds version_fact].
    eapply create_solution_version_cell_sets; [|done].
    apply (Hfacts n (solution_fact p) Hn ltac:(lia)).
Qed.

Lemma hoare_stage_7 :
  Forall (λ m, hoare (tstage 7) m (tstage 7) Fail)
    [wait_solution_versions_cell env fuel;
     metrics_cell env "related_solution_version_arn";
     metrics_cell env "recommend_solution_version_arn";
     metrics_cell env "ranking_solution_version_arn";
     wait_campaigns_cell env fuel; create_filter_cell env;
     wait_filter_cell env fuel].
Proof using Type.
  repeat apply Forall_cons_2; try apply Forall_nil_2; tstage_cell.
Qed.

Lemma hoare_campaign n p var :
  training_facts !! n = Some (version_fact p) → p ∈ pipelines →
  var ∉ staged_vars training_facts 7 →
  hoare (tstage 7)
        (create_campaign_cell env (p_name p) (p_version_var p) var)
        (tstage 7) Fail.
Proof using Type.
  intros Hn Hp Hvar s Hs.
  assert (n < 7)%nat as Hlt.
  { apply lookup_lt_Some in Hn. cbn in Hn. lia. }
  destruct (proj2 Hs n (version_fact p) Hn Hlt) as (v & Hv & Hof).
  destruct (create_campaign_cell _ _ _ _ s) as [res s'] eqn:Hrun.
  cbn [fst snd]. revert Hrun.
  unfold create_campaign_cell, create_resource.
  unfold bind at 1, get_global at 1. rewrite Hv.
  rewrite bind_assoc. unfold bind at 1, call at 1.
  fold (campaign_call p v).
  destruct (client_call env _ (world s)) as [r w'].
  set (s1 := mkState w' (globals s) (trace s ++ [ECall (campaign_call p v) r])).
  assert (tstage 7 s1) as Hs1.
  { eapply (staged_grow campaigns_consistent training_facts
              training_facts_stable 7 s s1); [done | done | | done].
    apply campaigns_consistent_snoc; [apply Hs | done | done]. }
  destruct r as [response|e].
  2:{ intros [= <- <-]. apply Hs1. }
  match goal with |- ?rest s1 = _ → _ => set (m := rest) end.
  assert (tidy false (not_op "create_campaign")
               (λ x, x ∈ staged_vars training_facts 7) m) as Hm.
  { subst m. repeat tidy_cell_step; first [ done | staged_side ]. }
  intros Hrun. pose proof (tstage_tidy 7 m Hm s1 Hs1) as Hpost.
  by rewrite Hrun in Hpost.
Qed.

Lemma training_layer_stages :
  hoare (tstage 0) (training_layer env fuel) (tstage 7) Fail.
Proof using Type.
  pose proof hoare_recipes.
  assert (hoare (tstage 1) (create_related_solution_cell env) (tstage 2) Fail)
    by (apply (hoare_solution 1 related);
        [done | lia | by in_list | not_in_staged..]).
  assert (hoare (tstage 2) (create_related_solution_version_cell env)
                (tstage 3) Fail)
    by (apply (hoare_version 1 related); [done | done | not_in_staged..]).
  assert (hoare (tstage 3) (create_recommend_solution_cell env) (tstage 4)
                Fail)
    by (apply (hoare_solution 3 recommend);
        [done | lia | by in_list | not_in_staged..]).
  assert (hoare (tstage 4) (create_recommend_solution_version_cell env)
                (tstage 5) Fail)
    by (apply (hoare_version 3 recommend); [done | done | not_in_staged..]).
  assert (hoare (tstage 5) (create_ranking_solution_cell env) (tstage 6) Fail)
    by (apply (hoare_solution 5 ranking);
        [done | lia | by in_list | not_in_staged..]).
  assert (hoare (tstage 6) (create_ranking_solution_version_cell env)
                (tstage 7) Fail)
    by (apply (hoare_version 5 ranking); [done | done | not_in_staged..]).
  pose proof hoare_stage_7 as Hseven.
  repeat (apply Forall_cons in Hseven as [? Hseven]).
  assert (hoare (tstage 7) (create_related_campaign_cell env) (tstage 7) Fail)
    by (apply (hoare_campaign 2 related);
        [done | by in_list | not_in_staged]).
  assert (hoare (tstage 7) (create_recommend_campaign_cell env) (tstage 7)
                Fail)
    by (apply (hoare_campaign 4 recommend);
        [done | by in_list | not_in_staged]).
  assert (hoare (tstage 7) (create_ranking_campaign_cell env) (tstage 7) Fail)
    by (apply (hoare_campaign 6 ranking);
        [done | by in_list | not_in_staged]).
  unfold training_layer.
  repeat (eapply hoare_seq; [eassumption|]). eassumption.
Qed.
End Campaigns.

(** X11.  Every campaign serves a version of its own solution.  In a run of
    the training layer that began with an empty trace, each
    [create_campaign] call is that of one of the three pipelines: it carries
    the name of that pipeline and the solution version that an earlier,
    answered [create_solution_version] call returned for a solution that an
    earlier, answered [create_solution] call had returned under the same
    name and with that pipeline's recipe. *)
Theorem campaigns_serve_their_solutions {W : Type} (env : Env W) (fuel : nat)
                                        (s : State W) :
  trace s = [] →
  campaigns_consistent (trace (training_layer env fuel s).2).
Proof.
  intros Hs.
  assert (staged campaigns_consistent training_facts 0 s) as Hstage.
  { split; [rewrite Hs; apply campaigns_consistent_nil|].
    intros k f _ Hlt. lia. }
  pose proof (training_layer_stages env fuel s Hstage) as Hpost.
  destruct (training_layer env fuel s).1; [apply Hpost | done | done].
Qed.

Definition training_split :
  option (list event * Call * (value + exn) * list event) :=
  Eval vm_compute in
    first_call "create_campaign"
               (trace (training_layer sample_env 5 waiting_for_group).2).

Definition training_before : list event :=
  Eval vm_compute in
    match training_split with Some (t1, _, _, _) => t1 | None => [] end.

Definition first_campaign_call : Call :=
  Eval vm_compute in
    match training_split with
    | Some (_, c, _, _) => c
    | None => mkCall "" "" []
    end.

Definition first_campaign_answer : value + exn :=
  Eval vm_compute in
    match training_split with Some (_, _, r, _) => r | None => inl VNone end.

Definition training_after : list event :=
  Eval vm_compute in
    match training_split with Some (_, _, _, t2) => t2 | None => [] end.

Lemma training_trace_split :
  trace (training_layer sample_env 5 waiting_for_group).2
  = training_before
    ++ ECall first_campaign_call first_campaign_answer :: training_after.
Proof. vm_compute. reflexivity. Qed.

Lemma campaigns_serve_their_solutions_witness :
  ∃ p version,
    p ∈ pipelines ∧ first_campaign_call = campaign_call p version
    ∧ version_of p version training_before.
Proof.
  exact (campaigns_serve_their_solutions sample_env 5 waiting_for_group
           eq_refl training_before first_campaign_call first_campaign_answer
           training_after training_trace_split eq_refl).
Defined.
